(** * binmerge-gui: cuesheet parser, sector arithmetic, merge and split engines

    A shallow embedding of [binmerge-gui.py] (the functions between
    [log_debug] and [split_files]) and the properties of its specification.

    Conventions of the embedding:
    - a Python [str] is a [string] of code points below 256 (a cuesheet is
      read as such, byte by byte), [bytes] are a [list byte]; in that range
      the regular-expression class [\d] is exactly [0-9] and [\s] is the six
      ASCII blanks plus 0x1c..0x1f, 0x85, 0xa0; [int] of a run of digits is
      its value, however long the run;
    - a Python number is an unbounded [int] (a [Z]) or a [float] (IEEE 754
      binary64, the kernel's primitive [float]); the operators [/], [%], [+]
      and the [%d] conversion follow CPython's rules for each combination;
    - a raised exception is the [Err] branch of [result]; the class-level
      attribute [Track.globalBlocksize] and the file system are threaded
      explicitly;
    - output of [print] (the debug log) is not modelled, the evaluation of
      the logged expressions is;
    - paths are POSIX paths without a NUL character and name files by
      their spelling; creating a file always succeeds (its directory exists,
      the disk has room); what is written reaches the file at once, and a
      file opened for reading delivers the bytes it had when it was opened;
      a read of a length below [-1] is refused, as a [BufferedReader] does. *)

From Stdlib Require Import ZArith Floats Uint63 Ascii String.
From Stdlib.Strings Require Import Byte.
From Stdlib Require DecimalString DecimalN DecimalPos DecimalFacts.
From Equations Require Import Equations.
From stdpp Require Import base tactics option list gmap strings.

Local Open Scope string_scope.
Local Open Scope list_scope.
Local Open Scope Z_scope.

(** ** Exceptions and results *)

(** The two messages [ErrorException] is raised with. *)
Inductive error_message : Type :=
| BinFileNotFoundOrNotReadable (path : string)
| TargetBinPathExists (path : string).

(** The exceptions the embedded functions can raise.  [ErrorException] is the
    program's own class; the others are Python's built-in ones. *)
Inductive exn : Type :=
| ErrorException (msg : error_message)
| AttributeError
| TypeError
| ValueError
| IndexError
| ZeroDivisionError
| OverflowError
| FileNotFoundError (path : string)
| IsADirectoryError (path : string)
| PermissionError (path : string).

Inductive result (A : Type) : Type :=
| Ok (a : A)
| Err (e : exn).
Arguments Ok {A} a.
Arguments Err {A} e.

Definition bind {A B} (r : result A) (k : A -> result B) : result B :=
  match r with
  | Ok a => k a
  | Err e => Err e
  end.

Notation "x <- r ;; k" := (bind r (fun x => k))
  (at level 100, r at next level, right associativity).

Definition is_ok {A} (r : result A) : bool :=
  match r with Ok _ => true | Err _ => false end.

(** The spec's typed errors ([BinFileMissingError], [TargetExistsError]) are the
    two uses of [ErrorException]; every other exception is untyped. *)
Definition typed_error (e : exn) : bool :=
  match e with ErrorException _ => true | _ => false end.

#[global] Instance error_message_eq_dec : EqDecision error_message.
Proof. solve_decision. Defined.
#[global] Instance exn_eq_dec : EqDecision exn.
Proof. solve_decision. Defined.

(** ** Python numbers *)

Module Py.

(** *** Floats *)

(** [float(z)]: the nearest binary64, ties to even. *)
Definition float_of_int (z : Z) : float :=
  SF2Prim (binary_normalize prec emax z 0 false).

(** The magnitude of a finite float as [mant * 2^k] with [mant < 2^53]. *)
Definition decomp (f : float) : Z * Z :=
  let (m, e) := frshiftexp (abs f) in
  (Uint63.to_Z (normfr_mantissa m), Uint63.to_Z e - FloatOps.shift - FloatOps.prec).

(** [int(f)], which the [%d] conversion applies to a float argument:
    truncation toward zero; [ValueError] on a NaN, [OverflowError] on an
    infinity. *)
Definition float_trunc (f : float) : result Z :=
  if PrimFloat.is_nan f then Err ValueError
  else if PrimFloat.is_infinity f then Err OverflowError
  else
    let (mant, k) := decomp f in
    let a := if 0 <=? k then mant * 2 ^ k else mant / 2 ^ (- k) in
    Ok (if PrimFloat.get_sign f then - a else a).

(** C's [fmod] on finite operands with [y] not zero: exact, with the sign of
    [x]. *)
Definition fmod_finite (x y : float) : float :=
  let (mx, kx) := decomp x in
  let (my, ky) := decomp y in
  let e := Z.min kx ky in
  let r := Z.rem (mx * 2 ^ (kx - e)) (my * 2 ^ (ky - e)) in
  let neg := PrimFloat.get_sign x in
  SF2Prim (binary_normalize prec emax (if neg then - r else r) e neg).

Definition fmod (x y : float) : float :=
  if PrimFloat.is_nan x || PrimFloat.is_nan y || PrimFloat.is_infinity x then PrimFloat.nan
  else if PrimFloat.is_infinity y then x
  else fmod_finite x y.

(** [float.__mod__] (CPython's [float_rem]): [fmod], then moved to the sign
    of the divisor. *)
Definition float_mod (x y : float) : result float :=
  if PrimFloat.is_zero y then Err ZeroDivisionError
  else
    let m := fmod x y in
    if PrimFloat.is_zero m then Ok (if PrimFloat.get_sign y then PrimFloat.neg_zero else PrimFloat.zero)
    else if negb (PrimFloat.is_nan m) && negb (Bool.eqb (PrimFloat.ltb y PrimFloat.zero) (PrimFloat.ltb m PrimFloat.zero))
         then Ok (PrimFloat.add m y) else Ok m.

Definition float_truediv (x y : float) : result float :=
  if PrimFloat.is_zero y then Err ZeroDivisionError else Ok (PrimFloat.div x y).

(** *** [int / int] (CPython's [long_true_divide]) *)

Definition small (z : Z) : bool := Z.abs z <? 2 ^ 53.

Definition int_to_SF (z : Z) : spec_float :=
  match z with
  | Z0 => S754_zero false
  | Zpos p => S754_finite false p 0
  | Zneg p => S754_finite true p 0
  end.

(** Both operands below [2^53]: the quotient of the two converted floats.
    Otherwise the correctly rounded quotient of the integers, or
    [OverflowError]. *)
Definition int_truediv (a b : Z) : result float :=
  if b =? 0 then Err ZeroDivisionError
  else if small a && small b then Ok (PrimFloat.div (float_of_int a) (float_of_int b))
  else
    match SFdiv prec emax (int_to_SF a) (int_to_SF b) with
    | S754_infinity _ | S754_nan => Err OverflowError
    | q => Ok (SF2Prim q)
    end.

(** [float(z)] as the binary operators apply it to an [int] operand. *)
Definition coerce (z : Z) : result float :=
  let f := float_of_int z in
  if PrimFloat.is_infinity f then Err OverflowError else Ok f.

(** *** The numeric tower *)

Inductive num : Type :=
| PyInt (z : Z)
| PyFloat (f : float).

Definition to_float (n : num) : result float :=
  match n with
  | PyInt z => coerce z
  | PyFloat f => Ok f
  end.

(** [a + b] *)
Definition add (a b : num) : result num :=
  match a, b with
  | PyInt x, PyInt y => Ok (PyInt (x + y))
  | _, _ => x <- to_float a ;; y <- to_float b ;; Ok (PyFloat (PrimFloat.add x y))
  end.

(** [a - b] *)
Definition sub (a b : num) : result num :=
  match a, b with
  | PyInt x, PyInt y => Ok (PyInt (x - y))
  | _, _ => x <- to_float a ;; y <- to_float b ;; Ok (PyFloat (PrimFloat.sub x y))
  end.

(** [a / b] *)
Definition truediv (a b : num) : result num :=
  match a, b with
  | PyInt x, PyInt y => f <- int_truediv x y ;; Ok (PyFloat f)
  | _, _ => x <- to_float a ;; y <- to_float b ;;
            f <- float_truediv x y ;; Ok (PyFloat f)
  end.

(** [a % b] *)
Definition modulo (a b : num) : result num :=
  match a, b with
  | PyInt x, PyInt y =>
      if y =? 0 then Err ZeroDivisionError else Ok (PyInt (x mod y))
  | _, _ => x <- to_float a ;; y <- to_float b ;;
            f <- float_mod x y ;; Ok (PyFloat f)
  end.

(** The integer the [%d] conversion prints. *)
Definition to_int (n : num) : result Z :=
  match n with
  | PyInt z => Ok z
  | PyFloat f => float_trunc f
  end.

End Py.

(** ** Strings: [%d], [%02d] and [int()] *)

Definition digit_value (c : ascii) : Z := Z.of_N (N_of_ascii c) - 48.

Definition is_digit (c : ascii) : bool :=
  (48 <=? Z.of_N (N_of_ascii c)) && (Z.of_N (N_of_ascii c) <=? 57).

(** [int(s)] for a run of decimal digits [s], the only strings the program
    converts (they are groups matched by [\d+]). *)
Fixpoint int_acc (s : string) (acc : Z) : Z :=
  match s with
  | EmptyString => acc
  | String c s' => int_acc s' (10 * acc + digit_value c)
  end.

Definition py_int (s : string) : Z := int_acc s 0.

(** [str(n)] for a natural number. *)
Definition decimal (n : N) : string :=
  DecimalString.NilZero.string_of_uint (N.to_uint n).

Fixpoint zeros (n : nat) : string :=
  match n with
  | O => EmptyString
  | S n' => String "0" (zeros n')
  end.

(** ['%0<w>d' % z]: the sign, then zeros up to width [w], then the digits. *)
Definition fmt_0d (w : nat) (z : Z) : string :=
  let sign := if z <? 0 then "-" else "" in
  let ds := decimal (Z.abs_N z) in
  sign +:+ zeros (w - String.length sign - String.length ds) +:+ ds.

(** ['%d' % z] *)
Definition fmt_d (z : Z) : string := fmt_0d 0 z.

(** ** Regular expressions (the fragment of [re] the program uses) *)

Module Re.

Inductive cclass : Type :=
| Dot        (* [.]     any character but a newline *)
| Digit      (* [\d] *)
| NotSpace.  (* [[^\s]] *)

Definition is_space (c : ascii) : bool :=
  let n := Z.of_N (N_of_ascii c) in
  ((9 <=? n) && (n <=? 13)) || ((28 <=? n) && (n <=? 32))
  || (n =? 133) || (n =? 160).

Definition cmatch (k : cclass) (c : ascii) : bool :=
  match k with
  | Dot => negb (Ascii.eqb c "010")
  | Digit => is_digit c
  | NotSpace => negb (is_space c)
  end.

Inductive regex : Type :=
| Lit (s : string)            (* literal text *)
| Opt (r : regex)             (* [r?], greedy *)
| Star (k : cclass)           (* [k*], greedy *)
| StarLazy (k : cclass)       (* [k*?] *)
| Plus (k : cclass)           (* [k+], greedy *)
| Grp (r : regex)             (* [(r)], a capturing group *)
| Cat (r1 r2 : regex).        (* [r1 r2] *)

(** [strip p s]: [s] without its prefix [p], when it has it. *)
Fixpoint strip (p s : string) : option string :=
  match p, s with
  | EmptyString, _ => Some s
  | String a p', String b s' => if Ascii.eqb a b then strip p' s' else None
  | String _ _, EmptyString => None
  end.

(** The first [length s - length s'] characters of [s]: what a group
    consumed when it was entered at [s] and left at [s']. *)
Fixpoint take (n : nat) (s : string) : string :=
  match n, s with
  | S n', String c s' => String c (take n' s')
  | _, _ => EmptyString
  end.

Definition consumed (s s' : string) : string :=
  take (String.length s - String.length s') s.

Section Matcher.
Context {A : Type}.

(** Backtracking: the longest run first, then shorter ones. *)
Fixpoint star_greedy (k : cclass) (s : string) (cont : string -> option A)
  : option A :=
  match s with
  | String c s' =>
      if cmatch k c then
        match star_greedy k s' cont with
        | Some a => Some a
        | None => cont s
        end
      else cont s
  | EmptyString => cont s
  end.

(** Backtracking: the empty run first, then longer ones. *)
Fixpoint star_lazy (k : cclass) (s : string) (cont : string -> option A)
  : option A :=
  match cont s with
  | Some a => Some a
  | None =>
      match s with
      | String c s' => if cmatch k c then star_lazy k s' cont else None
      | EmptyString => None
      end
  end.

(** [exec r s g cont]: match [r] at the start of [s], the groups closed so
    far being [g], and hand the rest of the text and the groups to [cont];
    [cont] answering [None] makes the matcher try its next alternative. *)
Fixpoint exec (r : regex) (s : string) (g : list string)
    (cont : string -> list string -> option A) : option A :=
  match r with
  | Lit p =>
      match strip p s with
      | Some s' => cont s' g
      | None => None
      end
  | Opt r' =>
      match exec r' s g cont with
      | Some a => Some a
      | None => cont s g
      end
  | Star k => star_greedy k s (fun s' => cont s' g)
  | StarLazy k => star_lazy k s (fun s' => cont s' g)
  | Plus k =>
      match s with
      | String c s' =>
          if cmatch k c then star_greedy k s' (fun s'' => cont s'' g)
          else None
      | EmptyString => None
      end
  | Grp r' => exec r' s g (fun s' g' => cont s' (g' ++ [consumed s s'])%list)
  | Cat r1 r2 => exec r1 s g (fun s' g' => exec r2 s' g' cont)
  end.
End Matcher.

(** [re.match(r, s)]: a match at the start of [s]; the value is the list of
    the groups' texts, group 1 first. *)
Definition rmatch (r : regex) (s : string) : option (list string) :=
  exec r s [] (fun _ g => Some g).

(** [re.search(r, s)]: the leftmost position with a match. *)
Fixpoint search (r : regex) (s : string) : option (list string) :=
  match rmatch r s with
  | Some g => Some g
  | None =>
      match s with
      | String _ s' => search r s'
      | EmptyString => None
      end
  end.

(** [m.group(i)], [i >= 1] *)
Definition group (m : list string) (i : nat) : string :=
  nth (i - 1) m EmptyString.

Fixpoint cat (rs : list regex) : regex :=
  match rs with
  | [] => Lit EmptyString
  | [r] => r
  | r :: rs' => Cat r (cat rs')
  end.

End Re.

(** ** Sector arithmetic *)

Import Py.

(** [def sectors_to_cuestamp(sectors)]: [/] is true division, so [minutes]
    and [seconds] are floats that [%02d] truncates. *)
Definition sectors_to_cuestamp (sectors : num) : result string :=
  minutes <- truediv sectors (PyInt 4500) ;;
  fields <- modulo sectors (PyInt 4500) ;;
  seconds <- truediv fields (PyInt 75) ;;
  fields <- modulo sectors (PyInt 75) ;;
  m <- to_int minutes ;;
  s <- to_int seconds ;;
  f <- to_int fields ;;
  Ok (fmt_0d 2 m +:+ ":" +:+ fmt_0d 2 s +:+ ":" +:+ fmt_0d 2 f).

(** The pattern [(\d+):(\d+):(\d+)]. *)
Definition stamp_re : Re.regex :=
  Re.cat [Re.Grp (Re.Plus Re.Digit); Re.Lit ":"; Re.Grp (Re.Plus Re.Digit);
          Re.Lit ":"; Re.Grp (Re.Plus Re.Digit)].

(** [def cuestamp_to_sectors(stamp)]: [re.match] anchors at the start only;
    without a match [m] is [None] and [m.group] raises [AttributeError]. *)
Definition cuestamp_to_sectors (stamp : string) : result Z :=
  match Re.rmatch stamp_re stamp with
  | None => Err AttributeError
  | Some m =>
      let minutes := py_int (Re.group m 1) in
      let seconds := py_int (Re.group m 2) in
      let fields := py_int (Re.group m 3) in
      Ok (fields + (seconds * 75) + (minutes * 60 * 75))
  end.

(** [def track_filename(prefix, track_num, track_count)] *)
Definition track_filename (prefix : string) (track_num track_count : Z) : string :=
  if 9 <? track_count
  then prefix +:+ " (Track " +:+ fmt_0d 2 track_num +:+ ").bin"
  else prefix +:+ " (Track " +:+ fmt_d track_num +:+ ").bin".


(** ** The file system *)

(** What a path names.  A regular file has its bytes; of a directory only
    the answers of [os.access] and [os.path.getsize] matter. *)
Inductive node : Type :=
| RegularFile (readable : bool) (data : list byte)
| Directory (readable : bool) (st_size : Z).

Abbreviation filesystem := (gmap string node).

Module Os.

(** [os.path.exists(p)] *)
Definition exists_ (fs : filesystem) (p : string) : bool :=
  match fs !! p with Some _ => true | None => false end.

(** [os.path.isfile(p)] *)
Definition isfile (fs : filesystem) (p : string) : bool :=
  match fs !! p with Some (RegularFile _ _) => true | _ => false end.

(** [os.access(p, os.R_OK)] *)
Definition access_R_OK (fs : filesystem) (p : string) : bool :=
  match fs !! p with
  | Some (RegularFile r _) | Some (Directory r _) => r
  | None => false
  end.

(** [os.path.getsize(p)]: [stat] needs no read permission on [p]. *)
Definition getsize (fs : filesystem) (p : string) : result Z :=
  match fs !! p with
  | Some (RegularFile _ d) => Ok (Z.of_nat (length d))
  | Some (Directory _ n) => Ok n
  | None => Err (FileNotFoundError p)
  end.

(** [open(p, 'rb')]: the bytes the reads will deliver. *)
Definition open_rb (fs : filesystem) (p : string) : result (list byte) :=
  match fs !! p with
  | Some (RegularFile true d) => Ok d
  | Some (RegularFile false _) => Err (PermissionError p)
  | Some (Directory _ _) => Err (IsADirectoryError p)
  | None => Err (FileNotFoundError p)
  end.

(** [open(p, 'wb')]: creates the file, or empties it.  The directory of a new
    file is taken to exist and to be writable, and so is an existing file. *)
Definition open_wb (fs : filesystem) (p : string) : result filesystem :=
  match fs !! p with
  | Some (Directory _ _) => Err (IsADirectoryError p)
  | Some (RegularFile r _) => Ok (<[p := RegularFile r []]> fs)
  | None => Ok (<[p := RegularFile true []]> fs)
  end.

(** [outfile.write(chunk)] on the file opened at [p] *)
Definition write (p : string) (chunk : list byte) (fs : filesystem)
  : filesystem :=
  alter (fun n => match n with
                  | RegularFile r d => RegularFile r (d ++ chunk)
                  | Directory r s => Directory r s
                  end) p fs.

(** [infile.read(n)] on the bytes not yet read, for a length the reader
    takes ([n >= -1]): the chunk and what is left; [-1] reads to the end of
    the file. *)
Definition read (n : Z) (rest : list byte) : list byte * list byte :=
  if n <? 0 then (rest, [])
  else (take (Z.to_nat n) rest, drop (Z.to_nat n) rest).

(** [infile.read(n)] for a computed length: a [BufferedReader] refuses a
    length below [-1] with [ValueError] (read length must be non-negative
    or -1). *)
Definition read_checked (n : Z) (rest : list byte)
  : result (list byte * list byte) :=
  if n <? -1 then Err ValueError else Ok (read n rest).

(** [posixpath.dirname] and [posixpath.join] *)
Fixpoint has_slash (s : string) : bool :=
  match s with
  | EmptyString => false
  | String c s' => Ascii.eqb c "/" || has_slash s'
  end.

(** [p[:p.rfind('/') + 1]] *)
Fixpoint head (p : string) : string :=
  match p with
  | EmptyString => EmptyString
  | String c p' => if has_slash p then String c (head p') else EmptyString
  end.

Fixpoint all_slashes (s : string) : bool :=
  match s with
  | EmptyString => true
  | String c s' => Ascii.eqb c "/" && all_slashes s'
  end.

(** [s.rstrip('/')] *)
Fixpoint rstrip_slash (s : string) : string :=
  match s with
  | EmptyString => EmptyString
  | String c s' => if all_slashes s then EmptyString else String c (rstrip_slash s')
  end.

Definition dirname (p : string) : string :=
  let h := head p in
  if all_slashes h then h else rstrip_slash h.

Fixpoint ends_with_slash (s : string) : bool :=
  match s with
  | EmptyString => false
  | String c EmptyString => Ascii.eqb c "/"
  | String _ s' => ends_with_slash s'
  end.

Definition join (a b : string) : string :=
  match b with
  | String "/" _ => b
  | _ =>
      match a with
      | EmptyString => b
      | _ => if ends_with_slash a then a +:+ b else a +:+ "/" +:+ b
      end
  end.

End Os.

(** Text mode: the bytes as characters, every line ending as a newline. *)
Fixpoint universal_newlines (s : string) : string :=
  match s with
  | EmptyString => EmptyString
  | String "013" (String "010" s') => String "010" (universal_newlines s')
  | String "013" s' => String "010" (universal_newlines s')
  | String c s' => String c (universal_newlines s')
  end.

(** [for line in f]: the lines, each with its newline (the last may lack it). *)
Fixpoint lines_acc (s : string) (cur : string) : list string :=
  match s with
  | EmptyString =>
      match cur with EmptyString => [] | _ => [cur] end
  | String c s' =>
      if Ascii.eqb c "010" then (cur +:+ String c EmptyString) :: lines_acc s' EmptyString
      else lines_acc s' (cur +:+ String c EmptyString)
  end.

Definition readlines (data : list byte) : list string :=
  lines_acc (universal_newlines (string_of_list_byte data)) EmptyString.

(** ** The disc image model *)

(** An entry of [Track.indexes]: the dict with keys ['id'], ['stamp'] and
    ['file_offset']. *)
Module Index.
Record t : Type := mk { id : Z; stamp : string; file_offset : Z }.
End Index.

(** The truth value of [Track.globalBlocksize]: [None] and [0] are false. *)
Definition truthy (gb : option Z) : bool :=
  match gb with
  | Some b => negb (b =? 0)
  | None => false
  end.

Definition string_in (s : string) (l : list string) : bool :=
  existsb (String.eqb s) l.

(** [class Track].  The class attribute [globalBlocksize] is threaded through
    the constructor. *)
Module Track.
Record t : Type := mk {
  num : Z;
  indexes : list Index.t;
  track_type : string;
  sectors : option Z
}.

(** The [if]/[elif] chain of [__init__]: no branch for an unlisted type. *)
Definition lock (track_type : string) (gb : option Z) : option Z :=
  if string_in track_type ["AUDIO"; "MODE1/2352"; "MODE2/2352"; "CDI/2352"]
  then Some 2352
  else if String.eqb track_type "CDG" then Some 2448
  else if String.eqb track_type "MODE1/2048" then Some 2048
  else if string_in track_type ["MODE2/2336"; "CDI/2336"] then Some 2336
  else gb.

(** [def __init__(self, num, track_type)]: the new track, and the class
    attribute afterwards.  The argument of [log_debug] is formatted with
    [%d] whatever [VERBOSE] is, and [%d] of [None] is a [TypeError]. *)
Definition __init__ (num : Z) (track_type : string) (globalBlocksize : option Z)
  : result t * option Z :=
  let self := mk num [] track_type None in
  if negb (truthy globalBlocksize) then
    let globalBlocksize := lock track_type globalBlocksize in
    match globalBlocksize with
    | Some _ => (Ok self, globalBlocksize)
    | None => (Err TypeError, globalBlocksize)
    end
  else (Ok self, globalBlocksize).

Definition set_sectors (s : Z) (x : t) : t :=
  mk (num x) (indexes x) (track_type x) (Some s).

Definition add_index (i : Index.t) (x : t) : t :=
  mk (num x) (indexes x ++ [i]) (track_type x) (sectors x).
End Track.

(** [class File] *)
Module File.
Record t : Type := mk { filename : string; tracks : list Track.t; size : Z }.

(** [def __init__(self, filename)] *)
Definition __init__ (fs : filesystem) (filename : string) : result t :=
  size <- Os.getsize fs filename ;; Ok (mk filename [] size).

Definition set_tracks (ts : list Track.t) (f : t) : t :=
  mk (filename f) ts (size f).

Definition add_track (x : Track.t) (f : t) : t :=
  mk (filename f) (tracks f ++ [x]) (size f).
End File.

(** ** The cuesheet parser *)

Definition dquote : string := String "034" EmptyString.

(** The pattern [FILE Q?(.*?)Q? BINARY] with [Q] the double quote. *)
Definition file_re : Re.regex :=
  Re.cat [Re.Lit "FILE "; Re.Opt (Re.Lit dquote); Re.Grp (Re.StarLazy Re.Dot);
          Re.Opt (Re.Lit dquote); Re.Lit " BINARY"].

(** The pattern [TRACK (\d+) (S)] with [S] any run, also empty, of
    characters that are not blanks. *)
Definition track_re : Re.regex :=
  Re.cat [Re.Lit "TRACK "; Re.Grp (Re.Plus Re.Digit); Re.Lit " ";
          Re.Grp (Re.Star Re.NotSpace)].

(** The pattern [INDEX (\d+) (\d+:\d+:\d+)]. *)
Definition index_re : Re.regex :=
  Re.cat [Re.Lit "INDEX "; Re.Grp (Re.Plus Re.Digit); Re.Lit " ";
          Re.Grp (Re.cat [Re.Plus Re.Digit; Re.Lit ":"; Re.Plus Re.Digit;
                          Re.Lit ":"; Re.Plus Re.Digit])].

(** The local variables of [read_cue_file].  [this_file] and [this_track]
    alias objects that sit in [files]: they are kept as positions, the file's
    in [files] and the track's in that file's [tracks]. *)
Record locals : Type := mkLocals {
  files : list File.t;
  this_track : option (nat * nat);
  this_file : option nat
}.

(** One turn of [for line in f]. *)
Definition read_cue_line (fs : filesystem) (cue_path line : string)
    (st : locals) (gb : option Z) : result locals * option Z :=
  match Re.search file_re line with
  | Some m =>
      let this_path := Os.join (Os.dirname cue_path) (Re.group m 1) in
      if negb (Os.isfile fs this_path || Os.access_R_OK fs this_path)
      then (Err (ErrorException (BinFileNotFoundOrNotReadable this_path)), gb)
      else
        (f <- File.__init__ fs this_path ;;
         Ok (mkLocals (files st ++ [f]) (this_track st)
               (Some (length (files st)))), gb)
  | None =>
      match Re.search track_re line, this_file st with
      | Some m, Some fi =>
          let (r, gb') :=
            Track.__init__ (py_int (Re.group m 1)) (Re.group m 2) gb in
          (x <- r ;;
           let ti := from_option (fun f => length (File.tracks f)) O
                       (files st !! fi) in
           Ok (mkLocals (alter (File.add_track x) fi (files st))
                 (Some (fi, ti)) (this_file st)), gb')
      | _, _ =>
          match Re.search index_re line, this_track st with
          | Some m, Some (fi, ti) =>
              (off <- cuestamp_to_sectors (Re.group m 2) ;;
               let i := Index.mk (py_int (Re.group m 1)) (Re.group m 2) off in
               Ok (mkLocals
                     (alter (fun f => File.set_tracks
                               (alter (Track.add_index i) ti (File.tracks f)) f)
                        fi (files st))
                     (this_track st) (this_file st)), gb)
          | _, _ => (Ok st, gb)
          end
      end
  end.

Fixpoint read_cue_lines (fs : filesystem) (cue_path : string)
    (lines : list string) (st : locals) (gb : option Z)
  : result locals * option Z :=
  match lines with
  | [] => (Ok st, gb)
  | line :: lines' =>
      match read_cue_line fs cue_path line st gb with
      | (Ok st', gb') => read_cue_lines fs cue_path lines' st' gb'
      | (Err e, gb') => (Err e, gb')
      end
  end.

(** [a // b] with [b] the class attribute: [None] is a [TypeError]. *)
Definition floordiv (a : Z) (b : option Z) : result Z :=
  match b with
  | None => Err TypeError
  | Some b => if b =? 0 then Err ZeroDivisionError else Ok (a / b)
  end.

(** [for t in reversed(files[0].tracks)]: [rts] are the tracks still to
    visit, last first; [done] the visited ones, in cuesheet order. *)
Fixpoint backfill (rts : list Track.t) (next_item_offset : Z)
    (done : list Track.t) : result (list Track.t) :=
  match rts with
  | [] => Ok done
  | x :: rts' =>
      match Track.indexes x with
      | [] => Err IndexError
      | i :: _ =>
          backfill rts' (Index.file_offset i)
            (Track.set_sectors (next_item_offset - Index.file_offset i) x
             :: done)
      end
  end.

(** The block under [if len(files) == 1]. *)
Definition calc_sectors (fls : list File.t) (gb : option Z)
  : result (list File.t) :=
  match fls with
  | [f] =>
      next_item_offset <- floordiv (File.size f) gb ;;
      ts <- backfill (rev (File.tracks f)) next_item_offset [] ;;
      Ok [File.set_tracks ts f]
  | _ => Ok fls
  end.

(** [def read_cue_file(cue_path)], from the class attribute [gb]: the files,
    or the exception, and the class attribute afterwards. *)
Definition read_cue_file (fs : filesystem) (cue_path : string)
    (gb : option Z) : result (list File.t) * option Z :=
  match Os.open_rb fs cue_path with
  | Err e => (Err e, gb)
  | Ok data =>
      match read_cue_lines fs cue_path (readlines data)
              (mkLocals [] None None) gb with
      | (Err e, gb') => (Err e, gb')
      | (Ok st, gb') => (calc_sectors (files st) gb', gb')
      end
  end.


(** ** The cuesheet generators *)

Definition nl : string := String "010" EmptyString.

(** [a / Track.globalBlocksize] and [a * Track.globalBlocksize]: an operand
    [None] is a [TypeError]. *)
Definition truediv_attr (a : num) (gb : option Z) : result num :=
  match gb with
  | None => Err TypeError
  | Some b => truediv a (PyInt b)
  end.

Definition mul_attr (a b : option Z) : result Z :=
  match a, b with
  | Some x, Some y => Ok (x * y)
  | _, _ => Err TypeError
  end.

(** The body of [for i in t.indexes] in [gen_merged_cuesheet] *)
Definition merged_index_line (sector_pos : num) (i : Index.t) : result string :=
  pos <- Py.add sector_pos (PyInt (Index.file_offset i)) ;;
  stamp <- sectors_to_cuestamp pos ;;
  Ok ("    INDEX " +:+ fmt_0d 2 (Index.id i) +:+ " " +:+ stamp +:+ nl).

Fixpoint merged_indexes (sector_pos : num) (l : list Index.t)
    (cuesheet : string) : result string :=
  match l with
  | [] => Ok cuesheet
  | i :: l' =>
      line <- merged_index_line sector_pos i ;;
      merged_indexes sector_pos l' (cuesheet +:+ line)
  end.

Definition track_line (x : Track.t) : string :=
  "  TRACK " +:+ fmt_0d 2 (Track.num x) +:+ " " +:+ Track.track_type x +:+ nl.

Fixpoint merged_tracks (sector_pos : num) (l : list Track.t)
    (cuesheet : string) : result string :=
  match l with
  | [] => Ok cuesheet
  | x :: l' =>
      cuesheet <- merged_indexes sector_pos (Track.indexes x)
                    (cuesheet +:+ track_line x) ;;
      merged_tracks sector_pos l' cuesheet
  end.

(** The loop [for f in files] of [gen_merged_cuesheet] *)
Fixpoint merged_files (gb : option Z) (l : list File.t) (sector_pos : num)
    (cuesheet : string) : result string :=
  match l with
  | [] => Ok cuesheet
  | f :: l' =>
      cuesheet <- merged_tracks sector_pos (File.tracks f) cuesheet ;;
      d <- truediv_attr (PyInt (File.size f)) gb ;;
      sector_pos <- Py.add sector_pos d ;;
      merged_files gb l' sector_pos cuesheet
  end.

(** [def gen_merged_cuesheet(basename, files)] *)
Definition gen_merged_cuesheet (gb : option Z) (basename : string)
    (fls : list File.t) : result string :=
  merged_files gb fls (PyInt 0)
    ("FILE " +:+ dquote +:+ basename +:+ ".bin" +:+ dquote +:+ " BINARY" +:+ nl).

Fixpoint split_indexes (first : Z) (l : list Index.t) (cuesheet : string)
  : result string :=
  match l with
  | [] => Ok cuesheet
  | i :: l' =>
      stamp <- sectors_to_cuestamp (PyInt (Index.file_offset i - first)) ;;
      split_indexes first l'
        (cuesheet +:+ "    INDEX " +:+ fmt_0d 2 (Index.id i) +:+ " " +:+ stamp
         +:+ nl)
  end.

Fixpoint split_tracks_cue (basename : string) (count : Z) (l : list Track.t)
    (cuesheet : string) : result string :=
  match l with
  | [] => Ok cuesheet
  | x :: l' =>
      let track_fn := track_filename basename (Track.num x) count in
      let cuesheet :=
        cuesheet +:+ "FILE " +:+ dquote +:+ track_fn +:+ dquote +:+ " BINARY"
        +:+ nl +:+ track_line x in
      cuesheet <- split_indexes
                    (from_option Index.file_offset 0 (head (Track.indexes x)))
                    (Track.indexes x) cuesheet ;;
      split_tracks_cue basename count l' cuesheet
  end.

(** [def gen_split_cuesheet(basename, merged_file)] *)
Definition gen_split_cuesheet (basename : string) (merged_file : File.t)
  : result string :=
  split_tracks_cue basename (Z.of_nat (length (File.tracks merged_file)))
    (File.tracks merged_file) EmptyString.

(** ** The merge engine *)

(** [chunksize = 1024 * 1024] *)
Definition chunksize : positive := 1048576.

(** The loop [while True] of [merge_files]: [rest] is what [infile] has
    still to deliver; an empty chunk ends the loop. *)
Equations? copy_loop (csize : positive) (out : string) (rest : list byte)
    (fs : filesystem) : filesystem by wf (length rest) lt :=
copy_loop csize out [] fs := fs;
copy_loop csize out rest fs :=
  copy_loop csize out (Os.read (Zpos csize) rest).2
    (Os.write out (Os.read (Zpos csize) rest).1 fs).
Proof.
  unfold Os.read. cbn [Z.ltb Z.compare snd Z.to_nat].
  pose proof (Pos2Nat.is_pos csize).
  rewrite length_drop. subst rest. cbn [length].
  change (Z.to_nat (Z.pos csize)) with (Pos.to_nat csize). lia.
Qed.

(** The loop [for f in files] of [merge_files] *)
Fixpoint merge_loop (out : string) (l : list File.t) (fs : filesystem)
  : result unit * filesystem :=
  match l with
  | [] => (Ok tt, fs)
  | f :: l' =>
      match Os.open_rb fs (File.filename f) with
      | Err e => (Err e, fs)
      | Ok infile => merge_loop out l' (copy_loop chunksize out infile fs)
      end
  end.

(** [def merge_files(merged_filename, files)]: what it returns or raises, and
    the file system it leaves. *)
Definition merge_files (merged_filename : string) (fls : list File.t)
    (fs : filesystem) : result bool * filesystem :=
  if Os.exists_ fs merged_filename
  then (Err (ErrorException (TargetBinPathExists merged_filename)), fs)
  else
    match Os.open_wb fs merged_filename with
    | Err e => (Err e, fs)
    | Ok fs' =>
        match merge_loop merged_filename fls fs' with
        | (Ok _, fs'') => (Ok true, fs'')
        | (Err e, fs'') => (Err e, fs'')
        end
    end.

(** ** The split engine *)

(** The first loop of [split_files]: no target may exist. *)
Fixpoint check_targets (fs : filesystem) (new_basename : string) (count : Z)
    (l : list Track.t) : result unit :=
  match l with
  | [] => Ok tt
  | x :: l' =>
      let out_name := track_filename new_basename (Track.num x) count in
      if Os.exists_ fs out_name
      then Err (ErrorException (TargetBinPathExists out_name))
      else check_targets fs new_basename count l'
  end.

(** The loop [while True] of [split_files].  The local [chunksize] is
    reassigned only when [chunksize + written > tracksize], and then
    [written] reaches [tracksize] and the loop is left; in every other turn
    it is the initial, positive, value.  The reassigned length
    [tracksize - written] is negative when the track size is: the read then
    raises, after the output file was opened. *)
Equations? split_loop (csize : positive) (tracksize written : Z)
    (out : string) (rest : list byte) (fs : filesystem)
  : result (list byte) * filesystem
  by wf (Z.to_nat (tracksize - written)) lt :=
split_loop csize tracksize written out rest fs
  with Z_lt_dec tracksize (Zpos csize + written) := {
  | left _ :=
      match Os.read_checked (tracksize - written) rest with
      | Err e => (Err e, fs)
      | Ok (chunk, rest') => (Ok rest', Os.write out chunk fs)
      end
  | right _ with Z.eq_dec (written + Zpos csize) tracksize := {
    | left _ :=
        let (chunk, rest') := Os.read (Zpos csize) rest in
        (Ok rest', Os.write out chunk fs)
    | right _ :=
        split_loop csize tracksize (written + Zpos csize) out
          (Os.read (Zpos csize) rest).2
          (Os.write out (Os.read (Zpos csize) rest).1 fs) } }.
Proof. lia. Qed.

(** The second loop of [split_files]: [infile] is what the source has still
    to deliver. *)
Fixpoint split_tracks (gb : option Z) (new_basename : string) (count : Z)
    (l : list Track.t) (infile : list byte) (fs : filesystem)
  : result unit * filesystem :=
  match l with
  | [] => (Ok tt, fs)
  | x :: l' =>
      let out_name := track_filename new_basename (Track.num x) count in
      match mul_attr (Track.sectors x) gb with
      | Err e => (Err e, fs)
      | Ok tracksize =>
          match Os.open_wb fs out_name with
          | Err e => (Err e, fs)
          | Ok fs' =>
              match split_loop chunksize tracksize 0 out_name infile fs' with
              | (Ok infile', fs'') =>
                  split_tracks gb new_basename count l' infile' fs''
              | (Err e, fs'') => (Err e, fs'')
              end
          end
      end
  end.

(** [def split_files(new_basename, merged_file)]: what it returns or raises,
    and the file system it leaves. *)
Definition split_files (gb : option Z) (new_basename : string)
    (merged_file : File.t) (fs : filesystem) : result bool * filesystem :=
  match Os.open_rb fs (File.filename merged_file) with
  | Err e => (Err e, fs)
  | Ok infile =>
      let count := Z.of_nat (length (File.tracks merged_file)) in
      match check_targets fs new_basename count (File.tracks merged_file) with
      | Err e => (Err e, fs)
      | Ok _ =>
          match split_tracks gb new_basename count (File.tracks merged_file)
                  infile fs with
          | (Ok _, fs') => (Ok true, fs')
          | (Err e, fs') => (Err e, fs')
          end
      end
  end.

(** ** Decidable checks used by the proofs *)

(** [trunc_chk f q]: [f] is finite, not negative, and [q] is its integer
    part, computed on the primitive mantissa and exponent. *)
Definition trunc_chk (f : float) (q : int) : bool :=
  negb (PrimFloat.is_nan f) && negb (PrimFloat.is_infinity f)
  && negb (PrimFloat.get_sign f) &&
  (let (m, e) := frshiftexp (abs f) in
   (e <=? 2154)%uint63 && (normfr_mantissa m >> (2154 - e) =? q)%uint63).

(** The float quotient of [i] by [d] truncates to the integer quotient. *)
Definition div_chk (d i : int) : bool :=
  trunc_chk (PrimFloat.div (of_uint63 i) (of_uint63 d)) (i / d)%uint63.

(** [p] holds of [i], [i+1], ..., [i+n-1]. *)
Fixpoint all_from (n : nat) (i : int) (p : int -> bool) : bool :=
  match n with
  | O => true
  | S n' => p i && all_from n' (i + 1)%uint63 p
  end.

Fixpoint all_digits (s : string) : bool :=
  match s with
  | EmptyString => true
  | String c s' => is_digit c && all_digits s'
  end.

(** A run of decimal digits: what [\d+] matches. *)
Definition digit_run (s : string) : Prop :=
  s <> EmptyString /\ all_digits s = true.

Definition starts_with_digit (s : string) : bool :=
  match s with
  | EmptyString => false
  | String c _ => is_digit c
  end.

(** [p in s]: the text [p] occurs somewhere in [s]. *)
Fixpoint occurs (p s : string) : bool :=
  match Re.strip p s with
  | Some _ => true
  | None =>
      match s with
      | String _ s' => occurs p s'
      | EmptyString => false
      end
  end.

(** A line that holds none of the three keywords the parser looks for. *)
Definition no_keyword (line : string) : bool :=
  negb (occurs "FILE " line) && negb (occurs "TRACK " line)
  && negb (occurs "INDEX " line).

(** The character [c] occurs in [s]. *)
Fixpoint has_char (c : ascii) (s : string) : bool :=
  match s with
  | EmptyString => false
  | String x s' => Ascii.eqb x c || has_char c s'
  end.

(** Somewhere in [s] the character [a] is followed by [b]. *)
Fixpoint has_pair (a b : ascii) (s : string) : bool :=
  match s with
  | EmptyString => false
  | String x s' =>
      (Ascii.eqb x a
       && match s' with String y _ => Ascii.eqb y b | EmptyString => false end)
      || has_pair a b s'
  end.

(** Every character of [s] is of the class [k]. *)
Fixpoint all_match (k : Re.cclass) (s : string) : bool :=
  match s with
  | EmptyString => true
  | String x s' => Re.cmatch k x && all_match k s'
  end.

(** [s] starts with a character of the class [k]. *)
Definition starts_with_class (k : Re.cclass) (s : string) : bool :=
  match s with
  | EmptyString => false
  | String c _ => Re.cmatch k c
  end.

(** What [open(path, 'w', newline='\r\n')] writes for [s]: every newline
    as a carriage return and a newline. *)
Fixpoint crlf (s : string) : string :=
  match s with
  | EmptyString => EmptyString
  | String c s' =>
      if Ascii.eqb c "010" then String "013" (String "010" (crlf s'))
      else String c (crlf s')
  end.

(** A line: text without a newline, then the newline. *)
Definition is_line (l : string) : Prop :=
  exists body, l = body +:+ nl /\ has_char "010" body = false.

(** A file name that a FILE line gives back: no line break in it, and the
    text [ BINARY] does not occur in it. *)
Definition clean_name (name : string) : bool :=
  all_match Re.Dot name && negb (has_char "013" name)
  && negb (occurs " BINARY" name).

(** ** What the split engine is expected to leave *)

(** The byte count of a track: [sectors * Blocksize]. *)
Definition track_bytes (b : Z) (x : Track.t) : nat :=
  Z.to_nat (from_option id 0 (Track.sectors x) * b).

(** One output file per track, in track order: the [track_bytes] bytes of
    [data] from position [start] on, the following track going on where this
    one ended. *)
Fixpoint expected_outputs (b : Z) (base : string) (count : Z)
    (l : list Track.t) (start : nat) (data : list byte) (fs : filesystem)
  : filesystem :=
  match l with
  | [] => fs
  | x :: l' =>
      expected_outputs b base count l' (start + track_bytes b x) data
        (<[track_filename base (Track.num x) count :=
             RegularFile true (take (track_bytes b x) (drop start data))]> fs)
  end.

(** Where in the source the [k]-th track starts. *)
Definition track_start (b : Z) (l : list Track.t) (k : nat) : nat :=
  sum_list_with (track_bytes b) (take k l).

(** The slices of [data] the tracks [l] take, the first from [start]. *)
Fixpoint slices (b : Z) (l : list Track.t) (start : nat) (data : list byte)
  : list (list byte) :=
  match l with
  | [] => []
  | x :: l' =>
      take (track_bytes b x) (drop start data)
      :: slices b l' (start + track_bytes b x) data
  end.

(** ** What the back-fill is expected to compute *)

(** [t.indexes[0]["file_offset"]] *)
Definition first_offset (x : Track.t) : Z :=
  from_option Index.file_offset 0 (head (Track.indexes x)).

(** Every track gets the distance from its first index to the next track's
    first index, the last track to [end_]. *)
Fixpoint backfilled (l : list Track.t) (end_ : Z) : list Track.t :=
  match l with
  | [] => []
  | x :: l' =>
      Track.set_sectors
        (match l' with y :: _ => first_offset y | [] => end_ end
         - first_offset x) x
      :: backfilled l' end_
  end.

(** The sum of the tracks' sector counts (nothing for one not set). *)
Fixpoint total_sectors (l : list Track.t) : Z :=
  match l with
  | [] => 0
  | x :: l' => from_option id 0 (Track.sectors x) + total_sectors l'
  end.

(** No track of the files has a sector count. *)
Definition unsized (fls : list File.t) : Prop :=
  Forall (fun f => Forall (fun x => Track.sectors x = None) (File.tracks f))
    fls.

(** A cuesheet on which the built-ins the parser calls behave as the
    embedding has them: its bytes are ASCII and none is NUL (every
    ASCII-compatible locale codec decodes them to themselves, where another
    byte can raise [UnicodeDecodeError], and [os.access] takes every name
    of a FILE line, where a NUL raises [ValueError]), and no line has more
    than 4300 characters ([int()] refuses a longer run of digits with
    [ValueError]). *)
Definition plain_cuesheet (data : list byte) : bool :=
  forallb (fun c => (0 <? Byte.to_N c)%N && (Byte.to_N c <? 128)%N) data
  && forallb (fun line => (String.length line <=? 4300)%nat) (readlines data).

(** The exceptions of the parser proper: a binary that is not there, and
    the [TypeError] of the track constructor. *)
Definition parse_error (e : exn) : Prop :=
  (exists p, e = ErrorException (BinFileNotFoundOrNotReadable p))
  \/ e = TypeError.

(** ** Example inputs *)

Definition example_split_source : File.t :=
  File.mk "game.bin" [Track.mk 1 [] "MODE1/2352" (Some 1);
                      Track.mk 2 [] "AUDIO" (Some 2)] 7056.

Definition example_split_fs : filesystem :=
  <["game.bin" := RegularFile true (repeat x00 (Z.to_nat 7056))]> ∅.

(** One FILE, two TRACKs, an INDEX 01 each, at sectors 0 and 12000. *)
Definition example_cue : string :=
  "FILE " +:+ dquote +:+ "game.bin" +:+ dquote +:+ " BINARY" +:+ nl +:+
  "  TRACK 01 MODE1/2352" +:+ nl +:+
  "    INDEX 01 00:00:00" +:+ nl +:+
  "  TRACK 02 AUDIO" +:+ nl +:+
  "    INDEX 01 02:40:00" +:+ nl.

Definition example_cue_fs (data : list byte) : filesystem :=
  <["/d/game.cue" := RegularFile true (list_byte_of_string example_cue)]>
    (<["/d/game.bin" := RegularFile true data]> ∅).

(** A smaller disc: two tracks of one sector each. *)
Definition small_cue : string :=
  "FILE " +:+ dquote +:+ "game.bin" +:+ dquote +:+ " BINARY" +:+ nl +:+
  "  TRACK 01 MODE1/2352" +:+ nl +:+
  "    INDEX 01 00:00:00" +:+ nl +:+
  "  TRACK 02 AUDIO" +:+ nl +:+
  "    INDEX 01 00:00:01" +:+ nl.

(** The small disc next to its cuesheet; [readable] is the binary's read
    permission. *)
Definition small_fs (readable : bool) : filesystem :=
  <["/d/game.cue" := RegularFile true (list_byte_of_string small_cue)]>
    (<["/d/game.bin" := RegularFile readable (repeat x00 (Z.to_nat 4704))]> ∅).

#[global] Instance byte_eq_dec : EqDecision byte := Byte.byte_eq_dec.
#[global] Instance node_eq_dec : EqDecision node.
Proof. solve_decision. Defined.
#[global] Instance result_eq_dec {A : Type} `{EqDecision A} :
  EqDecision (result A).
Proof. solve_decision. Defined.

(** Two sectors of 2352 bytes: one of [x01], then one of [x02]. *)
Definition two_sectors : list byte :=
  repeat x01 (Z.to_nat 2352) ++ repeat x02 (Z.to_nat 2352).

(** A disc whose two tracks both carry the number 1. *)
Definition twice_cue : string :=
  "FILE " +:+ dquote +:+ "game.bin" +:+ dquote +:+ " BINARY" +:+ nl +:+
  "  TRACK 01 MODE1/2352" +:+ nl +:+
  "    INDEX 01 00:00:00" +:+ nl +:+
  "  TRACK 01 AUDIO" +:+ nl +:+
  "    INDEX 01 00:00:01" +:+ nl.

(** A disc whose second track starts past the end of the binary. *)
Definition past_end_cue : string :=
  "FILE " +:+ dquote +:+ "game.bin" +:+ dquote +:+ " BINARY" +:+ nl +:+
  "  TRACK 01 MODE1/2352" +:+ nl +:+
  "    INDEX 01 00:00:00" +:+ nl +:+
  "  TRACK 02 AUDIO" +:+ nl +:+
  "    INDEX 01 00:00:03" +:+ nl.

(** The cuesheet [cue] next to a binary of two sectors. *)
Definition two_sector_fs (cue : string) : filesystem :=
  <["/d/game.cue" := RegularFile true (list_byte_of_string cue)]>
    (<["/d/game.bin" := RegularFile true two_sectors]> ∅).

(** ** The Blocksize table *)

(** The eight track types of the comment in [Track.__init__]. *)
Definition known_types : list string :=
  ["AUDIO"; "CDG"; "MODE1/2048"; "MODE1/2352"; "MODE2/2336"; "MODE2/2352";
   "CDI/2336"; "CDI/2352"].

(** A line [read_cue_file] takes for a TRACK declaration when a file is open:
    not a FILE line, and the TRACK pattern is found in it with groups [m]. *)
Definition track_line_groups (line : string) : option (list string) :=
  match Re.search file_re line with
  | Some _ => None
  | None => Re.search track_re line
  end.

Definition initial_locals : locals := mkLocals [] None None.

(** A cuesheet whose first TRACK has a mistyped type tag. *)
Definition typo_cue : string :=
  "FILE " +:+ dquote +:+ "game.bin" +:+ dquote +:+ " BINARY" +:+ nl +:+
  "  TRACK 01 MODE1/2324" +:+ nl +:+
  "    INDEX 01 00:00:00" +:+ nl +:+
  "  TRACK 02 AUDIO" +:+ nl +:+
  "    INDEX 01 00:00:01" +:+ nl.

Definition typo_fs : filesystem :=
  <["/d/game.cue" := RegularFile true (list_byte_of_string typo_cue)]>
    (<["/d/game.bin" := RegularFile true (repeat x00 (Z.to_nat 4704))]> ∅).

(** ** What the merged cuesheet is expected to hold *)

(** The running sector offset after the files [l], from [pos]: it grows by
    [size / Blocksize] with every file. *)
Fixpoint running (gb : option Z) (l : list File.t) (pos : num) : result num :=
  match l with
  | [] => Ok pos
  | f :: l' =>
      d <- truediv_attr (PyInt (File.size f)) gb ;;
      pos <- Py.add pos d ;;
      running gb l' pos
  end.

(** The INDEX lines of a track whose file starts at [pos]. *)
Fixpoint index_lines (pos : num) (l : list Index.t) : result string :=
  match l with
  | [] => Ok EmptyString
  | i :: l' =>
      p <- Py.add pos (PyInt (Index.file_offset i)) ;;
      stamp <- sectors_to_cuestamp p ;;
      rest <- index_lines pos l' ;;
      Ok ("    INDEX " +:+ fmt_0d 2 (Index.id i) +:+ " " +:+ stamp +:+ nl
          +:+ rest)
  end.

(** The TRACK lines of a file that starts at [pos], each with its INDEX
    lines. *)
Fixpoint track_blocks (pos : num) (l : list Track.t) : result string :=
  match l with
  | [] => Ok EmptyString
  | x :: l' =>
      lines <- index_lines pos (Track.indexes x) ;;
      rest <- track_blocks pos l' ;;
      Ok (track_line x +:+ lines +:+ rest)
  end.

(** The blocks of the files [l], which come after the files [pre]: each file
    starts at the running offset of the files before it. *)
Fixpoint file_blocks (gb : option Z) (pre l : list File.t) : result string :=
  match l with
  | [] => _ <- running gb pre (PyInt 0) ;; Ok EmptyString
  | f :: l' =>
      pos <- running gb pre (PyInt 0) ;;
      block <- track_blocks pos (File.tracks f) ;;
      rest <- file_blocks gb (pre ++ [f]) l' ;;
      Ok (block +:+ rest)
  end.

Definition merged_header (basename : string) : string :=
  "FILE " +:+ dquote +:+ basename +:+ ".bin" +:+ dquote +:+ " BINARY" +:+ nl.

Definition offsets_below (n : Z) (f : File.t) : Prop :=
  Forall (fun x => Forall (fun i => 0 <= Index.file_offset i < n)
                     (Track.indexes x)) (File.tracks f).

(** ['    INDEX %02d %s\n' % (i['id'], stamp)] *)
Definition index_line_text (i : Index.t) (stamp : string) : string :=
  "    INDEX " +:+ fmt_0d 2 (Index.id i) +:+ " " +:+ stamp +:+ nl.

(** [line] is a piece of [text]. *)
Definition occurs_in (line text : string) : Prop :=
  exists a b, text = a +:+ line +:+ b.

(** A split image of two files, of 1000 and 500 sectors of 2352 bytes. *)
Definition example_first_file : File.t :=
  File.mk "/d/Game (Track 1).bin"
    [Track.mk 1 [Index.mk 1 "00:00:00" 0] "MODE1/2352" None] (2352 * 1000).

Definition example_second_file : File.t :=
  File.mk "/d/Game (Track 2).bin"
    [Track.mk 2 [Index.mk 0 "00:00:00" 0; Index.mk 1 "00:02:00" 150] "AUDIO"
       None] (2352 * 500).

(** No file of the disc image has a track. *)
Definition no_tracks (fls : list File.t) : Prop :=
  Forall (fun f => File.tracks f = []) fls.

(** The timestamp of the integer sector [n], below 100 minutes. *)
Definition stamp_text (n : Z) : string :=
  fmt_0d 2 (n / 4500) +:+ ":" +:+ fmt_0d 2 (n mod 4500 / 75) +:+ ":"
  +:+ fmt_0d 2 (n mod 75).

(** The lines of the tracks [l] of a file that starts at the integer sector
    [start]. *)
Fixpoint indexes_text (start : Z) (l : list Index.t) : string :=
  match l with
  | [] => EmptyString
  | i :: l' =>
      index_line_text i (stamp_text (start + Index.file_offset i))
      +:+ indexes_text start l'
  end.

Fixpoint tracks_text (start : Z) (l : list Track.t) : string :=
  match l with
  | [] => EmptyString
  | x :: l' =>
      track_line x +:+ indexes_text start (Track.indexes x)
      +:+ tracks_text start l'
  end.

(** ['FILE "%s" BINARY\n' % name] *)
Definition file_line (name : string) : string :=
  "FILE " +:+ dquote +:+ name +:+ dquote +:+ " BINARY" +:+ nl.

(** The INDEX lines of a track in a split cuesheet: the sectors counted from
    [first]. *)
Fixpoint split_indexes_text (first : Z) (l : list Index.t) : string :=
  match l with
  | [] => EmptyString
  | i :: l' =>
      index_line_text i (stamp_text (Index.file_offset i - first))
      +:+ split_indexes_text first l'
  end.

(** The split cuesheet of the tracks [l]: for each a FILE line, the TRACK
    line and the INDEX lines. *)
Fixpoint split_text (base : string) (count : Z) (l : list Track.t) : string :=
  match l with
  | [] => EmptyString
  | x :: l' =>
      file_line (track_filename base (Track.num x) count) +:+ track_line x
      +:+ split_indexes_text (first_offset x) (Track.indexes x)
      +:+ split_text base count l'
  end.

(** The sectors of the files [l]: [size / Blocksize] each. *)
Fixpoint sector_count (b : Z) (l : list File.t) : Z :=
  match l with
  | [] => 0
  | f :: l' => File.size f / b + sector_count b l'
  end.

(** The blocks of the files [l], the first of which starts at the integer
    sector [start]. *)
Fixpoint files_text (b start : Z) (l : list File.t) : string :=
  match l with
  | [] => EmptyString
  | f :: l' =>
      tracks_text start (File.tracks f)
      +:+ files_text b (start + File.size f / b) l'
  end.

(** ** What a generated cuesheet is read back as *)

(** The index read from the INDEX line printed for the sector
    [start + file_offset]. *)
Definition reread_index (start : Z) (i : Index.t) : Index.t :=
  Index.mk (Index.id i) (stamp_text (start + Index.file_offset i))
    (start + Index.file_offset i).

(** The track read from the TRACK line of [x] and its INDEX lines. *)
Definition reread_track (start : Z) (x : Track.t) : Track.t :=
  Track.mk (Track.num x) (map (reread_index start) (Track.indexes x))
    (Track.track_type x) None.

(** The tracks read from the blocks of the files [l], the first of which
    starts at sector [start]. *)
Fixpoint reread_files (b start : Z) (l : list File.t) : list Track.t :=
  match l with
  | [] => []
  | f :: l' =>
      map (reread_track start) (File.tracks f)
      ++ reread_files b (start + File.size f / b) l'
  end.

(** The size [os.path.getsize] finds at [p] (0 when there is nothing). *)
Definition file_size (fs : filesystem) (p : string) : Z :=
  match Os.getsize fs p with
  | Ok n => n
  | Err _ => 0
  end.

(** The file read from the lines of track [x] in a split cuesheet that lies
    in the directory [dir]: the file of the track, holding the track with
    its indexes counted from the first one. *)
Definition reread_split (fs : filesystem) (dir base : string) (count : Z)
    (x : Track.t) : File.t :=
  File.mk (Os.join dir (track_filename base (Track.num x) count))
    [reread_track (- first_offset x) x]
    (file_size fs (Os.join dir (track_filename base (Track.num x) count))).

(** Numbers that [%02d] prints as digits, a type tag without blanks. *)
Definition printable_index (i : Index.t) : Prop := 0 <= Index.id i.

Definition printable_track (x : Track.t) : Prop :=
  0 <= Track.num x
  /\ all_match Re.NotSpace (Track.track_type x) = true
  /\ Forall printable_index (Track.indexes x).

(** The Blocksize after the TRACK lines of [l] have been read from [gb]. *)
Definition locked (gb : option Z) (l : list Track.t) : option Z :=
  if truthy gb then gb
  else match l with
       | [] => gb
       | x :: _ => Track.lock (Track.track_type x) gb
       end.

(** The tracks can be made: the Blocksize is set, or it is unset and the
    type tags are known ones. *)
Definition can_lock (gb : option Z) (l : list Track.t) : Prop :=
  truthy gb = true
  \/ (gb = None
      /\ Forall (fun x => string_in (Track.track_type x) known_types = true) l).

(** The tracks of all the files, in order. *)
Definition all_tracks (fls : list File.t) : list Track.t :=
  concat (map File.tracks fls).

(** The local variables of the parser while it is in the last file. *)
Definition in_file (pre : list File.t) (f : File.t)
    (tt : option (nat * nat)) : locals :=
  mkLocals (pre ++ [f]) tt (Some (length pre)).

(** [t] with further indexes. *)
Definition add_indexes (l : list Index.t) (x : Track.t) : Track.t :=
  Track.mk (Track.num x) (Track.indexes x ++ l) (Track.track_type x)
    (Track.sectors x).

(** The size of [f] is a whole number of blocks of [b] bytes. *)
Definition whole_blocks (b : Z) (f : File.t) : Prop :=
  0 <= File.size f /\ File.size f mod b = 0.

(** The indexes of [f] lie inside the file. *)
Definition indexes_inside (b : Z) (f : File.t) : Prop :=
  offsets_below (File.size f / b) f.

(** The number [pos] holds the integer sector [s], as an [int] or as a
    [float]. *)
Definition holds (s : Z) (pos : num) : Prop :=
  pos = PyInt s \/ pos = PyFloat (float_of_int s).

(** ** Integers as binary64 floats *)

(** [p * 2^k] *)
Definition shl (p : positive) (k : Z) : positive :=
  match k with
  | Zpos n => Pos.iter xO p n
  | _ => p
  end.

(** The number of bits of [p]. *)
Definition digits (p : positive) : Z := Zpos (digits2_pos p).

(** The binary64 representation of the integer [p], of at most 53 bits. *)
Definition canon (p : positive) : spec_float :=
  S754_finite false (shl p (53 - digits p)) (digits p - 53).

(** * Proofs *)

(** ** Float quotients and truncation *)

Lemma trunc_chk_sound f q :
  trunc_chk f q = true -> float_trunc f = Ok (Uint63.to_Z q).
Proof.
  unfold trunc_chk, float_trunc, decomp.
  destruct (PrimFloat.is_nan f); [discriminate|].
  destruct (PrimFloat.is_infinity f); [discriminate|].
  destruct (PrimFloat.get_sign f); [discriminate|]. simpl.
  destruct (frshiftexp (abs f)) as [m e].
  intros H. apply andb_true_iff in H as [He Hq].
  apply Uint63.leb_spec in He. apply Uint63.eqb_spec in Hq.
  change (Uint63.to_Z 2154) with 2154 in He.
  pose proof (Uint63.to_Z_bounded e) as Hb.
  assert (Hs : Uint63.to_Z (2154 - e) = 2154 - Uint63.to_Z e).
  { rewrite Uint63.sub_spec. change (Uint63.to_Z 2154) with 2154.
    apply Z.mod_small. change wB with 9223372036854775808 in *. lia. }
  subst q. rewrite Uint63.lsr_spec, Hs.
  change FloatOps.shift with 2101. change FloatOps.prec with 53.
  f_equal. destruct (Z.leb_spec 0 (Uint63.to_Z e - 2101 - 53)).
  - replace (Uint63.to_Z e - 2101 - 53) with 0 by lia.
    replace (2154 - Uint63.to_Z e) with 0 by lia. simpl.
    rewrite Z.mul_1_r, Z.div_1_r. reflexivity.
  - f_equal. f_equal. lia.
Qed.

Lemma float_of_int_prim (i : int) :
  float_of_int (Uint63.to_Z i) = of_uint63 i.
Proof.
  unfold float_of_int. rewrite <- of_uint63_spec. apply SF2Prim_Prim2SF.
Qed.

Lemma all_from_sound p n : forall i,
  all_from n i p = true ->
  Uint63.to_Z i + Z.of_nat n <= wB ->
  forall z, Uint63.to_Z i <= z < Uint63.to_Z i + Z.of_nat n ->
  p (Uint63.of_Z z) = true.
Proof.
  induction n as [|n IH]; intros i H Hb z Hz; [lia|].
  simpl in H. apply andb_true_iff in H as [Hi Hr].
  destruct (Z.eq_dec z (Uint63.to_Z i)) as [->|Hne].
  - rewrite Uint63.of_to_Z. exact Hi.
  - assert (Uint63.to_Z (i + 1) = Uint63.to_Z i + 1) as Hs.
    { rewrite Uint63.add_spec. change (Uint63.to_Z 1) with 1.
      apply Z.mod_small. pose proof (Uint63.to_Z_bounded i). lia. }
    apply (IH (i + 1)%uint63 Hr); lia.
Qed.

Lemma div_4500_all : all_from (Z.to_nat 450000) 0%uint63 (div_chk 4500) = true.
Proof. vm_cast_no_check (@eq_refl bool true). Qed.

Lemma div_75_all : all_from (Z.to_nat 4500) 0%uint63 (div_chk 75) = true.
Proof. vm_cast_no_check (@eq_refl bool true). Qed.

Lemma float_of_int_small (z : Z) :
  0 <= z < wB -> float_of_int z = of_uint63 (Uint63.of_Z z).
Proof.
  intros Hz. rewrite <- float_of_int_prim. f_equal.
  rewrite Uint63.of_Z_spec. symmetry. apply Z.mod_small. exact Hz.
Qed.

(** Below [n], the float quotient by [d] truncates to the integer quotient,
    once the check has run over the whole range. *)
Lemma trunc_quotient (d : int) (n : nat) (x : Z) :
  all_from n 0%uint63 (div_chk d) = true ->
  Z.of_nat n <= 2 ^ 53 ->
  0 < Uint63.to_Z d < 2 ^ 53 ->
  0 <= x < Z.of_nat n ->
  (q <- int_truediv x (Uint63.to_Z d) ;; float_trunc q)
  = Ok (x / Uint63.to_Z d).
Proof.
  intros Hall Hn Hd Hx. unfold int_truediv, small.
  destruct (Z.eqb_spec (Uint63.to_Z d) 0) as [E|_]; [lia|].
  assert ((Z.abs x <? 2 ^ 53) = true) as -> by (apply Z.ltb_lt; lia).
  assert ((Z.abs (Uint63.to_Z d) <? 2 ^ 53) = true) as ->
    by (apply Z.ltb_lt; lia).
  cbn [andb bind].
  assert (0 <= x < wB) as Hw by (change wB with (2 ^ 63); lia).
  rewrite (float_of_int_small x Hw), float_of_int_prim.
  pose proof (all_from_sound _ _ _ Hall) as Hs.
  change (Uint63.to_Z 0) with 0 in Hs.
  specialize (Hs ltac:(change wB with (2 ^ 63); lia) x ltac:(lia)).
  apply trunc_chk_sound in Hs. rewrite Hs. f_equal.
  rewrite Uint63.div_spec, Uint63.of_Z_spec, Z.mod_small by exact Hw.
  reflexivity.
Qed.

Lemma minutes_quotient (x : Z) :
  0 <= x < 450000 ->
  (q <- int_truediv x 4500 ;; float_trunc q) = Ok (x / 4500).
Proof.
  intros Hx.
  apply (trunc_quotient 4500%uint63 (Z.to_nat 450000) x div_4500_all);
    rewrite ?Z2Nat.id by lia; try lia. vm_compute. split; reflexivity.
Qed.

Lemma seconds_quotient (x : Z) :
  0 <= x < 4500 ->
  (q <- int_truediv x 75 ;; float_trunc q) = Ok (x / 75).
Proof.
  intros Hx.
  apply (trunc_quotient 75%uint63 (Z.to_nat 4500) x div_75_all);
    rewrite ?Z2Nat.id by lia; try lia. vm_compute. split; reflexivity.
Qed.

(** [sectors_to_cuestamp] on an integer below 100 minutes, in closed form. *)
Lemma sectors_to_cuestamp_int (x : Z) :
  0 <= x < 450000 ->
  sectors_to_cuestamp (PyInt x)
  = Ok (fmt_0d 2 (x / 4500) +:+ ":" +:+ fmt_0d 2 (x mod 4500 / 75)
        +:+ ":" +:+ fmt_0d 2 (x mod 75)).
Proof.
  intros Hx. unfold sectors_to_cuestamp, truediv, modulo, to_int.
  pose proof (minutes_quotient x Hx) as Hm.
  assert (0 <= x mod 4500 < 4500) as Hr by (apply Z.mod_pos_bound; lia).
  pose proof (seconds_quotient _ Hr) as Hs.
  destruct (int_truediv x 4500) as [qm|e]; [|discriminate Hm].
  cbn [bind Z.eqb] in *.
  destruct (int_truediv (x mod 4500) 75) as [qs|e]; [|discriminate Hs].
  cbn [bind] in *. rewrite Hm. cbn [bind]. rewrite Hs. reflexivity.
Qed.

(** ** Exact float arithmetic on integers below [2^53] *)

Lemma digits_pos p : 1 <= digits p.
Proof. unfold digits. lia. Qed.

Lemma digits_iter_xO p n :
  digits2_pos (Pos.iter xO p n) = (digits2_pos p + n)%positive.
Proof.
  induction n as [|n IH] using Pos.peano_ind.
  - cbn. lia.
  - rewrite Pos.iter_succ. cbn [digits2_pos]. rewrite IH. lia.
Qed.

Lemma digits_shl p k : 0 <= k -> digits (shl p k) = digits p + k.
Proof.
  intros Hk. unfold digits. destruct k as [|n|n]; cbn [shl]; [lia| |lia].
  rewrite digits_iter_xO. lia.
Qed.

Lemma shl_shl p a b : 0 <= a -> 0 <= b -> shl (shl p a) b = shl p (a + b).
Proof.
  intros Ha Hb. destruct a as [|a|a], b as [|b|b]; try lia; try reflexivity.
  change (Z.pos a + Z.pos b) with (Z.pos (a + b)). cbn [shl].
  rewrite Pos.add_comm. apply eq_sym, Pos.iter_add.
Qed.

Section IterPos.
Context {A : Type} (f : A -> A).

Lemma iter_pos_comm n : forall x, SpecFloat.iter_pos f n (f x) = f (SpecFloat.iter_pos f n x).
Proof.
  induction n as [n IH|n IH|]; intros x; cbn [SpecFloat.iter_pos];
    rewrite ?IH; reflexivity.
Qed.

Lemma iter_pos_iter n : forall x, SpecFloat.iter_pos f n x = Pos.iter f x n.
Proof.
  induction n as [n IH|n IH|]; intros x; cbn [SpecFloat.iter_pos Pos.iter];
    rewrite ?iter_pos_comm, ?IH; reflexivity.
Qed.
End IterPos.

Lemma shr_exact p n :
  SpecFloat.iter_pos shr_1 n {| shr_m := Zpos (Pos.iter xO p n); shr_r := false; shr_s := false |}
  = {| shr_m := Zpos p; shr_r := false; shr_s := false |}.
Proof.
  rewrite iter_pos_iter. induction n as [|n IH] using Pos.peano_ind.
  - reflexivity.
  - rewrite Pos.iter_succ_r, Pos.iter_succ. cbn [shr_1 orb]. exact IH.
Qed.

Lemma fexp_small d : 1 <= d -> d <= 1024 -> fexp prec emax d = d - 53.
Proof. intros. unfold fexp, SpecFloat.emin, prec, emax. lia. Qed.

(** Rounding a representation [m * 2^e] of an integer of at most 53 bits, the
    mantissa [m] having 53 bits or more. *)
Lemma binary_round_aux_exact (s : bool) (p : positive) (k : Z) :
  digits p <= 53 -> 53 - digits p <= k -> k <= 900 ->
  binary_round_aux prec emax s (Zpos (shl p k)) (- k) loc_Exact
  = S754_finite s (shl p (53 - digits p)) (digits p - 53).
Proof.
  intros Hd Hk Hk'. pose proof (digits_pos p) as H1.
  unfold binary_round_aux, shr_fexp. cbn [shr_record_of_loc Zdigits2].
  fold (digits (shl p k)). rewrite digits_shl by lia.
  rewrite fexp_small by lia.
  replace (digits p + k + - k - 53 - - k) with (k - (53 - digits p)) by lia.
  assert (shr {| shr_m := Z.pos (shl p k); shr_r := false; shr_s := false |}
            (- k) (k - (53 - digits p))
          = ({| shr_m := Z.pos (shl p (53 - digits p)); shr_r := false;
                shr_s := false |}, digits p - 53)) as ->.
  { destruct (k - (53 - digits p)) as [|n|n] eqn:E; cbn [shr]; [|  |lia].
    - replace k with (53 - digits p) by lia. f_equal. lia.
    - replace (shl p k) with (Pos.iter xO (shl p (53 - digits p)) n).
      + rewrite shr_exact. f_equal. lia.
      + change (Pos.iter xO (shl p (53 - digits p)) n)
          with (shl (shl p (53 - digits p)) (Zpos n)).
        rewrite shl_shl by lia. f_equal. lia. }
  cbn [shr_m loc_of_shr_record round_nearest_even shr_record_of_loc Zdigits2].
  fold (digits (shl p (53 - digits p))). rewrite digits_shl by lia.
  rewrite fexp_small by lia.
  replace (digits p + (53 - digits p) + (digits p - 53) - 53 - (digits p - 53))
    with 0 by lia.
  cbn [shr shr_m]. unfold prec, emax.
  destruct (Z.leb_spec (digits p - 53) (1024 - 53)); [reflexivity|lia].
Qed.

Lemma binary_round_exact (s : bool) (p : positive) (k : Z) :
  digits p <= 53 -> 0 <= k <= 900 ->
  binary_round prec emax s (shl p k) (- k)
  = S754_finite s (shl p (53 - digits p)) (digits p - 53).
Proof.
  intros Hd Hk. pose proof (digits_pos p) as H1. unfold binary_round.
  fold (digits (shl p k)). rewrite digits_shl by lia.
  rewrite fexp_small by lia. unfold shl_align.
  destruct (digits p + k + - k - 53 - - k) as [|n|n] eqn:E.
  - apply binary_round_aux_exact; lia.
  - apply binary_round_aux_exact; lia.
  - change (Pos.iter xO (shl p k) n) with (shl (shl p k) (Zpos n)).
    rewrite shl_shl by lia.
    replace (k + Z.pos n) with (53 - digits p) by lia.
    replace (digits p + k + - k - 53) with (- (53 - digits p)) by lia.
    apply binary_round_aux_exact; lia.
Qed.

Lemma canon_valid p : digits p <= 53 -> valid_binary (canon p) = true.
Proof.
  intros Hd. pose proof (digits_pos p) as H1.
  unfold canon, valid_binary, bounded, canonical_mantissa.
  fold (digits (shl p (53 - digits p))). rewrite digits_shl by lia.
  rewrite fexp_small by lia. unfold prec, emax.
  apply andb_true_intro. split; [apply Z.eqb_eq|apply Z.leb_le]; lia.
Qed.

Lemma Prim2SF_float_of_pos p :
  digits p <= 53 -> Prim2SF (float_of_int (Zpos p)) = canon p.
Proof.
  intros Hd. unfold Py.float_of_int. cbn [binary_normalize].
  pose proof (binary_round_exact false p 0 Hd ltac:(lia)) as H.
  change (shl p 0) with p in H. change (- 0) with 0 in H. rewrite H. apply Prim2SF_SF2Prim, canon_valid, Hd.
Qed.

Lemma shl_spec p k : 0 <= k -> Zpos (shl p k) = Zpos p * 2 ^ k.
Proof.
  intros Hk. destruct k as [|n|n]; cbn [shl]; [lia| |lia]. clear Hk.
  induction n as [|n IH] using Pos.peano_ind.
  - cbn. lia.
  - rewrite Pos.iter_succ, Pos2Z.inj_xO, IH, Pos2Z.inj_succ.
    rewrite Z.pow_succ_r; lia.
Qed.

Lemma shl_add a b k :
  0 <= k -> (shl a k + shl b k)%positive = shl (a + b) k.
Proof.
  intros Hk. apply Pos2Z.inj. rewrite Pos2Z.inj_add, !shl_spec by lia. lia.
Qed.

Lemma shl_align_down m e ez :
  ez <= e -> fst (shl_align m e ez) = shl m (e - ez).
Proof.
  intros H. unfold shl_align.
  destruct (ez - e) as [|n|n] eqn:E; cbn [fst]; try lia.
  - replace (e - ez) with 0 by lia. reflexivity.
  - replace (e - ez) with (Zpos n) by lia. reflexivity.
Qed.

Lemma SFadd_canon a b :
  digits (a + b) <= 53 -> digits a <= 53 -> digits b <= 53 ->
  SFadd prec emax (canon a) (canon b) = canon (a + b).
Proof.
  intros Hab Ha Hb. pose proof (digits_pos a). pose proof (digits_pos b).
  unfold canon at 1 2. cbn [SFadd cond_Zopp].
  set (ez := Z.min (digits a - 53) (digits b - 53)).
  rewrite !shl_align_down by lia. rewrite !shl_shl by lia.
  replace (53 - digits a + (digits a - 53 - ez)) with (- ez) by lia.
  replace (53 - digits b + (digits b - 53 - ez)) with (- ez) by lia.
  rewrite <- Pos2Z.inj_add, shl_add by lia. cbn [binary_normalize].
  rewrite <- (Z.opp_involutive ez) at 2.
  apply binary_round_exact; lia.
Qed.

Lemma digits_size p : digits2_pos p = Pos.size p.
Proof. induction p as [p IH|p IH|]; cbn; rewrite ?IH; reflexivity. Qed.

Lemma digits_le p n : 0 <= n -> Zpos p < 2 ^ n -> digits p <= n.
Proof.
  intros Hn Hp. unfold digits. rewrite digits_size.
  pose proof (Pos.size_le p) as Hs.
  apply Pos2Z.pos_le_pos in Hs. rewrite Pos2Z.inj_pow in Hs.
  change (Z.pos p~0) with (2 * Z.pos p) in Hs.
  destruct (Z.le_gt_cases (Zpos (Pos.size p)) n) as [|Hgt]; [assumption|].
  assert (2 ^ (n + 1) <= 2 ^ Zpos (Pos.size p))
    by (apply Z.pow_le_mono_r; lia).
  rewrite Z.pow_add_r in * by lia. change (2 ^ 1) with 2 in *. lia.
Qed.

Lemma Prim2SF_float_of_zero : Prim2SF (float_of_int 0) = S754_zero false.
Proof. reflexivity. Qed.

Lemma float_add_exact (a b : Z) :
  0 <= a -> 0 <= b -> a + b < 2 ^ 53 ->
  PrimFloat.add (float_of_int a) (float_of_int b) = float_of_int (a + b).
Proof.
  intros Ha Hb Hab. apply Prim2SF_inj. rewrite FloatAxioms.add_spec.
  destruct a as [|a|a]; [| |lia]; (destruct b as [|b|b]; [| |lia]).
  - reflexivity.
  - change (0 + Z.pos b) with (Z.pos b). rewrite Prim2SF_float_of_zero.
    rewrite Prim2SF_float_of_pos by (apply digits_le; lia). reflexivity.
  - rewrite Z.add_0_r, Prim2SF_float_of_zero.
    rewrite Prim2SF_float_of_pos by (apply digits_le; lia). reflexivity.
  - change (Z.pos a + Z.pos b) with (Z.pos (a + b)) in *.
    rewrite !Prim2SF_float_of_pos by (apply digits_le; lia).
    apply SFadd_canon; apply digits_le; lia.
Qed.

Lemma float_of_pos_eqb_self p :
  digits p <= 53 ->
  PrimFloat.eqb (float_of_int (Zpos p)) (float_of_int (Zpos p)) = true.
Proof.
  intros Hd. rewrite FloatAxioms.eqb_spec, Prim2SF_float_of_pos by exact Hd.
  unfold SFeqb, SFcompare, canon.
  rewrite Z.compare_refl, Pos.compare_cont_refl. reflexivity.
Qed.

Lemma float_of_pos_abs p :
  digits p <= 53 -> abs (float_of_int (Zpos p)) = float_of_int (Zpos p).
Proof.
  intros Hd. apply Prim2SF_inj.
  rewrite abs_spec, Prim2SF_float_of_pos by exact Hd. reflexivity.
Qed.

Lemma float_of_pos_is_nan p :
  digits p <= 53 -> PrimFloat.is_nan (float_of_int (Zpos p)) = false.
Proof.
  intros Hd. unfold PrimFloat.is_nan. rewrite float_of_pos_eqb_self by exact Hd.
  reflexivity.
Qed.

Lemma float_of_pos_is_infinity p :
  digits p <= 53 -> PrimFloat.is_infinity (float_of_int (Zpos p)) = false.
Proof.
  intros Hd. unfold PrimFloat.is_infinity.
  rewrite float_of_pos_abs, FloatAxioms.eqb_spec, Prim2SF_float_of_pos
    by exact Hd.
  reflexivity.
Qed.

Lemma float_of_pos_is_zero p :
  digits p <= 53 -> PrimFloat.is_zero (float_of_int (Zpos p)) = false.
Proof.
  intros Hd. unfold PrimFloat.is_zero.
  rewrite FloatAxioms.eqb_spec, Prim2SF_float_of_pos by exact Hd.
  reflexivity.
Qed.

Lemma float_of_pos_ltb_zero p :
  digits p <= 53 ->
  PrimFloat.ltb (float_of_int (Zpos p)) PrimFloat.zero = false.
Proof.
  intros Hd. rewrite FloatAxioms.ltb_spec, Prim2SF_float_of_pos by exact Hd.
  reflexivity.
Qed.

Lemma float_of_pos_get_sign p :
  digits p <= 53 -> PrimFloat.get_sign (float_of_int (Zpos p)) = false.
Proof.
  intros Hd. unfold PrimFloat.get_sign.
  rewrite float_of_pos_is_zero by exact Hd.
  apply float_of_pos_ltb_zero. exact Hd.
Qed.

(** The mantissa and exponent the primitives deliver for an integer. *)
Lemma decomp_float_of_pos p :
  digits p <= 53 ->
  decomp (float_of_int (Zpos p))
  = (Zpos (shl p (53 - digits p)), digits p - 53).
Proof.
  intros Hd. pose proof (digits_pos p) as H1. unfold decomp.
  rewrite float_of_pos_abs by exact Hd.
  pose proof (frshiftexp_spec (float_of_int (Zpos p))) as Hf.
  destruct (frshiftexp (float_of_int (Zpos p))) as [m e].
  rewrite Prim2SF_float_of_pos in Hf by exact Hd.
  unfold canon, SFfrexp in Hf.
  fold (digits (shl p (53 - digits p))) in Hf.
  rewrite digits_shl in Hf by lia.
  replace (digits p + (53 - digits p)) with 53 in Hf by lia.
  change (prec <=? 53) with true in Hf. cbn iota in Hf.
  injection Hf as Hm He.
  rewrite normfr_mantissa_spec, Hm. unfold SFnormfr_mantissa.
  rewrite Z.eqb_refl. f_equal.
  lia.
Qed.

Lemma float_of_int_zero : float_of_int 0 = PrimFloat.zero.
Proof. reflexivity. Qed.

Lemma digits_below (v : positive) : Zpos v < 2 ^ 53 -> digits v <= 53.
Proof. intros H. apply digits_le; [lia|exact H]. Qed.

(** [int(float(v))] is [v] for an integer that a float holds exactly. *)
Lemma float_trunc_float_of_int (v : Z) :
  0 <= v < 2 ^ 53 -> float_trunc (float_of_int v) = Ok v.
Proof.
  intros [H0 H1]. destruct v as [|p|p]; [reflexivity| |lia].
  pose proof (digits_below p H1) as Hd. pose proof (digits_pos p) as Hp.
  unfold float_trunc.
  rewrite float_of_pos_is_nan, float_of_pos_is_infinity, decomp_float_of_pos,
    float_of_pos_get_sign by exact Hd.
  f_equal. destruct (Z.leb_spec 0 (digits p - 53)) as [Hk|Hk].
  - replace (digits p - 53) with 0 by lia. replace (53 - digits p) with 0 by lia.
    change (shl p 0) with p. lia.
  - rewrite shl_spec by lia.
    replace (- (digits p - 53)) with (53 - digits p) by lia.
    apply Z.div_mul. apply Z.pow_nonzero; lia.
Qed.

(** *** Floats that hold a natural number below [2^53] *)

Lemma float_of_int_is_nan (v : Z) :
  0 <= v < 2 ^ 53 -> PrimFloat.is_nan (float_of_int v) = false.
Proof.
  intros [H0 H1]. destruct v as [|p|p]; [reflexivity| |lia].
  apply float_of_pos_is_nan, digits_below, H1.
Qed.

Lemma float_of_int_is_infinity (v : Z) :
  0 <= v < 2 ^ 53 -> PrimFloat.is_infinity (float_of_int v) = false.
Proof.
  intros [H0 H1]. destruct v as [|p|p]; [reflexivity| |lia].
  apply float_of_pos_is_infinity, digits_below, H1.
Qed.

Lemma float_of_int_get_sign (v : Z) :
  0 <= v < 2 ^ 53 -> PrimFloat.get_sign (float_of_int v) = false.
Proof.
  intros [H0 H1]. destruct v as [|p|p]; [reflexivity| |lia].
  apply float_of_pos_get_sign, digits_below, H1.
Qed.

Lemma float_of_int_ltb_zero (v : Z) :
  0 <= v < 2 ^ 53 -> PrimFloat.ltb (float_of_int v) PrimFloat.zero = false.
Proof.
  intros [H0 H1]. destruct v as [|p|p]; [reflexivity| |lia].
  apply float_of_pos_ltb_zero, digits_below, H1.
Qed.

Lemma float_of_int_is_zero (v : Z) :
  0 <= v < 2 ^ 53 -> PrimFloat.is_zero (float_of_int v) = (v =? 0).
Proof.
  intros [H0 H1]. destruct v as [|p|p]; [reflexivity| |lia].
  apply float_of_pos_is_zero, digits_below, H1.
Qed.

Lemma coerce_float_of_int (v : Z) :
  0 <= v < 2 ^ 53 -> coerce v = Ok (float_of_int v).
Proof.
  intros H. unfold coerce. rewrite float_of_int_is_infinity by exact H.
  reflexivity.
Qed.

(** The mantissa and exponent of such a float, as the primitives give
    them. *)
Lemma decomp_float_of_int (v : Z) :
  0 <= v < 2 ^ 53 ->
  exists m k, decomp (float_of_int v) = (m, k)
              /\ k <= 0 /\ (0 < v -> -53 <= k) /\ m = v * 2 ^ (- k).
Proof.
  intros [H0 H1]. destruct v as [|p|p]; [| |lia].
  - exists 0, (-2154). split; [reflexivity|]. repeat split; lia.
  - pose proof (digits_below p H1) as Hd. pose proof (digits_pos p) as Hp.
    exists (Zpos (shl p (53 - digits p))), (digits p - 53).
    split; [apply decomp_float_of_pos, Hd|]. repeat split; [lia|lia|].
    rewrite shl_spec by lia. f_equal. f_equal. lia.
Qed.

Lemma SF2Prim_canon (q : positive) :
  digits q <= 53 -> SF2Prim (canon q) = float_of_int (Zpos q).
Proof.
  intros Hd. rewrite <- Prim2SF_float_of_pos by exact Hd.
  apply SF2Prim_Prim2SF.
Qed.

(** [fmod] of two naturals held exactly is their remainder, held exactly. *)
Lemma fmod_finite_float_of_int (x y : Z) :
  0 <= x < 2 ^ 53 -> 0 < y < 2 ^ 53 ->
  fmod_finite (float_of_int x) (float_of_int y) = float_of_int (x mod y).
Proof.
  intros Hx Hy.
  destruct (decomp_float_of_int x Hx) as (mx & kx & Ex & Hkx & Hkx' & ->).
  destruct (decomp_float_of_int y ltac:(lia)) as (my & ky & Ey & Hky & Hky' & ->).
  unfold fmod_finite. rewrite Ex, Ey, float_of_int_get_sign by exact Hx.
  set (e := Z.min kx ky).
  rewrite <- !Z.mul_assoc, <- !Z.pow_add_r by lia.
  replace (- kx + (kx - e)) with (- e) by lia.
  replace (- ky + (ky - e)) with (- e) by lia.
  assert (0 < 2 ^ (- e)) as Hpow by (apply Z.pow_pos_nonneg; lia).
  rewrite Z.rem_mod_nonneg by nia.
  rewrite Z.mul_mod_distr_r by lia.
  pose proof (Z.mod_pos_bound x y ltac:(lia)) as Hm.
  destruct (x mod y) as [|q|q] eqn:Eq; [reflexivity| |lia].
  assert (0 < x) as Hxpos.
  { destruct (Z.eq_dec x 0) as [->|]; [|lia]. rewrite Z.mod_0_l in Eq; lia. }
  assert (Zpos q < 2 ^ 53) as Hq by lia.
  rewrite <- shl_spec by lia. cbn [binary_normalize].
  pose proof (binary_round_exact false q (- e) (digits_below q Hq)
                ltac:(lia)) as Hr.
  rewrite Z.opp_involutive in Hr. rewrite Hr.
  apply SF2Prim_canon, digits_below, Hq.
Qed.

Lemma fmod_float_of_int (x y : Z) :
  0 <= x < 2 ^ 53 -> 0 < y < 2 ^ 53 ->
  fmod (float_of_int x) (float_of_int y) = float_of_int (x mod y).
Proof.
  intros Hx Hy. unfold fmod.
  rewrite !float_of_int_is_nan, !float_of_int_is_infinity by lia.
  apply fmod_finite_float_of_int; assumption.
Qed.

(** [float(x) % float(y)] *)
Lemma float_mod_float_of_int (x y : Z) :
  0 <= x < 2 ^ 53 -> 0 < y < 2 ^ 53 ->
  float_mod (float_of_int x) (float_of_int y) = Ok (float_of_int (x mod y)).
Proof.
  intros Hx Hy. unfold float_mod.
  pose proof (Z.mod_pos_bound x y ltac:(lia)) as Hm.
  rewrite fmod_float_of_int by assumption.
  rewrite !float_of_int_is_zero, float_of_int_get_sign, float_of_int_is_nan,
    !float_of_int_ltb_zero by lia.
  destruct (Z.eqb_spec y 0) as [|_]; [lia|].
  destruct (Z.eqb_spec (x mod y) 0) as [->|_]; reflexivity.
Qed.

Lemma digits_gt (p : positive) : Zpos p < 2 ^ digits p.
Proof.
  unfold digits. rewrite digits_size.
  pose proof (Pos.size_gt p) as H.
  apply Pos2Z.pos_lt_pos in H. rewrite Pos2Z.inj_pow in H. exact H.
Qed.

Lemma fexp_mid (d : Z) : -1000 <= d <= 1024 -> fexp prec emax d = d - 53.
Proof. intros H. unfold fexp, SpecFloat.emin, prec, emax. lia. Qed.

Lemma new_location_zero (n : Z) : new_location n 0 = loc_Exact.
Proof. unfold new_location. destruct (Z.even n); reflexivity. Qed.

(** The quotient of two canonical mantissas, the second dividing the first:
    exact, and canonical again. *)
Lemma SFdiv_canon (n y : positive) :
  digits (n * y) <= 53 ->
  SFdiv prec emax (canon (n * y)) (canon y) = canon n.
Proof.
  intros Hx.
  pose proof (digits_pos n) as Hn1. pose proof (digits_pos y) as Hy1.
  pose proof (digits_pos (n * y)) as Hx1.
  assert (digits (n * y) <= digits n + digits y) as Hsum.
  { apply digits_le; [lia|]. rewrite Pos2Z.inj_mul, Z.pow_add_r by lia.
    pose proof (digits_gt n). pose proof (digits_gt y). nia. }
  assert (digits y <= digits (n * y)) as Hyx.
  { apply digits_le; [lia|]. pose proof (digits_gt (n * y)). nia. }
  assert (digits n <= digits (n * y)) as Hnx.
  { apply digits_le; [lia|]. pose proof (digits_gt (n * y)). nia. }
  set (dx := digits (n * y)) in *. set (dy := digits y) in *.
  unfold canon. fold dx dy. unfold SFdiv, SFdiv_core_binary.
  change (Zdigits2 (Zpos ?m)) with (digits m).
  rewrite !digits_shl by lia. fold dx dy.
  replace (dx + (53 - dx) + (dx - 53) - (dy + (53 - dy) + (dy - 53)))
    with (dx - dy) by lia.
  rewrite fexp_mid by lia.
  replace (dx - 53 - (dy - 53)) with (dx - dy) by lia.
  rewrite Z.min_l by lia.
  replace (dx - dy - (dx - dy - 53)) with 53 by lia.
  cbv iota. rewrite Z.shiftl_mul_pow2 by lia.
  set (k := 53 + dy - dx).
  assert (Zpos (shl (n * y) (53 - dx)) * 2 ^ 53
          = Zpos (shl n k) * Zpos (shl y (53 - dy))) as Hq.
  { rewrite !shl_spec by lia. rewrite Pos2Z.inj_mul.
    transitivity (Zpos n * Zpos y * 2 ^ (53 - dx + 53)).
    - rewrite Z.pow_add_r by lia. ring.
    - replace (53 - dx + 53) with (k + (53 - dy)) by lia.
      rewrite Z.pow_add_r by lia. ring. }
  rewrite Hq.
  rewrite (surjective_pairing (Z.div_eucl _ _)).
  change (fst (Z.div_eucl ?a ?b)) with (a / b).
  change (snd (Z.div_eucl ?a ?b)) with (a mod b).
  rewrite Z.div_mul, Z.mod_mul by lia.
  rewrite new_location_zero. cbn [xorb].
  replace (dx - dy - 53) with (- k) by lia.
  apply binary_round_aux_exact; lia.
Qed.

(** [x / y] on the floats of two naturals, [y] dividing [x]: the float of
    the quotient. *)
Lemma float_div_exact (n y : Z) :
  0 <= n -> 0 < y < 2 ^ 53 -> n * y < 2 ^ 53 ->
  PrimFloat.div (float_of_int (n * y)) (float_of_int y) = float_of_int n.
Proof.
  intros Hn [Hy Hyb] Hb. apply Prim2SF_inj. rewrite FloatAxioms.div_spec.
  destruct y as [|y|y]; [lia| |lia].
  rewrite (Prim2SF_float_of_pos y) by (apply digits_below, Hyb).
  destruct n as [|n|n]; [| |lia].
  - rewrite Z.mul_0_l, Prim2SF_float_of_zero. reflexivity.
  - change (Zpos n * Zpos y) with (Zpos (n * y)) in *.
    assert (Zpos n < 2 ^ 53) as Hnb by nia.
    rewrite !Prim2SF_float_of_pos by (apply digits_below; assumption).
    apply SFdiv_canon, digits_below, Hb.
Qed.
(** ** Python arithmetic on floats that hold sector counts *)

Lemma small_nat (v : Z) : 0 <= v < 2 ^ 53 -> small v = true.
Proof. intros H. unfold small. apply Z.ltb_lt. lia. Qed.

Lemma truediv_float_int (v d : Z) :
  0 <= v < 2 ^ 53 -> 0 < d < 2 ^ 53 ->
  truediv (PyFloat (float_of_int v)) (PyInt d) = truediv (PyInt v) (PyInt d).
Proof.
  intros Hv Hd. unfold truediv, to_float, float_truediv, int_truediv.
  rewrite coerce_float_of_int by lia. cbn [bind].
  rewrite float_of_int_is_zero, !small_nat by lia.
  destruct (Z.eqb_spec d 0) as [|_]; [lia|]. reflexivity.
Qed.

Lemma truediv_multiple (b n : Z) :
  0 < b < 2 ^ 53 -> 0 <= n -> b * n < 2 ^ 53 ->
  truediv (PyInt (b * n)) (PyInt b) = Ok (PyFloat (float_of_int n)).
Proof.
  intros Hb Hn Hbn. unfold truediv, int_truediv.
  destruct (Z.eqb_spec b 0) as [|_]; [lia|].
  rewrite !small_nat by nia. cbn [andb bind].
  rewrite (Z.mul_comm b n), float_div_exact by lia. reflexivity.
Qed.

Lemma modulo_float_int (v d : Z) :
  0 <= v < 2 ^ 53 -> 0 < d < 2 ^ 53 ->
  modulo (PyFloat (float_of_int v)) (PyInt d)
  = Ok (PyFloat (float_of_int (v mod d))).
Proof.
  intros Hv Hd. unfold modulo, to_float.
  rewrite coerce_float_of_int by lia. cbn [bind].
  rewrite float_mod_float_of_int by lia. reflexivity.
Qed.

Lemma add_float_int (s o : Z) :
  0 <= s -> 0 <= o -> s + o < 2 ^ 53 ->
  Py.add (PyFloat (float_of_int s)) (PyInt o)
  = Ok (PyFloat (float_of_int (s + o))).
Proof.
  intros Hs Ho Hb. unfold Py.add, to_float.
  rewrite coerce_float_of_int by lia. cbn [bind].
  rewrite float_add_exact by lia. reflexivity.
Qed.

Lemma add_int_float (s n : Z) :
  0 <= s -> 0 <= n -> s + n < 2 ^ 53 ->
  Py.add (PyInt s) (PyFloat (float_of_int n))
  = Ok (PyFloat (float_of_int (s + n))).
Proof.
  intros Hs Ho Hb. unfold Py.add, to_float.
  rewrite coerce_float_of_int by lia. cbn [bind].
  rewrite float_add_exact by lia. reflexivity.
Qed.

Lemma add_float_float (s n : Z) :
  0 <= s -> 0 <= n -> s + n < 2 ^ 53 ->
  Py.add (PyFloat (float_of_int s)) (PyFloat (float_of_int n))
  = Ok (PyFloat (float_of_int (s + n))).
Proof.
  intros Hs Ho Hb. unfold Py.add, to_float. cbn [bind].
  rewrite float_add_exact by lia. reflexivity.
Qed.

(** A float sector count prints as the integer it holds. *)
Lemma sectors_to_cuestamp_float (n : Z) :
  0 <= n < 2 ^ 53 ->
  sectors_to_cuestamp (PyFloat (float_of_int n))
  = sectors_to_cuestamp (PyInt n).
Proof.
  intros Hn. unfold sectors_to_cuestamp.
  pose proof (Z.mod_pos_bound n 4500 ltac:(lia)) as H1.
  pose proof (Z.mod_pos_bound n 75 ltac:(lia)) as H2.
  rewrite !modulo_float_int, truediv_float_int by lia.
  cbn [modulo bind Z.eqb].
  rewrite (truediv_float_int (n mod 4500) 75) by lia.
  destruct (truediv (PyInt n) (PyInt 4500)) as [minutes|e]; [|reflexivity].
  cbn [bind].
  destruct (truediv (PyInt (n mod 4500)) (PyInt 75)) as [seconds|e];
    [|reflexivity].
  cbn [bind to_int]. rewrite float_trunc_float_of_int by lia. reflexivity.
Qed.

(** ** Decimal strings *)

Lemma int_acc_app (a b : string) (acc : Z) :
  int_acc (a +:+ b) acc = int_acc b (int_acc a acc).
Proof. revert acc. induction a as [|c a IH]; intros acc; simpl; auto. Qed.

Lemma all_digits_app (a b : string) :
  all_digits (a +:+ b) = all_digits a && all_digits b.
Proof.
  induction a as [|c a IH]; simpl; [reflexivity|].
  rewrite IH. apply andb_assoc.
Qed.

Lemma all_digits_zeros (n : nat) : all_digits (zeros n) = true.
Proof. induction n; simpl; auto. Qed.

Lemma int_acc_zeros (n : nat) : int_acc (zeros n) 0 = 0.
Proof. induction n; simpl; auto. Qed.

Lemma all_digits_uint (d : Decimal.uint) :
  all_digits (DecimalString.NilEmpty.string_of_uint d) = true.
Proof. induction d; simpl; auto. Qed.

Lemma int_acc_uint_pos (d : Decimal.uint) : forall p : positive,
  int_acc (DecimalString.NilEmpty.string_of_uint d) (Zpos p)
  = Zpos (Pos.of_uint_acc d p).
Proof.
  induction d as [|d IH|d IH|d IH|d IH|d IH|d IH|d IH|d IH|d IH|d IH];
    intros p; cbn [DecimalString.NilEmpty.string_of_uint int_acc Pos.of_uint_acc];
    [reflexivity|..]; rewrite <- IH; f_equal; unfold digit_value; simpl; lia.
Qed.

Lemma int_acc_uint (d : Decimal.uint) :
  int_acc (DecimalString.NilEmpty.string_of_uint d) 0 = Z.of_N (Pos.of_uint d).
Proof.
  induction d as [|d IH|d IH|d IH|d IH|d IH|d IH|d IH|d IH|d IH|d IH];
    cbn [DecimalString.NilEmpty.string_of_uint int_acc Pos.of_uint];
    [reflexivity|exact IH|..];
    match goal with
    | |- int_acc _ ?a = _ =>
        let v := eval cbv in a in change a with v
    end; apply int_acc_uint_pos.
Qed.

Lemma decimal_digit_run (n : N) : digit_run (decimal n).
Proof.
  unfold digit_run, decimal, DecimalString.NilZero.string_of_uint.
  destruct (N.to_uint n) eqn:E; split; try discriminate; try reflexivity;
    rewrite <- E || idtac; apply (all_digits_uint (_ _)).
Qed.

Lemma py_int_decimal (n : N) : py_int (decimal n) = Z.of_N n.
Proof.
  unfold py_int, decimal, DecimalString.NilZero.string_of_uint.
  rewrite <- (DecimalN.Unsigned.of_to n) at 2. unfold N.of_uint.
  destruct (N.to_uint n); try apply int_acc_uint. reflexivity.
Qed.

(** A non-negative number printed by [%0<w>d] is a run of digits that
    [int()] reads back. *)
Lemma fmt_0d_digit_run (w : nat) (z : Z) : 0 <= z -> digit_run (fmt_0d w z).
Proof.
  intros Hz. unfold fmt_0d.
  assert ((z <? 0) = false) as -> by (apply Z.ltb_ge; exact Hz).
  destruct (decimal_digit_run (Z.abs_N z)) as [Hne Hd].
  split.
  - change ("" +:+ ?s) with s. destruct (zeros _); [exact Hne|discriminate].
  - rewrite !all_digits_app, all_digits_zeros, Hd. reflexivity.
Qed.

Lemma py_int_fmt_0d (w : nat) (z : Z) : 0 <= z -> py_int (fmt_0d w z) = z.
Proof.
  intros Hz. unfold fmt_0d, py_int.
  assert ((z <? 0) = false) as -> by (apply Z.ltb_ge; exact Hz).
  rewrite !int_acc_app. cbn [int_acc]. rewrite int_acc_zeros.
  fold (py_int (decimal (Z.abs_N z))). rewrite py_int_decimal.
  rewrite N2Z.inj_abs_N. apply Z.abs_eq. exact Hz.
Qed.

(** ** Runs of digits under the matcher *)

Lemma length_app_string (a b : string) :
  String.length (a +:+ b) = (String.length a + String.length b)%nat.
Proof. induction a as [|c a IH]; simpl; auto. Qed.

Lemma string_app_nil_r (a : string) : a +:+ "" = a.
Proof.
  induction a as [|c a IH]; [reflexivity|].
  change (String c a +:+ "") with (String c (a +:+ "")). f_equal. exact IH.
Qed.

Lemma consumed_app (a b : string) : Re.consumed (a +:+ b) b = a.
Proof.
  unfold Re.consumed. rewrite length_app_string.
  replace (String.length a + String.length b - String.length b)%nat
    with (String.length a) by lia.
  induction a as [|c a IH]; simpl.
  - destruct b; reflexivity.
  - f_equal. exact IH.
Qed.

Section DigitRuns.
Context {A : Type}.
Implicit Types (cont : string -> option A) (a : A).

(** The greedy star stops at the end of the run when the rest of the
    pattern accepts there. *)
Lemma star_greedy_run cont a (ds rest : string) :
  all_digits ds = true ->
  starts_with_digit rest = false ->
  cont rest = Some a ->
  Re.star_greedy Re.Digit (ds +:+ rest) cont = Some a.
Proof.
  intros Hd Hr Hc. induction ds as [|c ds IH]; simpl in *.
  - destruct rest as [|c rest]; simpl in *; [exact Hc|].
    rewrite Hr. exact Hc.
  - apply andb_true_iff in Hd as [Hc' Hd]. rewrite Hc', (IH Hd).
    reflexivity.
Qed.

(** Whatever the star accepts is a split of the text after some digits. *)
Lemma star_greedy_inv cont a (s : string) :
  Re.star_greedy Re.Digit s cont = Some a ->
  exists ds rest, s = ds +:+ rest /\ all_digits ds = true
                  /\ cont rest = Some a.
Proof.
  induction s as [|c s IH]; simpl; intros H.
  - exists EmptyString, EmptyString. auto.
  - destruct (is_digit c) eqn:Ec.
    + destruct (Re.star_greedy Re.Digit s cont) as [a'|] eqn:E.
      * injection H as ->. destruct (IH eq_refl) as (ds & rest & -> & Hd & Hc).
        exists (String c ds), rest. simpl. rewrite Ec, Hd. auto.
      * exists EmptyString, (String c s). auto.
    + exists EmptyString, (String c s). auto.
Qed.
End DigitRuns.

Lemma strip_app (p s : string) : Re.strip p (p +:+ s) = Some s.
Proof.
  induction p as [|c p IH]; simpl; [reflexivity|].
  rewrite Ascii.eqb_refl. exact IH.
Qed.

Lemma strip_inv (p s s' : string) : Re.strip p s = Some s' -> s = p +:+ s'.
Proof.
  revert s. induction p as [|c p IH]; intros s; simpl.
  - intros [= ->]. reflexivity.
  - destruct s as [|b s]; [discriminate|].
    destruct (Ascii.eqb_spec c b) as [->|]; [|discriminate].
    intros H. rewrite (IH _ H). reflexivity.
Qed.

Section DigitGroups.
Context {A : Type}.
Implicit Types (cont : string -> list string -> option A) (a : A).

Lemma exec_cat r1 r2 s g cont :
  Re.exec (Re.Cat r1 r2) s g cont
  = Re.exec r1 s g (fun s' g' => Re.exec r2 s' g' cont).
Proof. reflexivity. Qed.

Lemma exec_lit_app p s g cont :
  Re.exec (Re.Lit p) (p +:+ s) g cont = cont s g.
Proof. cbn [Re.exec]. rewrite strip_app. reflexivity. Qed.

Lemma exec_lit_inv p s g cont a :
  Re.exec (Re.Lit p) s g cont = Some a ->
  exists s', s = p +:+ s' /\ cont s' g = Some a.
Proof.
  cbn [Re.exec]. destruct (Re.strip p s) as [s'|] eqn:E; [|discriminate].
  intros H. exists s'. split; [exact (strip_inv _ _ _ E)|exact H].
Qed.

Lemma exec_digit_group cont a (g : list string) (ds rest : string) :
  digit_run ds ->
  starts_with_digit rest = false ->
  cont rest (g ++ [ds])%list = Some a ->
  Re.exec (Re.Grp (Re.Plus Re.Digit)) (ds +:+ rest) g cont = Some a.
Proof.
  intros [Hne Hd] Hr Hc. destruct ds as [|c ds]; [congruence|].
  simpl in Hd. apply andb_true_iff in Hd as [Hc' Hd].
  cbn [Re.exec].
  change (String c ds +:+ rest) with (String c (ds +:+ rest)) at 1.
  unfold Re.cmatch at 1. rewrite Hc'.
  apply star_greedy_run; [exact Hd|exact Hr|].
  rewrite consumed_app. exact Hc.
Qed.

Lemma exec_digit_group_inv cont a (g : list string) (s : string) :
  Re.exec (Re.Grp (Re.Plus Re.Digit)) s g cont = Some a ->
  exists ds rest, s = ds +:+ rest /\ digit_run ds
                  /\ cont rest (g ++ [ds])%list = Some a.
Proof.
  cbn [Re.exec]. destruct s as [|c s]; [discriminate|].
  unfold Re.cmatch at 1. destruct (is_digit c) eqn:Ec; [|discriminate].
  intros H. apply star_greedy_inv in H as (ds & rest & -> & Hd & Hc).
  exists (String c ds), rest. split; [reflexivity|]. split.
  - split; [discriminate|]. simpl. rewrite Ec, Hd. reflexivity.
  - change (String c (ds +:+ rest)) with (String c ds +:+ rest) in Hc.
    rewrite consumed_app in Hc. exact Hc.
Qed.
End DigitGroups.

(** ** [cuestamp_to_sectors] on its accepted language *)

Lemma cuestamp_to_sectors_run (d1 d2 d3 rest : string) :
  digit_run d1 -> digit_run d2 -> digit_run d3 ->
  starts_with_digit rest = false ->
  cuestamp_to_sectors (d1 +:+ ":" +:+ d2 +:+ ":" +:+ d3 +:+ rest)
  = Ok (py_int d3 + py_int d2 * 75 + py_int d1 * 60 * 75).
Proof.
  intros H1 H2 H3 Hr. unfold cuestamp_to_sectors, Re.rmatch, stamp_re.
  cbn [Re.cat].
  assert (Re.exec
    (Re.Cat (Re.Grp (Re.Plus Re.Digit))
       (Re.Cat (Re.Lit ":")
          (Re.Cat (Re.Grp (Re.Plus Re.Digit))
             (Re.Cat (Re.Lit ":") (Re.Grp (Re.Plus Re.Digit))))))
    (d1 +:+ ":" +:+ d2 +:+ ":" +:+ d3 +:+ rest) []
    (fun _ g => Some g) = Some [d1; d2; d3]) as ->; [|reflexivity].
  rewrite exec_cat. apply exec_digit_group; [exact H1|reflexivity|].
  rewrite exec_cat, exec_lit_app, exec_cat.
  apply exec_digit_group; [exact H2|reflexivity|].
  rewrite exec_cat, exec_lit_app.
  apply exec_digit_group; [exact H3|exact Hr|]. reflexivity.
Qed.

(** ** Timestamps round-trip *)

(** C1. For every integer [x] with [0 <= x < 100*60*75], printing [x] as a
    timestamp with [sectors_to_cuestamp] and reading the timestamp back with
    [cuestamp_to_sectors] gives [x] again; neither call raises. *)
Theorem cuestamp_roundtrip (x : Z) :
  0 <= x < 100 * 60 * 75 ->
  (stamp <- sectors_to_cuestamp (PyInt x) ;; cuestamp_to_sectors stamp) = Ok x.
Proof.
  intros Hx. rewrite sectors_to_cuestamp_int by lia. cbn [bind].
  assert (0 <= x / 4500) as Hm by (apply Z.div_pos; lia).
  assert (0 <= x mod 4500 < 4500) as Hr by (apply Z.mod_pos_bound; lia).
  assert (0 <= x mod 4500 / 75) as Hs by (apply Z.div_pos; lia).
  assert (0 <= x mod 75 < 75) as Hf by (apply Z.mod_pos_bound; lia).
  rewrite <- (string_app_nil_r (fmt_0d 2 (x mod 75))) at 1.
  rewrite cuestamp_to_sectors_run;
    [|apply fmt_0d_digit_run; lia..|reflexivity].
  rewrite !py_int_fmt_0d by lia. f_equal.
  Z.div_mod_to_equations. lia.
Qed.

Lemma cuestamp_roundtrip_witness :
  0 <= 162074 < 100 * 60 * 75 /\
  (stamp <- sectors_to_cuestamp (PyInt 162074) ;; cuestamp_to_sectors stamp)
  = Ok 162074.
Proof.
  assert (0 <= 162074 < 100 * 60 * 75) as H by lia.
  exact (conj H (cuestamp_roundtrip 162074 H)).
Defined.

(** ** The merge engine refuses an existing target *)

(** C5. When the output path already exists, [merge_files] raises
    [ErrorException] (target exists) and leaves the file system exactly as
    it was: the check comes before the output file is created. *)
Theorem merge_files_target_exists (merged_filename : string)
    (fls : list File.t) (fs : filesystem) :
  Os.exists_ fs merged_filename = true ->
  merge_files merged_filename fls fs
  = (Err (ErrorException (TargetBinPathExists merged_filename)), fs).
Proof. intros H. unfold merge_files. rewrite H. reflexivity. Qed.

Lemma merge_files_target_exists_witness :
  merge_files "out.bin" [File.mk "a.bin" [] 3]
    (<["out.bin" := RegularFile true [x01]]>
       (<["a.bin" := RegularFile true [x01; x02; x03]]> ∅))
  = (Err (ErrorException (TargetBinPathExists "out.bin")),
     <["out.bin" := RegularFile true [x01]]>
       (<["a.bin" := RegularFile true [x01; x02; x03]]> ∅)).
Proof. apply merge_files_target_exists. reflexivity. Defined.

(** ** The split engine refuses existing targets *)

Lemma check_targets_free (fs : filesystem) (base : string) (count : Z)
    (l : list Track.t) :
  Forall (fun x => Os.exists_ fs (track_filename base (Track.num x) count)
                   = false) l ->
  check_targets fs base count l = Ok tt.
Proof.
  induction 1 as [|x l Hx _ IH]; cbn [check_targets]; [reflexivity|].
  rewrite Hx. exact IH.
Qed.

Lemma check_targets_taken (fs : filesystem) (base : string) (count : Z)
    (l : list Track.t) :
  Exists (fun x => Os.exists_ fs (track_filename base (Track.num x) count)
                   = true) l ->
  exists x, x ∈ l
    /\ Os.exists_ fs (track_filename base (Track.num x) count) = true
    /\ check_targets fs base count l
       = Err (ErrorException
                (TargetBinPathExists
                   (track_filename base (Track.num x) count))).
Proof.
  induction l as [|y l IH]; intros H; [inversion H|].
  cbn [check_targets].
  destruct (Os.exists_ fs (track_filename base (Track.num y) count)) eqn:E.
  - exists y. split; [left|]. auto.
  - apply Exists_cons in H as [H|H]; [congruence|].
    destruct (IH H) as (x & Hin & Hx & Hc). exists x.
    split; [right; exact Hin|]. auto.
Qed.

(** C6, the claim as stated fails: the source binary is opened before the
    targets are checked.  With a target already there and a source that
    cannot be opened (here: not readable, which the parser lets through),
    [split_files] raises [PermissionError], not the target-exists error. *)
Lemma split_files_unreadable_source_counterexample :
  let fs : filesystem :=
    <["game.bin" := RegularFile false [x01; x02]]>
      (<["G (Track 1).bin" := RegularFile true []]> ∅) in
  let merged_file := File.mk "game.bin" [Track.mk 1 [] "AUDIO" (Some 1)] 2 in
  Os.exists_ fs (track_filename "G" 1 1) = true
  /\ split_files (Some 2) "G" merged_file fs
     = (Err (PermissionError "game.bin"), fs).
Proof. split; reflexivity. Qed.

(** C6, amended.  If any computed target name already exists, [split_files]
    raises and leaves the file system exactly as it was: no output file is
    created, whichever track the taken name belongs to.  The exception is
    the target-exists [ErrorException], naming a taken target, whenever the
    source binary can be opened; otherwise it is the error of [open]. *)
Theorem split_files_target_exists (gb : option Z) (new_basename : string)
    (merged_file : File.t) (fs : filesystem) :
  let count := Z.of_nat (length (File.tracks merged_file)) in
  Exists (fun x => Os.exists_ fs
                     (track_filename new_basename (Track.num x) count) = true)
    (File.tracks merged_file) ->
  (split_files gb new_basename merged_file fs).2 = fs
  /\ is_ok (split_files gb new_basename merged_file fs).1 = false
  /\ (is_ok (Os.open_rb fs (File.filename merged_file)) = true ->
      exists x, x ∈ File.tracks merged_file
        /\ Os.exists_ fs (track_filename new_basename (Track.num x) count)
           = true
        /\ (split_files gb new_basename merged_file fs).1
           = Err (ErrorException
                    (TargetBinPathExists
                       (track_filename new_basename (Track.num x) count))))
  /\ (forall e, Os.open_rb fs (File.filename merged_file) = Err e ->
       (split_files gb new_basename merged_file fs).1 = Err e).
Proof.
  intros count H. unfold split_files. fold count.
  destruct (Os.open_rb fs (File.filename merged_file)) as [infile|e].
  - destruct (check_targets_taken _ _ _ _ H) as (x & Hin & Hx & Hc).
    rewrite Hc. cbn. split; [reflexivity|]. split; [reflexivity|].
    split; [|discriminate]. intros _. exists x. auto.
  - cbn. split; [reflexivity|]. split; [reflexivity|].
    split; [discriminate|]. intros e' [= <-]. reflexivity.
Qed.

Lemma split_files_target_exists_witness :
  let fs : filesystem :=
    <["game.bin" := RegularFile true [x01; x02]]>
      (<["G (Track 2).bin" := RegularFile true []]> ∅) in
  let merged_file :=
    File.mk "game.bin" [Track.mk 1 [] "AUDIO" (Some 1);
                        Track.mk 2 [] "AUDIO" (Some 1)] 2 in
  (split_files (Some 1) "G" merged_file fs).2 = fs
  /\ is_ok (split_files (Some 1) "G" merged_file fs).1 = false.
Proof.
  intros fs merged_file.
  assert (Exists (fun x => Os.exists_ fs
                     (track_filename "G" (Track.num x)
                        (Z.of_nat (length (File.tracks merged_file)))) = true)
            (File.tracks merged_file)) as H.
  { right. left. reflexivity. }
  destruct (split_files_target_exists (Some 1) "G" merged_file fs H)
    as (H1 & H2 & _).
  exact (conj H1 H2).
Defined.

(** ** The split engine copies consecutive slices *)

Lemma write_insert (out : string) (chunk d : list byte) (r : bool)
    (fs : filesystem) :
  fs !! out = Some (RegularFile r d) ->
  Os.write out chunk fs = <[out := RegularFile r (d ++ chunk)]> fs.
Proof.
  intros H. unfold Os.write. apply map_eq. intros p.
  destruct (decide (out = p)) as [->|Hne].
  - rewrite lookup_alter_eq, lookup_insert_eq, H. reflexivity.
  - rewrite lookup_alter_ne, lookup_insert_ne by exact Hne. reflexivity.
Qed.

Lemma read_nonneg (n : Z) (rest : list byte) :
  0 <= n -> Os.read n rest = (take (Z.to_nat n) rest, drop (Z.to_nat n) rest).
Proof.
  intros H. unfold Os.read.
  destruct (Z.ltb_spec n 0); [lia|reflexivity].
Qed.

Lemma read_checked_nonneg (n : Z) (rest : list byte) :
  0 <= n ->
  Os.read_checked n rest
  = Ok (take (Z.to_nat n) rest, drop (Z.to_nat n) rest).
Proof.
  intros H. unfold Os.read_checked.
  destruct (Z.ltb_spec n (-1)); [lia|]. rewrite read_nonneg by exact H.
  reflexivity.
Qed.

(** The loop of one track, whatever the chunk size: it appends the next
    [tracksize - written] bytes to the output and leaves the rest. *)
Lemma split_loop_spec (cs : positive) (tracksize written : Z) (out : string)
    (rest : list byte) (fs : filesystem) :
  forall (r : bool) (d : list byte),
  written <= tracksize ->
  fs !! out = Some (RegularFile r d) ->
  split_loop cs tracksize written out rest fs
  = (Ok (drop (Z.to_nat (tracksize - written)) rest),
     <[out := RegularFile r (d ++ take (Z.to_nat (tracksize - written)) rest)]>
       fs).
Proof.
  funelim (split_loop cs tracksize written out rest fs);
    intros r d Hle Hfs.
  - rewrite read_checked_nonneg by lia.
    rewrite (write_insert _ _ _ _ _ Hfs). reflexivity.
  - rewrite read_nonneg by lia.
    rewrite (write_insert _ _ _ _ _ Hfs).
    replace (Z.to_nat (tracksize - written)) with (Z.to_nat (Z.pos csize))
      by lia.
    reflexivity.
  - rewrite read_nonneg in * by lia. cbn [fst snd] in *.
    rewrite (write_insert _ _ _ _ _ Hfs) in *.
    rewrite (H r (d ++ take (Z.to_nat (Z.pos csize)) rest)%list)
      by (try lia; apply lookup_insert_eq).
    rewrite drop_drop, insert_insert_eq, <- app_assoc, take_take_drop.
    replace (Z.to_nat (Z.pos csize)
             + Z.to_nat (tracksize - (written + Z.pos csize)))%nat
      with (Z.to_nat (tracksize - written)) by lia.
    reflexivity.
Qed.

Lemma open_wb_fresh (fs : filesystem) (p : string) :
  (fs !! p = None \/ exists d, fs !! p = Some (RegularFile true d)) ->
  Os.open_wb fs p = Ok (<[p := RegularFile true []]> fs).
Proof.
  unfold Os.open_wb. intros [->|[d ->]]; reflexivity.
Qed.

(** The targets are free, or hold what an earlier track of this run wrote. *)
Definition target_ok (fs : filesystem) (base : string) (count : Z)
    (x : Track.t) : Prop :=
  fs !! track_filename base (Track.num x) count = None
  \/ exists d, fs !! track_filename base (Track.num x) count
               = Some (RegularFile true d).

Lemma split_tracks_spec (b : Z) (base : string) (count : Z)
    (data : list byte) (l : list Track.t) :
  forall (start : nat) (fs : filesystem),
  Forall (fun x => exists s, Track.sectors x = Some s /\ 0 <= s * b) l ->
  Forall (target_ok fs base count) l ->
  split_tracks (Some b) base count l (drop start data) fs
  = (Ok tt, expected_outputs b base count l start data fs).
Proof.
  induction l as [|x l IH]; intros start fs Hs Ht; [reflexivity|].
  apply Forall_cons in Hs as [(s & Hsx & Hpos) Hs].
  apply Forall_cons in Ht as [Hx Ht].
  cbn [split_tracks expected_outputs]. unfold track_bytes at 1 2.
  rewrite Hsx. cbn [mul_attr from_option id].
  rewrite (open_wb_fresh _ _ Hx).
  rewrite (split_loop_spec _ _ _ _ _ _ true []) by
    (try lia; apply lookup_insert_eq).
  rewrite insert_insert_eq, Z.sub_0_r, drop_drop. cbn [app].
  apply IH; [exact Hs|].
  eapply Forall_impl; [exact Ht|]. intros y Hy. unfold target_ok in *.
  destruct (decide (track_filename base (Track.num x) count
                    = track_filename base (Track.num y) count)) as [E|E].
  - right. rewrite <- E, lookup_insert_eq. eauto.
  - rewrite lookup_insert_ne by exact E. exact Hy.
Qed.

Lemma expected_outputs_other (b : Z) (base : string) (count : Z)
    (data : list byte) (p : string) (l : list Track.t) :
  forall (start : nat) (fs : filesystem),
  p ∉ map (fun x => track_filename base (Track.num x) count) l ->
  expected_outputs b base count l start data fs !! p = fs !! p.
Proof.
  induction l as [|x l IH]; intros start fs Hp; [reflexivity|].
  cbn [expected_outputs map] in *. apply not_elem_of_cons in Hp as [Hne Hp].
  rewrite IH by exact Hp. apply lookup_insert_ne. congruence.
Qed.

(** With pairwise distinct target names, each track's file holds its slice. *)
Lemma expected_outputs_lookup (b : Z) (base : string) (count : Z)
    (data : list byte) (l : list Track.t) :
  forall (start : nat) (fs : filesystem) (k : nat) (x : Track.t),
  NoDup (map (fun x => track_filename base (Track.num x) count) l) ->
  l !! k = Some x ->
  expected_outputs b base count l start data fs
    !! track_filename base (Track.num x) count
  = Some (RegularFile true
            (take (track_bytes b x)
               (drop (start + track_start b l k) data))).
Proof.
  induction l as [|y l IH]; intros start fs k x Hnd Hk; [discriminate|].
  cbn [map] in Hnd. apply NoDup_cons in Hnd as [Hy Hnd].
  destruct k as [|k]; cbn [expected_outputs].
  - injection Hk as ->. rewrite expected_outputs_other by exact Hy.
    rewrite lookup_insert_eq. unfold track_start. cbn.
    rewrite Nat.add_0_r. reflexivity.
  - rewrite (IH _ _ k x Hnd Hk). unfold track_start. cbn.
    rewrite Nat.add_assoc. reflexivity.
Qed.

Lemma expected_outputs_length (b : Z) (l : list Track.t) :
  forall (data : list byte) (k : nat) (x : Track.t),
  (sum_list_with (track_bytes b) l <= length data)%nat ->
  l !! k = Some x ->
  length (take (track_bytes b x) (drop (track_start b l k) data))
  = track_bytes b x.
Proof.
  intros data k x Hsum Hk. rewrite length_take, length_drop.
  unfold track_start.
  rewrite <- (take_drop_middle l k x Hk), sum_list_with_app in Hsum.
  cbn [sum_list_with] in Hsum. lia.
Qed.

(** ** The back-fill of sector counts *)

Lemma backfilled_snoc (l : list Track.t) (x : Track.t) (end_ : Z) :
  backfilled (l ++ [x]) end_
  = backfilled l (first_offset x)
    ++ [Track.set_sectors (end_ - first_offset x) x].
Proof.
  induction l as [|y l IH]; [reflexivity|].
  cbn [app backfilled]. rewrite IH. destruct l; reflexivity.
Qed.

(** The reverse walk computes [backfilled]. *)
Lemma backfill_spec (l : list Track.t) :
  forall (next : Z) (done : list Track.t),
  Forall (fun x => Track.indexes x <> []) l ->
  backfill (rev l) next done = Ok (backfilled l next ++ done).
Proof.
  induction l as [|x l IH] using rev_ind; intros next done H; [reflexivity|].
  apply Forall_app in H as [Hl Hx]. apply Forall_cons in Hx as [Hx _].
  rewrite rev_unit. cbn [backfill].
  destruct (Track.indexes x) as [|i il] eqn:E; [congruence|].
  rewrite (IH _ _ Hl), backfilled_snoc. unfold first_offset. rewrite E.
  cbn [head from_option]. rewrite <- app_assoc. reflexivity.
Qed.

Lemma backfilled_lookup (l : list Track.t) (end_ : Z) :
  forall (k : nat) (x : Track.t),
  l !! k = Some x ->
  backfilled l end_ !! k
  = Some (Track.set_sectors
            (match l !! S k with Some y => first_offset y | None => end_ end
             - first_offset x) x).
Proof.
  induction l as [|y l IH]; intros k x Hk; [discriminate|].
  destruct k as [|k].
  - injection Hk as ->. cbn. destruct l; reflexivity.
  - cbn [backfilled]. cbn [lookup list_lookup] in *. exact (IH k x Hk).
Qed.

Lemma calc_sectors_single (f : File.t) (b : Z) :
  b <> 0 ->
  Forall (fun x => Track.indexes x <> []) (File.tracks f) ->
  calc_sectors [f] (Some b)
  = Ok [File.set_tracks (backfilled (File.tracks f) (File.size f / b)) f].
Proof.
  intros Hb H. unfold calc_sectors, floordiv.
  destruct (Z.eqb_spec b 0) as [|_]; [contradiction|]. cbn [bind].
  rewrite (backfill_spec _ _ _ H), app_nil_r. reflexivity.
Qed.

(** The example cuesheet, whatever the bytes of the binary: the parse up to
    the back-fill. *)
Lemma example_cue_lines (data : list byte) :
  read_cue_lines (example_cue_fs data) "/d/game.cue"
    (readlines (list_byte_of_string example_cue)) (mkLocals [] None None) None
  = (Ok (mkLocals
           [File.mk "/d/game.bin"
              [Track.mk 1 [Index.mk 1 "00:00:00" 0] "MODE1/2352" None;
               Track.mk 2 [Index.mk 1 "02:40:00" 12000] "AUDIO" None]
              (Z.of_nat (length data))]
           (Some (O, 1%nat)) (Some O)),
     Some 2352).
Proof. vm_compute. reflexivity. Qed.

(** C3. When the lines of a cuesheet yield exactly one file whose tracks
    each have an index (and a Blocksize [b] is set), [read_cue_file] returns
    that file with every track's [sectors] filled in by the reverse walk: the
    last track gets [size // b] minus its first index's offset, every earlier
    track the next track's first-index offset minus its own.  In particular
    one FILE with two tracks whose INDEX 01 are at sectors 0 and 12000, over a
    binary of [2352 * 15000] bytes, gives sector counts 12000 and 3000. *)
Theorem read_cue_file_backfill :
  (forall (fs : filesystem) (cue_path : string) (gb : option Z)
          (data : list byte) (st : locals) (b : Z) (f : File.t),
      Os.open_rb fs cue_path = Ok data ->
      read_cue_lines fs cue_path (readlines data) (mkLocals [] None None) gb
      = (Ok st, Some b) ->
      b <> 0 ->
      files st = [f] ->
      Forall (fun x => Track.indexes x <> []) (File.tracks f) ->
      read_cue_file fs cue_path gb
      = (Ok [File.set_tracks (backfilled (File.tracks f) (File.size f / b)) f],
         Some b)
      /\ forall k x, File.tracks f !! k = Some x ->
           backfilled (File.tracks f) (File.size f / b) !! k
           = Some (Track.set_sectors
                     (match File.tracks f !! S k with
                      | Some y => first_offset y
                      | None => File.size f / b
                      end - first_offset x) x))
  /\ (forall data : list byte,
        Z.of_nat (length data) = 2352 * 15000 ->
        read_cue_file (example_cue_fs data) "/d/game.cue" None
        = (Ok [File.mk "/d/game.bin"
                 [Track.mk 1 [Index.mk 1 "00:00:00" 0] "MODE1/2352"
                    (Some 12000);
                  Track.mk 2 [Index.mk 1 "02:40:00" 12000] "AUDIO"
                    (Some 3000)]
                 (2352 * 15000)],
           Some 2352)).
Proof.
  assert (forall (fs : filesystem) (cue_path : string) (gb : option Z)
            (data : list byte) (st : locals) (b : Z) (f : File.t),
      Os.open_rb fs cue_path = Ok data ->
      read_cue_lines fs cue_path (readlines data) (mkLocals [] None None) gb
      = (Ok st, Some b) ->
      b <> 0 ->
      files st = [f] ->
      Forall (fun x => Track.indexes x <> []) (File.tracks f) ->
      read_cue_file fs cue_path gb
      = (Ok [File.set_tracks (backfilled (File.tracks f) (File.size f / b)) f],
         Some b)) as General.
  { intros fs cue_path gb data st b f Hopen Hlines Hb Hf Hidx.
    unfold read_cue_file. rewrite Hopen, Hlines, Hf.
    rewrite (calc_sectors_single f b Hb Hidx). reflexivity. }
  split.
  - intros fs cue_path gb data st b f Hopen Hlines Hb Hf Hidx.
    split; [eapply General; eassumption|].
    intros k x Hk. apply backfilled_lookup. exact Hk.
  - intros data Hlen.
    rewrite (General (example_cue_fs data) "/d/game.cue" None
               (list_byte_of_string example_cue) _ 2352 _ eq_refl
               (example_cue_lines data)
               ltac:(lia) eq_refl ltac:(repeat constructor; discriminate)).
    cbn [File.tracks File.size File.set_tracks File.filename backfilled].
    rewrite Hlen. reflexivity.
Qed.

Lemma read_cue_file_backfill_witness :
  read_cue_file (example_cue_fs (repeat x00 (Z.to_nat 4704))) "/d/game.cue" None
  = (Ok [File.set_tracks
           (backfilled
              [Track.mk 1 [Index.mk 1 "00:00:00" 0] "MODE1/2352" None;
               Track.mk 2 [Index.mk 1 "02:40:00" 12000] "AUDIO" None]
              (Z.of_nat (length (repeat x00 (Z.to_nat 4704))) / 2352))
           (File.mk "/d/game.bin"
              [Track.mk 1 [Index.mk 1 "00:00:00" 0] "MODE1/2352" None;
               Track.mk 2 [Index.mk 1 "02:40:00" 12000] "AUDIO" None]
              (Z.of_nat (length (repeat x00 (Z.to_nat 4704)))))],
     Some 2352).
Proof.
  refine (proj1 (proj1 read_cue_file_backfill
                   (example_cue_fs (repeat x00 (Z.to_nat 4704)))
                   "/d/game.cue" None (list_byte_of_string example_cue)
                   _ 2352 _ eq_refl (example_cue_lines _) _ eq_refl _)).
  - lia.
  - repeat constructor; discriminate.
Defined.

(** ** [cuestamp_to_sectors] accepts a prefix *)

(** C8, the claim as stated fails: characters after a [MM:SS:FF] prefix are
    ignored, the string is not refused. *)
Lemma cuestamp_to_sectors_trailing_counterexample :
  cuestamp_to_sectors "01:02:03xyz" = Ok (3 + 2 * 75 + 1 * 60 * 75).
Proof. reflexivity. Qed.

Lemma stamp_match_inv (s : string) (g : list string) :
  Re.rmatch stamp_re s = Some g ->
  exists d1 d2 d3 rest,
    digit_run d1 /\ digit_run d2 /\ digit_run d3
    /\ s = d1 +:+ ":" +:+ d2 +:+ ":" +:+ d3 +:+ rest.
Proof.
  unfold Re.rmatch, stamp_re. cbn [Re.cat]. rewrite exec_cat. intros H.
  apply exec_digit_group_inv in H as (d1 & r1 & -> & H1 & H).
  rewrite exec_cat in H. apply exec_lit_inv in H as (r2 & -> & H).
  rewrite exec_cat in H.
  apply exec_digit_group_inv in H as (d2 & r3 & -> & H2 & H).
  rewrite exec_cat in H. apply exec_lit_inv in H as (r4 & -> & H).
  apply exec_digit_group_inv in H as (d3 & r5 & -> & H3 & H).
  exists d1, d2, d3, r5. auto.
Qed.

(** C8, amended.  On a string that starts with three runs of digits
    separated by colons, whatever follows the third run, [cuestamp_to_sectors]
    returns [frames + seconds*75 + minutes*60*75]; on every string that does
    not start so it raises [AttributeError] (the failed match is [None]). *)
Theorem cuestamp_to_sectors_prefix :
  (forall d1 d2 d3 rest : string,
      digit_run d1 -> digit_run d2 -> digit_run d3 ->
      starts_with_digit rest = false ->
      cuestamp_to_sectors (d1 +:+ ":" +:+ d2 +:+ ":" +:+ d3 +:+ rest)
      = Ok (py_int d3 + py_int d2 * 75 + py_int d1 * 60 * 75))
  /\ (forall s : string,
        (forall d1 d2 d3 rest : string,
            digit_run d1 -> digit_run d2 -> digit_run d3 ->
            s <> d1 +:+ ":" +:+ d2 +:+ ":" +:+ d3 +:+ rest) ->
        cuestamp_to_sectors s = Err AttributeError).
Proof.
  split; [exact cuestamp_to_sectors_run|].
  intros s H. unfold cuestamp_to_sectors.
  destruct (Re.rmatch stamp_re s) as [g|] eqn:E; [|reflexivity].
  apply stamp_match_inv in E as (d1 & d2 & d3 & rest & H1 & H2 & H3 & ->).
  exfalso. exact (H d1 d2 d3 rest H1 H2 H3 eq_refl).
Qed.

Lemma cuestamp_to_sectors_prefix_witness :
  cuestamp_to_sectors ("02" +:+ ":" +:+ "40" +:+ ":" +:+ "00" +:+ " x")
  = Ok (py_int "00" + py_int "40" * 75 + py_int "02" * 60 * 75).
Proof.
  apply (proj1 cuestamp_to_sectors_prefix);
    try (split; [discriminate|reflexivity]); reflexivity.
Defined.

(** ** The FILE line and the binary it names *)

Lemma read_cue_line_file (fs : filesystem) (cue_path line : string)
    (st : locals) (gb : option Z) (m : list string) :
  Re.search file_re line = Some m ->
  let this_path := Os.join (Os.dirname cue_path) (Re.group m 1) in
  (fs !! this_path = None ->
   read_cue_line fs cue_path line st gb
   = (Err (ErrorException (BinFileNotFoundOrNotReadable this_path)), gb))
  /\ (forall r d, fs !! this_path = Some (RegularFile r d) ->
      read_cue_line fs cue_path line st gb
      = (Ok (mkLocals (files st ++ [File.mk this_path [] (Z.of_nat (length d))])
               (this_track st) (Some (length (files st)))), gb)).
Proof.
  intros Hm this_path. unfold read_cue_line. rewrite Hm. fold this_path.
  unfold Os.isfile, Os.access_R_OK, File.__init__, Os.getsize. split.
  - intros ->. reflexivity.
  - intros r d ->. reflexivity.
Qed.

(** C7, on the code.  A FILE line whose binary does not exist makes the parse
    raise [ErrorException] (bin file not found or not readable); but a binary
    that exists as a regular file and is not readable is accepted: the test is
    [not (isfile or access)], so [isfile] alone lets the path through. *)
Theorem read_cue_file_unreadable_bin :
  (forall (fs : filesystem) (cue_path line : string) (st : locals)
          (gb : option Z) (m : list string),
      Re.search file_re line = Some m ->
      let this_path := Os.join (Os.dirname cue_path) (Re.group m 1) in
      (fs !! this_path = None ->
       read_cue_line fs cue_path line st gb
       = (Err (ErrorException (BinFileNotFoundOrNotReadable this_path)), gb))
      /\ (forall d, fs !! this_path = Some (RegularFile false d) ->
          is_ok (read_cue_line fs cue_path line st gb).1 = true))
  /\ read_cue_file (small_fs false) "/d/game.cue" None
     = (Ok [File.mk "/d/game.bin"
              [Track.mk 1 [Index.mk 1 "00:00:00" 0] "MODE1/2352" (Some 1);
               Track.mk 2 [Index.mk 1 "00:00:01" 1] "AUDIO" (Some 1)]
              4704],
        Some 2352).
Proof.
  split.
  - intros fs cue_path line st gb m Hm this_path.
    destruct (read_cue_line_file fs cue_path line st gb m Hm) as [H1 H2].
    split; [exact H1|]. intros d Hd. fold this_path in H2.
    rewrite (H2 false d Hd). reflexivity.
  - vm_compute. reflexivity.
Qed.

(** ** The Blocksize is locked by the first TRACK declaration *)

Lemma lock_table (tag : string) :
  Track.lock tag None
  = if string_in tag ["AUDIO"; "MODE1/2352"; "MODE2/2352"; "CDI/2352"]
    then Some 2352
    else if String.eqb tag "CDG" then Some 2448
    else if String.eqb tag "MODE1/2048" then Some 2048
    else if string_in tag ["MODE2/2336"; "CDI/2336"] then Some 2336
    else None.
Proof. reflexivity. Qed.

Lemma lock_unknown (tag : string) :
  string_in tag known_types = false <-> Track.lock tag None = None.
Proof.
  unfold Track.lock, known_types, string_in. cbn [existsb].
  destruct (String.eqb tag "AUDIO"), (String.eqb tag "CDG"),
    (String.eqb tag "MODE1/2048"), (String.eqb tag "MODE1/2352"),
    (String.eqb tag "MODE2/2336"), (String.eqb tag "MODE2/2352"),
    (String.eqb tag "CDI/2336"), (String.eqb tag "CDI/2352");
    cbn; split; congruence.
Qed.

Lemma lock_values (tag : string) (b : Z) :
  Track.lock tag None = Some b -> b ∈ [2352; 2448; 2048; 2336].
Proof.
  unfold Track.lock.
  repeat match goal with
         | |- context [if ?c then _ else _] => destruct c
         end; intros [= <-]; set_solver.
Qed.

Lemma truthy_lock (tag : string) (gb : option Z) :
  Track.lock tag None = gb -> gb <> None -> truthy gb = true.
Proof.
  intros <- H. destruct (Track.lock tag None) as [b|] eqn:E; [|congruence].
  apply lock_values in E. cbn. set_unfold.
  destruct E as [->|[->|[->|[->|[]]]]]; reflexivity.
Qed.

(** Once set, the class attribute is left alone by the constructor. *)
Lemma init_locked (num : Z) (tag : string) (gb : option Z) :
  truthy gb = true ->
  Track.__init__ num tag gb = (Ok (Track.mk num [] tag None), gb).
Proof. intros H. unfold Track.__init__. rewrite H. reflexivity. Qed.

Lemma init_unlocked (num : Z) (tag : string) :
  Track.__init__ num tag None
  = match Track.lock tag None with
    | Some b => (Ok (Track.mk num [] tag None), Some b)
    | None => (Err TypeError, None)
    end.
Proof.
  unfold Track.__init__. cbn [truthy negb].
  destruct (Track.lock tag None); reflexivity.
Qed.

(** ... and so by every line of the cuesheet. *)
Lemma read_cue_line_locked (fs : filesystem) (cue_path line : string)
    (st : locals) (gb : option Z) :
  truthy gb = true -> (read_cue_line fs cue_path line st gb).2 = gb.
Proof.
  intros H. unfold read_cue_line.
  destruct (Re.search file_re line).
  - destruct (negb _); reflexivity.
  - destruct (Re.search track_re line), (this_file st);
      rewrite ?init_locked by exact H; try reflexivity;
      destruct (Re.search index_re line), (this_track st) as [[]|];
      reflexivity.
Qed.

Lemma read_cue_lines_locked (fs : filesystem) (cue_path : string)
    (lines : list string) :
  forall (st : locals) (gb : option Z),
  truthy gb = true -> (read_cue_lines fs cue_path lines st gb).2 = gb.
Proof.
  induction lines as [|l lines IH]; intros st gb H; [reflexivity|].
  cbn [read_cue_lines].
  pose proof (read_cue_line_locked fs cue_path l st gb H) as Hl.
  destruct (read_cue_line fs cue_path l st gb) as [[st'|e] gb'];
    cbn [snd] in Hl; subst gb'; [apply IH; exact H|reflexivity].
Qed.

Lemma read_cue_lines_app (fs : filesystem) (cue_path : string)
    (pre post : list string) :
  forall (st : locals) (gb : option Z),
  read_cue_lines fs cue_path (pre ++ post) st gb
  = match read_cue_lines fs cue_path pre st gb with
    | (Ok st', gb') => read_cue_lines fs cue_path post st' gb'
    | (Err e, gb') => (Err e, gb')
    end.
Proof.
  induction pre as [|l pre IH]; intros st gb; [reflexivity|].
  cbn [app read_cue_lines].
  destruct (read_cue_line fs cue_path l st gb) as [[st'|e] gb'];
    [apply IH|reflexivity].
Qed.

(** The line that opens the first track. *)
Lemma read_cue_line_first_track (fs : filesystem) (cue_path line : string)
    (st : locals) (fi : nat) (m : list string) :
  track_line_groups line = Some m ->
  this_file st = Some fi ->
  read_cue_line fs cue_path line st None
  = match Track.lock (Re.group m 2) None with
    | Some b =>
        (Ok (mkLocals
               (alter (File.add_track
                         (Track.mk (py_int (Re.group m 1)) []
                            (Re.group m 2) None)) fi (files st))
               (Some (fi, from_option (fun f => length (File.tracks f)) O
                            (files st !! fi)))
               (this_file st)), Some b)
    | None => (Err TypeError, None)
    end.
Proof.
  unfold track_line_groups, read_cue_line. intros Hm Hf.
  destruct (Re.search file_re line); [discriminate|].
  rewrite Hm, Hf, init_unlocked.
  destruct (Track.lock (Re.group m 2) None); reflexivity.
Qed.

(** The class attribute after a parse whose first TRACK declaration is
    [line], whether or not the parse succeeds. *)
Lemma blocksize_after_parse (fs : filesystem) (cue_path : string)
    (data : list byte) (pre post : list string) (line : string)
    (st : locals) (fi : nat) (m : list string) :
  Os.open_rb fs cue_path = Ok data ->
  readlines data = pre ++ line :: post ->
  read_cue_lines fs cue_path pre initial_locals None = (Ok st, None) ->
  track_line_groups line = Some m ->
  this_file st = Some fi ->
  (read_cue_file fs cue_path None).2 = Track.lock (Re.group m 2) None
  /\ (Track.lock (Re.group m 2) None = None ->
      read_cue_file fs cue_path None = (Err TypeError, None)).
Proof.
  intros Hopen Hlines Hpre Hm Hf. unfold read_cue_file.
  rewrite Hopen, Hlines, read_cue_lines_app. fold initial_locals.
  rewrite Hpre. cbn [read_cue_lines].
  rewrite (read_cue_line_first_track _ _ _ _ _ _ Hm Hf).
  destruct (Track.lock (Re.group m 2) None) as [b|] eqn:E.
  - split; [|discriminate].
    assert (truthy (Some b) = true) as Ht
      by (eapply truthy_lock; [exact E|discriminate]).
    match goal with
    | |- context [read_cue_lines fs cue_path post ?s (Some b)] =>
        pose proof (read_cue_lines_locked fs cue_path post s (Some b) Ht) as Hl;
        destruct (read_cue_lines fs cue_path post s (Some b)) as [[st'|e] gb']
    end; cbn [snd] in *; subst gb'; reflexivity.
  - split; reflexivity.
Qed.

(** C9. In a parse that starts with no Blocksize set, let [line] be the first
    TRACK declaration the parser takes (a file is open, no track was made
    before).  Then after the parse [Track.globalBlocksize] is what the fixed
    table gives for the type tag of [line] (AUDIO, MODE1/2352, MODE2/2352,
    CDI/2352: 2352; CDG: 2448; MODE1/2048: 2048; MODE2/2336, CDI/2336: 2336);
    when the parse succeeds it is one of these four numbers and it is the
    Blocksize the sector-count back-fill divided by; and no later TRACK line
    changes it: the constructor leaves a set Blocksize alone, whatever the
    type tag. *)
Theorem blocksize_locked_by_first_track :
  (Forall (fun tag => Track.lock tag None = Some 2352)
     ["AUDIO"; "MODE1/2352"; "MODE2/2352"; "CDI/2352"]
   /\ Track.lock "CDG" None = Some 2448
   /\ Track.lock "MODE1/2048" None = Some 2048
   /\ Forall (fun tag => Track.lock tag None = Some 2336)
        ["MODE2/2336"; "CDI/2336"])
  /\ (forall (fs : filesystem) (cue_path : string) (data : list byte)
             (pre post : list string) (line : string) (st : locals)
             (fi : nat) (m : list string),
        Os.open_rb fs cue_path = Ok data ->
        readlines data = pre ++ line :: post ->
        read_cue_lines fs cue_path pre initial_locals None = (Ok st, None) ->
        track_line_groups line = Some m ->
        this_file st = Some fi ->
        (read_cue_file fs cue_path None).2 = Track.lock (Re.group m 2) None
        /\ forall fls, (read_cue_file fs cue_path None).1 = Ok fls ->
             exists b st',
               (read_cue_file fs cue_path None).2 = Some b
               /\ b ∈ [2352; 2448; 2048; 2336]
               /\ read_cue_lines fs cue_path (readlines data) initial_locals
                    None = (Ok st', Some b)
               /\ calc_sectors (files st') (Some b) = Ok fls)
  /\ (forall (num : Z) (tag : string) (gb : option Z),
        truthy gb = true ->
        Track.__init__ num tag gb = (Ok (Track.mk num [] tag None), gb))
  /\ (forall (fs : filesystem) (cue_path : string) (lines : list string)
             (st : locals) (gb : option Z),
        truthy gb = true ->
        (read_cue_lines fs cue_path lines st gb).2 = gb).
Proof.
  split; [repeat split; repeat constructor|].
  split; [|split; [exact init_locked|exact read_cue_lines_locked]].
  intros fs cue_path data pre post line st fi m Hopen Hlines Hpre Hm Hf.
  destruct (blocksize_after_parse _ _ _ _ _ _ _ _ _ Hopen Hlines Hpre Hm Hf)
    as [Hgb Hnone].
  split; [exact Hgb|]. intros fls Hok.
  destruct (Track.lock (Re.group m 2) None) as [b|] eqn:E.
  - pose proof (lock_values _ _ E) as Hb. revert Hgb Hok.
    unfold read_cue_file. rewrite Hopen. fold initial_locals.
    destruct (read_cue_lines fs cue_path (readlines data) initial_locals None)
      as [[st'|e] gb']; cbn [fst snd]; [|discriminate].
    intros -> Hcalc. exists b, st'. auto.
  - rewrite (Hnone eq_refl) in Hok. discriminate.
Qed.

Lemma blocksize_locked_by_first_track_witness :
  (read_cue_file (small_fs true) "/d/game.cue" None).2
  = Track.lock "MODE1/2352" None.
Proof.
  refine (proj1 (proj1 (proj2 blocksize_locked_by_first_track)
                   (small_fs true) "/d/game.cue"
                   (list_byte_of_string small_cue)
                   ["FILE " +:+ dquote +:+ "game.bin" +:+ dquote +:+ " BINARY"
                    +:+ nl]
                   ["    INDEX 01 00:00:00" +:+ nl; "  TRACK 02 AUDIO" +:+ nl;
                    "    INDEX 01 00:00:01" +:+ nl]
                   ("  TRACK 01 MODE1/2352" +:+ nl)
                   (mkLocals [File.mk "/d/game.bin" [] 4704] None (Some O))
                   O ["01"; "MODE1/2352"] _ _ _ _ _));
    vm_compute; reflexivity.
Defined.

(** While the Blocksize is unset there is no track: a track is only ever
    made together with a Blocksize. *)
Lemma read_cue_line_unset (fs : filesystem) (cue_path line : string)
    (st st' : locals) (gb gb' : option Z) :
  (gb = None -> no_tracks (files st)) ->
  read_cue_line fs cue_path line st gb = (Ok st', gb') ->
  gb' = None -> no_tracks (files st').
Proof.
  unfold read_cue_line, no_tracks. intros Hinv.
  destruct (Re.search file_re line) as [m|].
  - destruct (negb _); [discriminate|].
    unfold File.__init__. destruct (Os.getsize fs _) as [size|e];
      cbn [bind]; intros [= <- <-] Hgb; cbn [files].
    apply Forall_app. split; [exact (Hinv Hgb)|]. repeat constructor.
  - destruct (Re.search track_re line) as [m|], (this_file st) as [fi|].
    1: { unfold Track.__init__.
         destruct (negb (truthy gb)) eqn:Et.
         - destruct (Track.lock _ gb); cbn [bind]; intros [= <- <-];
             discriminate.
         - cbn [bind]. intros [= <- <-] ->. discriminate. }
    all: destruct (Re.search index_re line) as [m'|],
           (this_track st) as [[fi' ti]|];
      try (intros [= <- <-]; exact Hinv).
    all: destruct (cuestamp_to_sectors _) as [off|e]; cbn [bind];
      intros [= <- <-] Hgb; cbn [files]; specialize (Hinv Hgb).
    all: apply Forall_alter; [exact Hinv|]; intros f _ Hf; cbn [File.tracks File.set_tracks];
      rewrite Hf; reflexivity.
Qed.

Lemma read_cue_lines_unset (fs : filesystem) (cue_path : string)
    (lines : list string) :
  forall (st st' : locals) (gb gb' : option Z),
  (gb = None -> no_tracks (files st)) ->
  read_cue_lines fs cue_path lines st gb = (Ok st', gb') ->
  gb' = None -> no_tracks (files st').
Proof.
  induction lines as [|l lines IH]; intros st st' gb gb' Hinv;
    cbn [read_cue_lines].
  - intros [= <- <-]. exact Hinv.
  - destruct (read_cue_line fs cue_path l st gb) as [[st1|e] gb1] eqn:El;
      [|discriminate].
    apply IH. exact (read_cue_line_unset _ _ _ _ _ _ _ Hinv El).
Qed.

(** A parse that starts unset and returns a disc image with the Blocksize
    still unset returns one without any track. *)
Lemma read_cue_file_unset (fs : filesystem) (cue_path : string)
    (fls : list File.t) :
  read_cue_file fs cue_path None = (Ok fls, None) -> no_tracks fls.
Proof.
  unfold read_cue_file.
  destruct (Os.open_rb fs cue_path) as [data|e]; [|discriminate].
  destruct (read_cue_lines fs cue_path (readlines data)
              (mkLocals [] None None) None) as [[st|e] gb'] eqn:El;
    [|discriminate].
  intros [= Hc ->].
  assert (no_tracks (files st)) as Hn.
  { refine (read_cue_lines_unset _ _ _ _ _ None None _ El eq_refl).
    intros _. constructor. }
  destruct (files st) as [|f [|g l]]; cbn in Hc; try discriminate.
  - injection Hc as <-. constructor.
  - injection Hc as <-. exact Hn.
Qed.

(** C10. When the first TRACK declaration of a parse that starts with no
    Blocksize set carries a type tag outside the eight known ones, the
    constructor leaves [Track.globalBlocksize] unset and raises [TypeError]
    (the [%d] conversion of [None] for the debug log), which is not one of the
    program's [ErrorException]s; the whole parse raises it, so no DiscImage
    comes out of it, and the Blocksize is still unset afterwards.  More
    generally no parse returns a track while the Blocksize is unset: a
    DiscImage returned with the Blocksize unset has no track at all. *)
Theorem unknown_track_type_raises :
  typed_error TypeError = false
  /\ (forall (num : Z) (tag : string),
        string_in tag known_types = false ->
        Track.__init__ num tag None = (Err TypeError, None))
  /\ (forall (fs : filesystem) (cue_path : string) (data : list byte)
             (pre post : list string) (line : string) (st : locals)
             (fi : nat) (m : list string),
        Os.open_rb fs cue_path = Ok data ->
        readlines data = pre ++ line :: post ->
        read_cue_lines fs cue_path pre initial_locals None = (Ok st, None) ->
        track_line_groups line = Some m ->
        this_file st = Some fi ->
        string_in (Re.group m 2) known_types = false ->
        read_cue_file fs cue_path None = (Err TypeError, None))
  /\ (forall (fs : filesystem) (cue_path : string) (fls : list File.t),
        read_cue_file fs cue_path None = (Ok fls, None) -> no_tracks fls).
Proof.
  split; [reflexivity|]. split; [|split].
  - intros num tag H. apply lock_unknown in H.
    rewrite init_unlocked, H. reflexivity.
  - intros fs cue_path data pre post line st fi m Hopen Hlines Hpre Hm Hf H.
    apply lock_unknown in H.
    exact (proj2 (blocksize_after_parse _ _ _ _ _ _ _ _ _
                    Hopen Hlines Hpre Hm Hf) H).
  - exact read_cue_file_unset.
Qed.

Lemma unknown_track_type_raises_witness :
  read_cue_file typo_fs "/d/game.cue" None = (Err TypeError, None).
Proof.
  refine (proj1 (proj2 (proj2 unknown_track_type_raises))
            typo_fs "/d/game.cue" (list_byte_of_string typo_cue)
            ["FILE " +:+ dquote +:+ "game.bin" +:+ dquote +:+ " BINARY" +:+ nl]
            ["    INDEX 01 00:00:00" +:+ nl; "  TRACK 02 AUDIO" +:+ nl;
             "    INDEX 01 00:00:01" +:+ nl]
            ("  TRACK 01 MODE1/2324" +:+ nl)
            (mkLocals [File.mk "/d/game.bin" [] 4704] None (Some O))
            O ["01"; "MODE1/2324"] _ _ _ _ _ _);
    vm_compute; reflexivity.
Defined.

(** ** The merged cuesheet *)

Lemma bind_assoc {A B C} (r : result A) (f : A -> result B)
    (g : B -> result C) :
  (y <- (x <- r ;; f x) ;; g y) = (x <- r ;; y <- f x ;; g y).
Proof. destruct r; reflexivity. Qed.

Lemma string_app_assoc (a b c : string) : (a +:+ b) +:+ c = a +:+ b +:+ c.
Proof.
  induction a as [|x a IH]; [reflexivity|].
  change (String x a +:+ b) with (String x (a +:+ b)).
  change (String x (a +:+ b) +:+ c) with (String x ((a +:+ b) +:+ c)).
  rewrite IH. reflexivity.
Qed.

Lemma merged_indexes_lines (pos : num) (l : list Index.t) :
  forall c : string,
  merged_indexes pos l c = (t <- index_lines pos l ;; Ok (c +:+ t)).
Proof.
  induction l as [|i l IH]; intros c; cbn [merged_indexes index_lines].
  - cbn. rewrite string_app_nil_r. reflexivity.
  - unfold merged_index_line.
    destruct (Py.add pos (PyInt (Index.file_offset i))) as [p|e];
      [|reflexivity]. cbn [bind].
    destruct (sectors_to_cuestamp p) as [stamp|e]; [|reflexivity].
    cbn [bind]. rewrite IH.
    destruct (index_lines pos l) as [rest|e]; [|reflexivity]. cbn [bind].
    rewrite !string_app_assoc. reflexivity.
Qed.

Lemma merged_tracks_blocks (pos : num) (l : list Track.t) :
  forall c : string,
  merged_tracks pos l c = (t <- track_blocks pos l ;; Ok (c +:+ t)).
Proof.
  induction l as [|x l IH]; intros c; cbn [merged_tracks track_blocks].
  - cbn. rewrite string_app_nil_r. reflexivity.
  - rewrite merged_indexes_lines.
    destruct (index_lines pos (Track.indexes x)) as [lines|e]; [|reflexivity].
    cbn [bind]. rewrite IH.
    destruct (track_blocks pos l) as [rest|e]; [|reflexivity]. cbn [bind].
    rewrite !string_app_assoc. reflexivity.
Qed.

Lemma running_snoc (gb : option Z) (l : list File.t) (f : File.t) :
  forall pos : num,
  running gb (l ++ [f]) pos
  = (p <- running gb l pos ;;
     d <- truediv_attr (PyInt (File.size f)) gb ;; Py.add p d).
Proof.
  induction l as [|g l IH]; intros pos; cbn [app running].
  - destruct (truediv_attr (PyInt (File.size f)) gb) as [d|e]; [|reflexivity].
    cbn [bind]. destruct (Py.add pos d); reflexivity.
  - destruct (truediv_attr (PyInt (File.size g)) gb) as [d|e]; [|reflexivity].
    cbn [bind]. destruct (Py.add pos d) as [p|e]; [|reflexivity].
    cbn [bind]. apply IH.
Qed.

Lemma file_blocks_start (gb : option Z) (pre l : list File.t) (e : exn) :
  running gb pre (PyInt 0) = Err e -> file_blocks gb pre l = Err e.
Proof. intros H. destruct l; cbn [file_blocks]; rewrite H; reflexivity. Qed.

(** The loop over the files, with its two accumulators, against the blocks
    placed by running offsets. *)
Lemma merged_files_blocks (gb : option Z) (l : list File.t) :
  forall (pre : list File.t) (pos : num) (c : string),
  running gb pre (PyInt 0) = Ok pos ->
  merged_files gb l pos c = (t <- file_blocks gb pre l ;; Ok (c +:+ t)).
Proof.
  induction l as [|f l IH]; intros pre pos c Hpos;
    cbn [merged_files file_blocks]; rewrite Hpos; cbn [bind].
  - rewrite string_app_nil_r. reflexivity.
  - rewrite merged_tracks_blocks.
    destruct (track_blocks pos (File.tracks f)) as [block|e]; [|reflexivity].
    cbn [bind].
    pose proof (running_snoc gb pre f (PyInt 0)) as Hs. rewrite Hpos in Hs.
    cbn [bind] in Hs.
    destruct (truediv_attr (PyInt (File.size f)) gb) as [d|e]; cbn [bind] in *.
    + destruct (Py.add pos d) as [pos'|e]; cbn [bind].
      * rewrite (IH (pre ++ [f]) pos' _ Hs).
        destruct (file_blocks gb (pre ++ [f]) l) as [rest|e]; [|reflexivity].
        cbn [bind]. rewrite string_app_assoc. reflexivity.
      * rewrite (file_blocks_start _ _ _ _ Hs). reflexivity.
    + rewrite (file_blocks_start _ _ _ _ Hs). reflexivity.
Qed.

Lemma gen_merged_cuesheet_blocks (gb : option Z) (basename : string)
    (fls : list File.t) :
  gen_merged_cuesheet gb basename fls
  = (body <- file_blocks gb [] fls ;; Ok (merged_header basename +:+ body)).
Proof.
  unfold gen_merged_cuesheet. rewrite (merged_files_blocks gb fls [] (PyInt 0));
    reflexivity.
Qed.

Lemma index_lines_cons (pos : num) (i : Index.t) (l : list Index.t) :
  index_lines pos (i :: l)
  = (stamp <- (p <- Py.add pos (PyInt (Index.file_offset i)) ;;
               sectors_to_cuestamp p) ;;
     rest <- index_lines pos l ;;
     Ok ("    INDEX " +:+ fmt_0d 2 (Index.id i) +:+ " " +:+ stamp +:+ nl
         +:+ rest)).
Proof. cbn [index_lines]. rewrite bind_assoc. reflexivity. Qed.

Lemma occurs_in_here (line rest : string) : occurs_in line (line +:+ rest).
Proof. exists EmptyString, rest. reflexivity. Qed.

Lemma occurs_in_before (a line text : string) :
  occurs_in line text -> occurs_in line (a +:+ text).
Proof.
  intros (x & y & ->). exists (a +:+ x), y.
  rewrite string_app_assoc. reflexivity.
Qed.

Lemma occurs_in_after (line text b : string) :
  occurs_in line text -> occurs_in line (text +:+ b).
Proof.
  intros (x & y & ->). exists x, (y +:+ b).
  rewrite !string_app_assoc. reflexivity.
Qed.

Lemma index_lines_mem (pos : num) (l : list Index.t) (t : string)
    (i : Index.t) :
  index_lines pos l = Ok t -> i ∈ l ->
  exists stamp,
    (p <- Py.add pos (PyInt (Index.file_offset i)) ;; sectors_to_cuestamp p)
    = Ok stamp
    /\ occurs_in (index_line_text i stamp) t.
Proof.
  revert t. induction l as [|j l IH]; intros t Ht Hin; [set_solver|].
  rewrite index_lines_cons in Ht.
  destruct (p <- Py.add pos (PyInt (Index.file_offset j)) ;;
            sectors_to_cuestamp p) as [stamp|e] eqn:Es; [|discriminate].
  cbn [bind] in Ht.
  destruct (index_lines pos l) as [rest|e] eqn:Er; [|discriminate].
  injection Ht as <-. apply elem_of_cons in Hin as [->|Hin].
  - exists stamp. split; [exact Es|].
    pose proof (occurs_in_here (index_line_text j stamp) rest) as H.
    unfold index_line_text in *. rewrite !string_app_assoc in H. exact H.
  - destruct (IH rest eq_refl Hin) as (s & Hs & Ho). exists s.
    split; [exact Hs|].
    repeat apply occurs_in_before. exact Ho.
Qed.

Lemma track_blocks_mem (pos : num) (l : list Track.t) (t : string)
    (x : Track.t) (i : Index.t) :
  track_blocks pos l = Ok t -> x ∈ l -> i ∈ Track.indexes x ->
  exists stamp,
    (p <- Py.add pos (PyInt (Index.file_offset i)) ;; sectors_to_cuestamp p)
    = Ok stamp
    /\ occurs_in (index_line_text i stamp) t.
Proof.
  revert t. induction l as [|y l IH]; intros t Ht Hx Hi; [set_solver|].
  cbn [track_blocks] in Ht.
  destruct (index_lines pos (Track.indexes y)) as [lines|e] eqn:El;
    [|discriminate]. cbn [bind] in Ht.
  destruct (track_blocks pos l) as [rest|e] eqn:Er; [|discriminate].
  injection Ht as <-. apply elem_of_cons in Hx as [->|Hx].
  - destruct (index_lines_mem _ _ _ _ El Hi) as (s & Hs & Ho). exists s.
    split; [exact Hs|]. apply occurs_in_before, occurs_in_after. exact Ho.
  - destruct (IH rest eq_refl Hx Hi) as (s & Hs & Ho). exists s.
    split; [exact Hs|]. repeat apply occurs_in_before. exact Ho.
Qed.

Lemma file_blocks_mem (gb : option Z) (l : list File.t) :
  forall (pre : list File.t) (t : string) (l1 l2 : list File.t) (f : File.t)
         (x : Track.t) (i : Index.t),
  file_blocks gb pre l = Ok t ->
  l = l1 ++ f :: l2 -> x ∈ File.tracks f -> i ∈ Track.indexes x ->
  exists pos stamp,
    running gb (pre ++ l1) (PyInt 0) = Ok pos
    /\ (p <- Py.add pos (PyInt (Index.file_offset i)) ;; sectors_to_cuestamp p)
       = Ok stamp
    /\ occurs_in (index_line_text i stamp) t.
Proof.
  induction l as [|g l IH]; intros pre t l1 l2 f x i Ht Hl Hx Hi.
  - destruct l1; discriminate.
  - cbn [file_blocks] in Ht.
    destruct (running gb pre (PyInt 0)) as [pos|e] eqn:Ep; [|discriminate].
    cbn [bind] in Ht.
    destruct (track_blocks pos (File.tracks g)) as [block|e] eqn:Eb;
      [|discriminate]. cbn [bind] in Ht.
    destruct (file_blocks gb (pre ++ [g]) l) as [rest|e] eqn:Er;
      [|discriminate]. injection Ht as <-.
    destruct l1 as [|h l1]; cbn [app] in Hl; injection Hl as -> ->.
    + destruct (track_blocks_mem _ _ _ _ _ Eb Hx Hi) as (s & Hs & Ho).
      exists pos, s. rewrite app_nil_r. repeat split; [exact Ep|exact Hs|].
      apply occurs_in_after. exact Ho.
    + destruct (IH _ _ l1 l2 f x i Er eq_refl Hx Hi) as (p & s & Hp & Hs & Ho).
      exists p, s. rewrite <- app_assoc in Hp.
      repeat split; [exact Hp|exact Hs|].
      apply occurs_in_before. exact Ho.
Qed.

(** At an integer offset, below 100 minutes, the lines are those of the
    integer sectors. *)
Lemma index_lines_int (start bound : Z) (l : list Index.t) :
  0 <= start -> start + bound <= 450000 ->
  Forall (fun i => 0 <= Index.file_offset i < bound) l ->
  index_lines (PyInt start) l = Ok (indexes_text start l).
Proof.
  intros Hs Hb. induction 1 as [|i l Hi _ IH]; [reflexivity|].
  cbn [index_lines indexes_text Py.add bind].
  rewrite sectors_to_cuestamp_int by lia. cbn [bind]. rewrite IH.
  cbn [bind]. unfold index_line_text, stamp_text.
  rewrite !string_app_assoc. reflexivity.
Qed.

Lemma track_blocks_int (start bound : Z) (l : list Track.t) :
  0 <= start -> start + bound <= 450000 ->
  Forall (fun x => Forall (fun i => 0 <= Index.file_offset i < bound)
                     (Track.indexes x)) l ->
  track_blocks (PyInt start) l = Ok (tracks_text start l).
Proof.
  intros Hs Hb. induction 1 as [|x l Hx _ IH]; [reflexivity|].
  cbn [track_blocks tracks_text].
  rewrite (index_lines_int start bound _ Hs Hb Hx), IH. reflexivity.
Qed.

(** *** Sizes that are whole numbers of blocks *)

Lemma table_bounds (b : Z) : b ∈ [2352; 2448; 2048; 2336] -> 2048 <= b <= 2448.
Proof. set_unfold. lia. Qed.

Lemma whole_blocks_size (b : Z) (f : File.t) :
  0 < b -> whole_blocks b f ->
  File.size f = b * (File.size f / b) /\ 0 <= File.size f / b.
Proof.
  intros Hb [H0 Hm]. split.
  - apply Z.div_exact; [lia|exact Hm].
  - apply Z.div_pos; lia.
Qed.

Lemma sector_count_nonneg (b : Z) (l : list File.t) :
  0 < b -> Forall (whole_blocks b) l -> 0 <= sector_count b l.
Proof.
  intros Hb. induction 1 as [|f l Hf _ IH]; cbn [sector_count]; [lia|].
  destruct (whole_blocks_size b f Hb Hf) as [_ Hn]. lia.
Qed.

Lemma sector_count_app (b : Z) (l1 l2 : list File.t) :
  sector_count b (l1 ++ l2) = sector_count b l1 + sector_count b l2.
Proof.
  induction l1 as [|f l1 IH]; cbn [app sector_count]; [reflexivity|].
  rewrite IH. lia.
Qed.

(** The stamp printed from a position that holds [s], for the offset [o],
    is the one of the integer sector [s + o]. *)
Lemma stamp_holds (s o : Z) (pos : num) :
  holds s pos -> 0 <= s -> 0 <= o -> s + o < 2 ^ 53 ->
  (p <- Py.add pos (PyInt o) ;; sectors_to_cuestamp p)
  = sectors_to_cuestamp (PyInt (s + o)).
Proof.
  intros [->| ->] Hs Ho Hb; [reflexivity|].
  rewrite add_float_int by lia. cbn [bind].
  apply sectors_to_cuestamp_float. lia.
Qed.

(** After files of whole blocks the running offset holds their sectors. *)
Lemma running_holds (b : Z) (l : list File.t) :
  0 < b < 2 ^ 53 ->
  forall (s : Z) (pos : num),
  holds s pos -> 0 <= s -> Forall (whole_blocks b) l ->
  b * (s + sector_count b l) < 2 ^ 53 ->
  exists pos', running (Some b) l pos = Ok pos'
               /\ holds (s + sector_count b l) pos'.
Proof.
  intros Hb. induction l as [|f l IH]; intros s pos Hp Hs Hl Hbound.
  - exists pos. cbn [running sector_count]. rewrite Z.add_0_r. auto.
  - apply Forall_cons in Hl as [Hf Hl].
    destruct (whole_blocks_size b f ltac:(lia) Hf) as [Hsz Hn].
    pose proof (sector_count_nonneg b l ltac:(lia) Hl) as Hc.
    cbn [running sector_count truediv_attr] in *.
    set (n := File.size f / b) in *.
    rewrite Hsz, truediv_multiple by nia. cbn [bind].
    assert (Py.add pos (PyFloat (float_of_int n))
            = Ok (PyFloat (float_of_int (s + n)))) as Ha.
    { destruct Hp as [->| ->]; [apply add_int_float|apply add_float_float];
        nia. }
    rewrite Ha. cbn [bind].
    destruct (IH (s + n) (PyFloat (float_of_int (s + n))))
      as (pos' & Hr & Hh); [right; reflexivity|lia|exact Hl| |].
    + replace (s + n + sector_count b l) with (s + (n + sector_count b l))
        by lia. exact Hbound.
    + exists pos'. split; [exact Hr|].
      replace (s + (n + sector_count b l)) with (s + n + sector_count b l)
        by lia. exact Hh.
Qed.

Lemma index_lines_holds (s bound : Z) (pos : num) (l : list Index.t) :
  holds s pos -> 0 <= s -> s + bound <= 2 ^ 53 ->
  Forall (fun i => 0 <= Index.file_offset i < bound) l ->
  index_lines pos l = index_lines (PyInt s) l.
Proof.
  intros Hp Hs Hb. induction 1 as [|i l Hi _ IH]; [reflexivity|].
  rewrite !index_lines_cons, IH, (stamp_holds s _ pos Hp) by lia.
  reflexivity.
Qed.

Lemma track_blocks_holds (s bound : Z) (pos : num) (l : list Track.t) :
  holds s pos -> 0 <= s -> s + bound <= 2 ^ 53 ->
  Forall (fun x => Forall (fun i => 0 <= Index.file_offset i < bound)
                     (Track.indexes x)) l ->
  track_blocks pos l = track_blocks (PyInt s) l.
Proof.
  intros Hp Hs Hb. induction 1 as [|x l Hx _ IH]; [reflexivity|].
  cbn [track_blocks].
  rewrite (index_lines_holds s bound pos _ Hp Hs Hb Hx), IH. reflexivity.
Qed.

(** Below 100 minutes, the blocks of files of whole blocks in closed form. *)
Lemma file_blocks_text (b : Z) (l : list File.t) :
  b ∈ [2352; 2448; 2048; 2336] ->
  forall pre : list File.t,
  Forall (whole_blocks b) pre ->
  Forall (fun f => whole_blocks b f /\ indexes_inside b f) l ->
  sector_count b pre + sector_count b l <= 450000 ->
  file_blocks (Some b) pre l = Ok (files_text b (sector_count b pre) l).
Proof.
  intros Hb. apply table_bounds in Hb.
  induction l as [|f l IH]; intros pre Hpre Hl Hsum.
  - pose proof (sector_count_nonneg b pre ltac:(lia) Hpre) as Hc.
    cbn [sector_count] in Hsum.
    destruct (running_holds b pre ltac:(lia) 0 (PyInt 0))
      as (pos & Hr & _); [left; reflexivity|lia|exact Hpre|nia|].
    cbn [file_blocks files_text]. rewrite Hr. reflexivity.
  - apply Forall_cons in Hl as [[Hf Hin] Hl].
    pose proof (sector_count_nonneg b pre ltac:(lia) Hpre) as Hc.
    destruct (whole_blocks_size b f ltac:(lia) Hf) as [_ Hn].
    assert (Forall (whole_blocks b) l) as Hl'.
    { eapply Forall_impl; [exact Hl|]. intros g [Hg _]. exact Hg. }
    pose proof (sector_count_nonneg b l ltac:(lia) Hl') as Hcl.
    cbn [sector_count] in Hsum.
    destruct (running_holds b pre ltac:(lia) 0 (PyInt 0))
      as (pos & Hr & Hh); [left; reflexivity|lia|exact Hpre|nia|].
    rewrite Z.add_0_l in Hh.
    cbn [file_blocks files_text]. rewrite Hr. cbn [bind].
    rewrite (track_blocks_holds (sector_count b pre) (File.size f / b) pos
               _ Hh Hc ltac:(lia) Hin).
    rewrite (track_blocks_int (sector_count b pre) (File.size f / b)
               _ Hc ltac:(lia) Hin).
    cbn [bind]. rewrite IH.
    + cbn [bind]. rewrite sector_count_app. cbn [sector_count].
      rewrite Z.add_0_r. reflexivity.
    + apply Forall_app. split; [exact Hpre|]. constructor; [exact Hf|constructor].
    + exact Hl.
    + rewrite sector_count_app. cbn [sector_count]. lia.
Qed.

(** C4. [gen_merged_cuesheet] returns the header line followed by the blocks
    of the files in order, each file's block computed at the running sector
    offset of the files before it: the offset starts at 0 and grows by
    [size / Blocksize] after each file.  When the files before an index are
    whole numbers of blocks, the text returned holds an INDEX line for it
    whose timestamp is [sectors_to_cuestamp] of the sectors of those files
    plus the index's own offset.  Below 100 minutes, with every index inside
    its file, the cuesheet is returned and it is the header followed by the
    lines of the integer sectors.  In particular, for two files of sizes
    [Blocksize*1000] and [Blocksize*500], the indexes of the second file
    are printed exactly as the sectors [1000 + offset]. *)
Theorem gen_merged_cuesheet_offsets :
  (forall (gb : option Z) (basename : string) (fls : list File.t),
      gen_merged_cuesheet gb basename fls
      = (body <- file_blocks gb [] fls ;;
         Ok (merged_header basename +:+ body)))
  /\ (forall (b : Z) (basename text : string)
             (l1 l2 : list File.t) (f : File.t) (x : Track.t) (i : Index.t),
        b ∈ [2352; 2448; 2048; 2336] ->
        Forall (whole_blocks b) l1 ->
        0 <= Index.file_offset i ->
        b * (sector_count b l1 + Index.file_offset i) < 2 ^ 53 ->
        gen_merged_cuesheet (Some b) basename (l1 ++ f :: l2) = Ok text ->
        x ∈ File.tracks f -> i ∈ Track.indexes x ->
        exists stamp,
          sectors_to_cuestamp
            (PyInt (sector_count b l1 + Index.file_offset i)) = Ok stamp
          /\ occurs_in (index_line_text i stamp) text)
  /\ (forall (b : Z) (basename : string) (fls : list File.t),
        b ∈ [2352; 2448; 2048; 2336] ->
        Forall (fun f => whole_blocks b f /\ indexes_inside b f) fls ->
        sector_count b fls <= 450000 ->
        gen_merged_cuesheet (Some b) basename fls
        = Ok (merged_header basename +:+ files_text b 0 fls))
  /\ (forall (b : Z) (basename : string) (f1 f2 : File.t),
        b ∈ [2352; 2448; 2048; 2336] ->
        File.size f1 = b * 1000 ->
        File.size f2 = b * 500 ->
        offsets_below 1000 f1 ->
        offsets_below 500 f2 ->
        gen_merged_cuesheet (Some b) basename [f1; f2]
        = Ok (merged_header basename +:+ tracks_text 0 (File.tracks f1)
              +:+ tracks_text 1000 (File.tracks f2))).
Proof.
  split; [exact gen_merged_cuesheet_blocks|].
  assert (forall (b : Z) (basename : string) (fls : list File.t),
        b ∈ [2352; 2448; 2048; 2336] ->
        Forall (fun f => whole_blocks b f /\ indexes_inside b f) fls ->
        sector_count b fls <= 450000 ->
        gen_merged_cuesheet (Some b) basename fls
        = Ok (merged_header basename +:+ files_text b 0 fls)) as Hclosed.
  { intros b basename fls Hb Hfls Hsum.
    rewrite gen_merged_cuesheet_blocks.
    rewrite (file_blocks_text b fls Hb []); [reflexivity|constructor|exact Hfls|].
    cbn [sector_count]. lia. }
  split; [|split; [exact Hclosed|]].
  - intros b basename text l1 l2 f x i Hb Hl1 Ho Hbound Ht Hx Hi.
    apply table_bounds in Hb.
    pose proof (sector_count_nonneg b l1 ltac:(lia) Hl1) as Hc.
    rewrite gen_merged_cuesheet_blocks in Ht.
    destruct (file_blocks (Some b) [] (l1 ++ f :: l2)) as [body|e] eqn:Eb;
      [|discriminate]. injection Ht as <-.
    destruct (file_blocks_mem (Some b) _ [] body l1 l2 f x i Eb eq_refl Hx Hi)
      as (pos & stamp & Hp & Hs & Hocc).
    cbn [app] in Hp.
    destruct (running_holds b l1 ltac:(lia) 0 (PyInt 0))
      as (pos' & Hr & Hh); [left; reflexivity|lia|exact Hl1|nia|].
    rewrite Hp in Hr. injection Hr as <-. rewrite Z.add_0_l in Hh.
    rewrite (stamp_holds _ _ pos Hh) in Hs by nia.
    exists stamp. split; [exact Hs|].
    apply occurs_in_before. exact Hocc.
  - intros b basename f1 f2 Hb H1 H2 Hoff1 Hoff2.
    pose proof (table_bounds b Hb) as Hbb.
    assert (File.size f1 / b = 1000) as Hq1
      by (rewrite H1, Z.mul_comm; apply Z.div_mul; lia).
    assert (File.size f2 / b = 500) as Hq2
      by (rewrite H2, Z.mul_comm; apply Z.div_mul; lia).
    rewrite (Hclosed b basename [f1; f2] Hb).
    + cbn [files_text]. rewrite Hq1, string_app_nil_r. reflexivity.
    + repeat constructor; unfold indexes_inside; try lia.
      * rewrite H1, Z.mul_comm. apply Z.mod_mul. lia.
      * rewrite Hq1. exact Hoff1.
      * rewrite H2, Z.mul_comm. apply Z.mod_mul. lia.
      * rewrite Hq2. exact Hoff2.
    + cbn [sector_count]. lia.
Qed.

Lemma gen_merged_cuesheet_offsets_witness :
  gen_merged_cuesheet (Some 2352) "Game"
    [example_first_file; example_second_file]
  = Ok (merged_header "Game"
        +:+ files_text 2352 0 [example_first_file; example_second_file])
  /\ gen_merged_cuesheet (Some 2352) "Game"
       [example_first_file; example_second_file]
     = Ok (merged_header "Game"
           +:+ tracks_text 0 (File.tracks example_first_file)
           +:+ tracks_text 1000 (File.tracks example_second_file)).
Proof.
  split.
  - apply (proj1 (proj2 (proj2 gen_merged_cuesheet_offsets)) 2352 "Game"
             [example_first_file; example_second_file]).
    + set_solver.
    + repeat constructor; cbn; lia.
    + vm_compute. discriminate.
  - apply (proj2 (proj2 (proj2 gen_merged_cuesheet_offsets)) 2352 "Game"
             example_first_file example_second_file).
    + set_solver.
    + reflexivity.
    + reflexivity.
    + repeat constructor; cbn; lia.
    + repeat constructor; cbn; lia.
Defined.
(** ** The merge engine concatenates *)

(** The copy loop appends everything the source still delivers, whatever the
    chunk size. *)
Lemma copy_loop_spec (cs : positive) (out : string) (rest : list byte)
    (fs : filesystem) :
  forall (r : bool) (d : list byte),
  fs !! out = Some (RegularFile r d) ->
  copy_loop cs out rest fs = <[out := RegularFile r (d ++ rest)]> fs.
Proof.
  funelim (copy_loop cs out rest fs); intros r d Hfs.
  - rewrite app_nil_r. symmetry. apply insert_id. exact Hfs.
  - rewrite read_nonneg in * by lia. cbn [fst snd] in *.
    rewrite (write_insert _ _ _ _ _ Hfs) in *.
    rewrite (H r (d ++ take (Z.to_nat (Z.pos csize)) (b :: l))%list)
      by apply lookup_insert_eq.
    rewrite insert_insert_eq, <- app_assoc, take_drop. reflexivity.
Qed.

Lemma open_rb_insert_ne (fs : filesystem) (out p : string) (n : node) :
  p <> out -> Os.open_rb (<[out := n]> fs) p = Os.open_rb fs p.
Proof.
  intros H. unfold Os.open_rb. rewrite lookup_insert_ne by congruence.
  reflexivity.
Qed.

(** The loop over the files, while every source opens: the target grows by
    the sources' bytes, in order. *)
Lemma merge_loop_spec (out : string) (fs : filesystem) (l : list File.t) :
  forall (datas : list (list byte)) (acc : list byte),
  Forall2 (fun f d => File.filename f <> out
                      /\ Os.open_rb fs (File.filename f) = Ok d) l datas ->
  merge_loop out l (<[out := RegularFile true acc]> fs)
  = (Ok tt, <[out := RegularFile true (acc ++ concat datas)]> fs).
Proof.
  induction l as [|f l IH]; intros datas acc H.
  - apply Forall2_nil_inv_l in H as ->. cbn [merge_loop concat].
    rewrite app_nil_r. reflexivity.
  - apply Forall2_cons_inv_l in H as (d & datas' & [Hne Hd] & H & ->).
    cbn [merge_loop concat].
    rewrite open_rb_insert_ne, Hd by exact Hne.
    rewrite (copy_loop_spec _ _ _ _ true acc) by apply lookup_insert_eq.
    rewrite insert_insert_eq, (IH datas' _ H), <- app_assoc. reflexivity.
Qed.

(** ... and up to the first source that does not open. *)
Lemma merge_loop_fails (out : string) (fs : filesystem) (l1 : list File.t) :
  forall (datas : list (list byte)) (acc : list byte) (f : File.t)
         (l2 : list File.t) (e : exn),
  Forall2 (fun f d => File.filename f <> out
                      /\ Os.open_rb fs (File.filename f) = Ok d) l1 datas ->
  File.filename f <> out ->
  Os.open_rb fs (File.filename f) = Err e ->
  merge_loop out (l1 ++ f :: l2) (<[out := RegularFile true acc]> fs)
  = (Err e, <[out := RegularFile true (acc ++ concat datas)]> fs).
Proof.
  induction l1 as [|g l1 IH]; intros datas acc f l2 e H Hne He.
  - apply Forall2_nil_inv_l in H as ->. cbn [app merge_loop concat].
    rewrite open_rb_insert_ne, He, app_nil_r by exact Hne. reflexivity.
  - apply Forall2_cons_inv_l in H as (d & datas' & [Hneg Hd] & H & ->).
    cbn [app merge_loop concat].
    rewrite open_rb_insert_ne, Hd by exact Hneg.
    rewrite (copy_loop_spec _ _ _ _ true acc) by apply lookup_insert_eq.
    rewrite insert_insert_eq, (IH datas' _ f l2 e H Hne He), <- app_assoc.
    reflexivity.
Qed.

Lemma exists_false (fs : filesystem) (p : string) :
  Os.exists_ fs p = false -> fs !! p = None.
Proof. unfold Os.exists_. destruct (fs !! p); [discriminate|reflexivity]. Qed.

Lemma open_rb_exists (fs : filesystem) (p : string) (d : list byte) :
  Os.open_rb fs p = Ok d -> Os.exists_ fs p = true.
Proof.
  unfold Os.open_rb, Os.exists_. destruct (fs !! p); [reflexivity|discriminate].
Qed.

Lemma sources_not_target (fs : filesystem) (out : string) (l : list File.t)
    (datas : list (list byte)) :
  Os.exists_ fs out = false ->
  Forall2 (fun f d => Os.open_rb fs (File.filename f) = Ok d) l datas ->
  Forall2 (fun f d => File.filename f <> out
                      /\ Os.open_rb fs (File.filename f) = Ok d) l datas.
Proof.
  intros Hout H. eapply Forall2_impl; [exact H|].
  intros f d Hd. split; [|exact Hd]. intros E.
  apply open_rb_exists in Hd. congruence.
Qed.

(** X1. When the target path is free and every source file opens for
    reading, [merge_files] returns [True] and leaves the file system as it
    was but for the target, which holds the bytes of the sources one after
    the other, in the order of the list; an empty list leaves an empty
    target. *)
Theorem merge_files_concat (merged_filename : string) (fls : list File.t)
    (datas : list (list byte)) (fs : filesystem) :
  Os.exists_ fs merged_filename = false ->
  Forall2 (fun f d => Os.open_rb fs (File.filename f) = Ok d) fls datas ->
  merge_files merged_filename fls fs
  = (Ok true, <[merged_filename := RegularFile true (concat datas)]> fs).
Proof.
  intros Hout H. unfold merge_files. rewrite Hout.
  rewrite (open_wb_fresh fs merged_filename)
    by (left; apply exists_false, Hout).
  rewrite (merge_loop_spec _ _ _ datas [])
    by (apply sources_not_target; assumption).
  reflexivity.
Qed.

Lemma merge_files_concat_witness :
  merge_files "out.bin"
    [File.mk "a.bin" [] 2; File.mk "b.bin" [] 0; File.mk "c.bin" [] 1]
    (<["a.bin" := RegularFile true [x01; x02]]>
       (<["b.bin" := RegularFile true []]>
          (<["c.bin" := RegularFile true [x03]]> ∅)))
  = (Ok true,
     <["out.bin" := RegularFile true (concat [[x01; x02]; []; [x03]])]>
       (<["a.bin" := RegularFile true [x01; x02]]>
          (<["b.bin" := RegularFile true []]>
             (<["c.bin" := RegularFile true [x03]]> ∅)))).
Proof.
  apply merge_files_concat; [reflexivity|].
  repeat constructor.
Defined.

(** X2. When the target path is free and the sources open up to one that
    does not (it is missing, unreadable or a directory), [merge_files] raises
    the error of that [open] and leaves the target behind, holding the bytes
    of the sources before the failing one: the partial output is not
    removed, and a second run then finds the target taken. *)
Theorem merge_files_partial (merged_filename : string)
    (l1 l2 : list File.t) (f : File.t) (datas : list (list byte)) (e : exn)
    (fs : filesystem) :
  Os.exists_ fs merged_filename = false ->
  Forall2 (fun f d => Os.open_rb fs (File.filename f) = Ok d) l1 datas ->
  File.filename f <> merged_filename ->
  Os.open_rb fs (File.filename f) = Err e ->
  let fs' := <[merged_filename := RegularFile true (concat datas)]> fs in
  merge_files merged_filename (l1 ++ f :: l2) fs = (Err e, fs')
  /\ merge_files merged_filename (l1 ++ f :: l2) fs'
     = (Err (ErrorException (TargetBinPathExists merged_filename)), fs').
Proof.
  intros Hout H Hne He fs'. split.
  - unfold merge_files. rewrite Hout.
    rewrite (open_wb_fresh fs merged_filename)
      by (left; apply exists_false, Hout).
    rewrite (merge_loop_fails _ _ _ datas [] f l2 e)
      by (try apply sources_not_target; assumption).
    reflexivity.
  - unfold merge_files, Os.exists_. subst fs'. rewrite lookup_insert_eq.
    reflexivity.
Qed.

Lemma merge_files_partial_witness :
  let fs : filesystem := <["a.bin" := RegularFile true [x01; x02]]> ∅ in
  merge_files "out.bin" ([File.mk "a.bin" [] 2] ++ File.mk "b.bin" [] 5 :: [])
    fs
  = (Err (FileNotFoundError "b.bin"),
     <["out.bin" := RegularFile true (concat [[x01; x02]])]> fs).
Proof.
  intros fs.
  refine (proj1 (merge_files_partial "out.bin" [File.mk "a.bin" [] 2] []
                   (File.mk "b.bin" [] 5) [[x01; x02]]
                   (FileNotFoundError "b.bin") fs _ _ _ _)).
  - reflexivity.
  - repeat constructor.
  - discriminate.
  - reflexivity.
Defined.
(** ** What the engines leave alone *)

Lemma write_other (out p : string) (chunk : list byte) (fs : filesystem) :
  p <> out -> Os.write out chunk fs !! p = fs !! p.
Proof. intros H. unfold Os.write. apply lookup_alter_ne. congruence. Qed.

Lemma open_wb_other (fs fs' : filesystem) (out p : string) :
  Os.open_wb fs out = Ok fs' -> p <> out -> fs' !! p = fs !! p.
Proof.
  unfold Os.open_wb. intros H Hne.
  destruct (fs !! out) as [[r d|r n]|]; try discriminate;
    injection H as <-; apply lookup_insert_ne; congruence.
Qed.

Lemma copy_loop_other (cs : positive) (out : string) (rest : list byte)
    (fs : filesystem) (p : string) :
  p <> out -> copy_loop cs out rest fs !! p = fs !! p.
Proof.
  intros Hne. funelim (copy_loop cs out rest fs); [reflexivity|].
  rewrite H by exact Hne. apply write_other. exact Hne.
Qed.

Lemma merge_loop_other (out : string) (l : list File.t) (p : string) :
  p <> out ->
  forall fs : filesystem, (merge_loop out l fs).2 !! p = fs !! p.
Proof.
  intros Hne. induction l as [|f l IH]; intros fs; [reflexivity|].
  cbn [merge_loop].
  destruct (Os.open_rb fs (File.filename f)) as [infile|e]; [|reflexivity].
  rewrite IH. apply copy_loop_other. exact Hne.
Qed.

Lemma split_loop_other (cs : positive) (tracksize written : Z) (out : string)
    (rest : list byte) (fs : filesystem) (p : string) :
  p <> out -> (split_loop cs tracksize written out rest fs).2 !! p = fs !! p.
Proof.
  intros Hne. funelim (split_loop cs tracksize written out rest fs).
  - destruct (Os.read_checked _ rest) as [[chunk rest']|e]; [|reflexivity].
    cbn [snd]. apply write_other. exact Hne.
  - destruct (Os.read _ rest) as [chunk rest']. cbn [snd].
    apply write_other. exact Hne.
  - rewrite H by exact Hne. apply write_other. exact Hne.
Qed.

Lemma split_tracks_other (gb : option Z) (base : string) (count : Z)
    (p : string) (l : list Track.t) :
  p ∉ map (fun x => track_filename base (Track.num x) count) l ->
  forall (infile : list byte) (fs : filesystem),
  (split_tracks gb base count l infile fs).2 !! p = fs !! p.
Proof.
  induction l as [|x l IH]; intros Hp infile fs; [reflexivity|].
  cbn [map] in Hp. apply not_elem_of_cons in Hp as [Hne Hp].
  cbn [split_tracks].
  destruct (mul_attr (Track.sectors x) gb) as [tracksize|e]; [|reflexivity].
  destruct (Os.open_wb fs _) as [fs'|e] eqn:Eo; [|reflexivity].
  pose proof (split_loop_other chunksize tracksize 0
                (track_filename base (Track.num x) count) infile fs' p Hne)
    as Hl.
  destruct (split_loop chunksize tracksize 0 _ infile fs')
    as [[infile'|e] fs''];
    cbn [snd] in *; [rewrite (IH Hp)|]; rewrite Hl;
    exact (open_wb_other _ _ _ _ Eo Hne).
Qed.

(** X3. Whatever it is given and however it ends, [merge_files] changes
    nothing but the target path: every other path of the file system, the
    sources among them, names after the call what it named before. *)
Theorem merge_files_frame (merged_filename : string) (fls : list File.t)
    (fs : filesystem) (p : string) :
  p <> merged_filename ->
  (merge_files merged_filename fls fs).2 !! p = fs !! p.
Proof.
  intros Hne. unfold merge_files.
  destruct (Os.exists_ fs merged_filename); [reflexivity|].
  destruct (Os.open_wb fs merged_filename) as [fs'|e] eqn:Eo; [|reflexivity].
  pose proof (merge_loop_other merged_filename fls p Hne fs') as Hl.
  destruct (merge_loop merged_filename fls fs') as [[u|e] fs''];
    cbn [snd] in *; rewrite Hl; exact (open_wb_other _ _ _ _ Eo Hne).
Qed.

Lemma merge_files_frame_witness :
  (merge_files "out.bin" [File.mk "a.bin" [] 1; File.mk "gone.bin" [] 1]
     (<["a.bin" := RegularFile true [x01]]> ∅)).2 !! "a.bin"
  = (<["a.bin" := RegularFile true [x01]]> ∅ : filesystem) !! "a.bin".
Proof. apply merge_files_frame. discriminate. Defined.

(** X4. Whatever it is given and however it ends (also when it raises half
    way), [split_files] changes no path other than the target names of the
    tracks: in particular the source binary is left as it was unless a
    target name is the source's own. *)
Theorem split_files_frame (gb : option Z) (new_basename : string)
    (merged_file : File.t) (fs : filesystem) (p : string) :
  p ∉ map (fun x => track_filename new_basename (Track.num x)
                      (Z.of_nat (length (File.tracks merged_file))))
        (File.tracks merged_file) ->
  (split_files gb new_basename merged_file fs).2 !! p = fs !! p.
Proof.
  intros Hp. unfold split_files.
  destruct (Os.open_rb fs (File.filename merged_file)) as [infile|e];
    [|reflexivity].
  destruct (check_targets fs new_basename _ (File.tracks merged_file));
    [|reflexivity].
  pose proof (split_tracks_other gb new_basename _ p _ Hp infile fs) as Hl.
  destruct (split_tracks gb new_basename _ (File.tracks merged_file) infile fs)
    as [[u|e] fs']; exact Hl.
Qed.

Lemma split_files_frame_witness :
  (split_files (Some 2352) "G" example_split_source example_split_fs).2
    !! "game.bin"
  = example_split_fs !! "game.bin".
Proof.
  apply split_files_frame. vm_compute.
  intros H. repeat (apply elem_of_cons in H as [H|H]; [discriminate|]).
  inversion H.
Defined.
(** ** More on the split engine *)

Lemma concat_slices (b : Z) (data : list byte) (l : list Track.t) :
  forall start : nat,
  concat (slices b l start data)
  = take (sum_list_with (track_bytes b) l) (drop start data).
Proof.
  induction l as [|x l IH]; intros start; cbn [slices concat sum_list_with].
  - symmetry. apply take_0.
  - rewrite IH, <- drop_drop. apply take_take_drop.
Qed.

(** After the split each target opens and delivers its slice. *)
Lemma expected_outputs_open (b : Z) (base : string) (count : Z)
    (data : list byte) (l : list Track.t) :
  forall (fls : list File.t) (start : nat) (fs : filesystem),
  NoDup (map (fun x => track_filename base (Track.num x) count) l) ->
  map File.filename fls
  = map (fun x => track_filename base (Track.num x) count) l ->
  Forall2 (fun f d =>
             Os.open_rb (expected_outputs b base count l start data fs)
               (File.filename f) = Ok d)
    fls (slices b l start data).
Proof.
  induction l as [|x l IH]; intros fls start fs Hnd Hn.
  - destruct fls; [constructor|discriminate].
  - destruct fls as [|f fls]; [discriminate|]. cbn [map] in *.
    injection Hn as Hf Hn. apply NoDup_cons in Hnd as [Hx Hnd].
    cbn [slices expected_outputs]. constructor.
    + unfold Os.open_rb. rewrite Hf, expected_outputs_other by exact Hx.
      rewrite lookup_insert_eq. reflexivity.
    + apply IH; assumption.
Qed.

Lemma sectors_nonneg_bytes (b : Z) (l : list Track.t) :
  0 < b ->
  Forall (fun x => exists s, Track.sectors x = Some s /\ 0 <= s) l ->
  Forall (fun x => exists s, Track.sectors x = Some s /\ 0 <= s * b) l.
Proof.
  intros Hb H. eapply Forall_impl; [exact H|].
  intros x (s & Hx & Hs). exists s. split; [exact Hx|nia].
Qed.

Lemma free_target_ok (fs : filesystem) (base : string) (count : Z)
    (l : list Track.t) :
  Forall (fun x => Os.exists_ fs (track_filename base (Track.num x) count)
                   = false) l ->
  Forall (target_ok fs base count) l.
Proof.
  intros H. eapply Forall_impl; [exact H|]. intros x Hx. left.
  apply exists_false, Hx.
Qed.

(** The split of a readable source into free targets, whatever the length
    of the source. *)
Lemma split_files_ok (b : Z) (base : string) (merged_file : File.t)
    (fs : filesystem) (data : list byte) :
  0 < b ->
  Os.open_rb fs (File.filename merged_file) = Ok data ->
  Forall (fun x => exists s, Track.sectors x = Some s /\ 0 <= s)
    (File.tracks merged_file) ->
  Forall (fun x => Os.exists_ fs
                     (track_filename base (Track.num x)
                        (Z.of_nat (length (File.tracks merged_file))))
                   = false) (File.tracks merged_file) ->
  split_files (Some b) base merged_file fs
  = (Ok true,
     expected_outputs b base (Z.of_nat (length (File.tracks merged_file)))
       (File.tracks merged_file) O data fs).
Proof.
  intros Hb Hopen Hs Hfree. unfold split_files. rewrite Hopen.
  rewrite (check_targets_free _ _ _ _ Hfree).
  rewrite <- (drop_0 data) at 1.
  rewrite split_tracks_spec;
    [reflexivity|apply sectors_nonneg_bytes; assumption
    |apply free_target_ok; assumption].
Qed.

(** X5. [split_files] does not compare the length of the source with what
    the tracks need.  With a readable source, free and pairwise distinct
    targets, a Blocksize and sector counts set, it returns [True] whatever
    the length of the source, and the file of each track holds the bytes that
    are left from the track's start on, at most [sectors * Blocksize] of
    them: a shorter file than declared when the source ends early, an empty
    one when the source ends before the track starts. *)
Theorem split_files_short_source (b : Z) (new_basename : string)
    (merged_file : File.t) (fs : filesystem) (data : list byte) :
  let count := Z.of_nat (length (File.tracks merged_file)) in
  let name := fun x => track_filename new_basename (Track.num x) count in
  0 < b ->
  Os.open_rb fs (File.filename merged_file) = Ok data ->
  Forall (fun x => exists s, Track.sectors x = Some s /\ 0 <= s)
    (File.tracks merged_file) ->
  Forall (fun x => Os.exists_ fs (name x) = false) (File.tracks merged_file) ->
  NoDup (map name (File.tracks merged_file)) ->
  (split_files (Some b) new_basename merged_file fs).1 = Ok true
  /\ forall k x, File.tracks merged_file !! k = Some x ->
       exists d,
         (split_files (Some b) new_basename merged_file fs).2 !! name x
         = Some (RegularFile true d)
         /\ d = take (track_bytes b x)
                  (drop (track_start b (File.tracks merged_file) k) data)
         /\ length d
            = Nat.min (track_bytes b x)
                (length data - track_start b (File.tracks merged_file) k).
Proof.
  intros count name Hb Hopen Hs Hfree Hnd. subst name. cbn beta in *.
  rewrite (split_files_ok b new_basename merged_file fs data Hb Hopen Hs Hfree).
  split; [reflexivity|]. intros k x Hk. cbn [snd]. eexists.
  split; [apply (expected_outputs_lookup b _ _ data _ O fs k x Hnd Hk)|].
  split; [reflexivity|]. rewrite length_take, length_drop. reflexivity.
Qed.

Lemma split_files_short_source_witness :
  let mf := File.mk "game.bin" [Track.mk 1 [] "MODE1/2352" (Some 1);
                                Track.mk 2 [] "AUDIO" (Some 2)] 3 in
  let fs : filesystem := <["game.bin" := RegularFile true [x01; x02; x03]]> ∅ in
  (split_files (Some 2) "G" mf fs).1 = Ok true
  /\ (split_files (Some 2) "G" mf fs).2 !! "G (Track 2).bin"
     = Some (RegularFile true [x03]).
Proof.
  intros mf fs.
  destruct (split_files_short_source 2 "G" mf fs [x01; x02; x03]) as [H1 H2].
  - lia.
  - reflexivity.
  - repeat constructor; eexists; (split; [reflexivity|lia]).
  - repeat constructor.
  - apply (bool_decide_unpack _). vm_compute. exact I.
  - split; [exact H1|].
    destruct (H2 1%nat (Track.mk 2 [] "AUDIO" (Some 2)) eq_refl)
      as (d & Hd & -> & _).
    exact Hd.
Defined.

Lemma split_tracks_fails (b : Z) (base : string) (count : Z)
    (data : list byte) (x : Track.t) (l2 : list Track.t)
    (l1 : list Track.t) :
  forall (start : nat) (fs : filesystem),
  Forall (fun x => exists s, Track.sectors x = Some s /\ 0 <= s * b) l1 ->
  Forall (target_ok fs base count) l1 ->
  Track.sectors x = None ->
  split_tracks (Some b) base count (l1 ++ x :: l2) (drop start data) fs
  = (Err TypeError, expected_outputs b base count l1 start data fs).
Proof.
  induction l1 as [|y l1 IH]; intros start fs Hs Ht Hx.
  - cbn [app split_tracks expected_outputs]. rewrite Hx. reflexivity.
  - apply Forall_cons in Hs as [(s & Hsy & Hpos) Hs].
    apply Forall_cons in Ht as [Hy Ht].
    cbn [app split_tracks expected_outputs]. unfold track_bytes at 1 2.
    rewrite Hsy. cbn [mul_attr from_option id].
    rewrite (open_wb_fresh _ _ Hy).
    rewrite (split_loop_spec _ _ _ _ _ _ true []) by
      (try lia; apply lookup_insert_eq).
    rewrite insert_insert_eq, Z.sub_0_r, drop_drop. cbn [app].
    apply IH; [exact Hs| |exact Hx].
    eapply Forall_impl; [exact Ht|]. intros z Hz. unfold target_ok in *.
    destruct (decide (track_filename base (Track.num y) count
                      = track_filename base (Track.num z) count)) as [E|E].
    + right. rewrite <- E, lookup_insert_eq. eauto.
    + rewrite lookup_insert_ne by exact E. exact Hz.
Qed.

(** X6. A track without a sector count (the parser sets one only for a
    cuesheet of a single FILE) makes [split_files] raise [TypeError] at
    [t.sectors * Track.globalBlocksize], after the clobber check has passed
    and after the files of the tracks before it have been written in full:
    these stay behind.  With no Blocksize set the first track already raises
    it, before any file is created. *)
Theorem split_files_without_sectors (new_basename : string)
    (merged_file : File.t) (fs : filesystem) (data : list byte)
    (l1 l2 : list Track.t) (x : Track.t) :
  let count := Z.of_nat (length (File.tracks merged_file)) in
  let name := fun x => track_filename new_basename (Track.num x) count in
  File.tracks merged_file = l1 ++ x :: l2 ->
  Os.open_rb fs (File.filename merged_file) = Ok data ->
  Forall (fun x => Os.exists_ fs (name x) = false) (File.tracks merged_file) ->
  (forall b : Z,
      0 < b ->
      Forall (fun x => exists s, Track.sectors x = Some s /\ 0 <= s) l1 ->
      Track.sectors x = None ->
      split_files (Some b) new_basename merged_file fs
      = (Err TypeError, expected_outputs b new_basename count l1 O data fs))
  /\ split_files None new_basename merged_file fs = (Err TypeError, fs).
Proof.
  intros count name Hl Hopen Hfree. subst name. cbn beta in *. split.
  - intros b Hb Hs Hx. unfold split_files. rewrite Hopen. fold count.
    rewrite (check_targets_free _ _ _ _ Hfree), Hl.
    rewrite <- (drop_0 data) at 1.
    rewrite split_tracks_fails;
      [reflexivity|apply sectors_nonneg_bytes; assumption| |exact Hx].
    apply free_target_ok. rewrite Hl in Hfree.
    apply Forall_app in Hfree as [Hfree _]. exact Hfree.
  - unfold split_files. rewrite Hopen. fold count.
    rewrite (check_targets_free _ _ _ _ Hfree), Hl.
    destruct l1 as [|y l1]; cbn [app split_tracks].
    + destruct (Track.sectors x); reflexivity.
    + destruct (Track.sectors y); reflexivity.
Qed.

Lemma split_files_without_sectors_witness :
  let mf := File.mk "game.bin" [Track.mk 1 [] "MODE1/2352" (Some 1);
                                Track.mk 2 [] "AUDIO" None] 3 in
  let fs : filesystem := <["game.bin" := RegularFile true [x01; x02; x03]]> ∅ in
  split_files (Some 2) "G" mf fs
  = (Err TypeError, <["G (Track 1).bin" := RegularFile true [x01; x02]]> fs)
  /\ split_files None "G" mf fs = (Err TypeError, fs).
Proof.
  intros mf fs.
  destruct (split_files_without_sectors "G" mf fs [x01; x02; x03]
              [Track.mk 1 [] "MODE1/2352" (Some 1)] []
              (Track.mk 2 [] "AUDIO" None) eq_refl eq_refl) as [H1 H2].
  - repeat constructor.
  - split; [|exact H2].
    rewrite (H1 2); [reflexivity|lia| |reflexivity].
    repeat constructor; eexists; (split; [reflexivity|lia]).
Defined.

(** X7. Splitting and then merging gives back the source.  After
    [split_files] has written the tracks of a readable source into free,
    pairwise distinct targets, [merge_files] over these track files, in track
    order, into a path that is free and is no target, returns [True] and
    leaves at that path the bytes of the source that the tracks cover: its
    first [sum of sectors * Blocksize] bytes, the whole source when the
    tracks cover it. *)
Theorem split_then_merge (b : Z) (new_basename merged_filename : string)
    (merged_file : File.t) (fls : list File.t) (fs : filesystem)
    (data : list byte) :
  let count := Z.of_nat (length (File.tracks merged_file)) in
  let name := fun x => track_filename new_basename (Track.num x) count in
  0 < b ->
  Os.open_rb fs (File.filename merged_file) = Ok data ->
  Forall (fun x => exists s, Track.sectors x = Some s /\ 0 <= s)
    (File.tracks merged_file) ->
  Forall (fun x => Os.exists_ fs (name x) = false) (File.tracks merged_file) ->
  NoDup (map name (File.tracks merged_file)) ->
  map File.filename fls = map name (File.tracks merged_file) ->
  Os.exists_ fs merged_filename = false ->
  merged_filename ∉ map name (File.tracks merged_file) ->
  exists fs1,
    split_files (Some b) new_basename merged_file fs = (Ok true, fs1)
    /\ merge_files merged_filename fls fs1
       = (Ok true,
          <[merged_filename :=
              RegularFile true
                (take (sum_list_with (track_bytes b)
                         (File.tracks merged_file)) data)]> fs1)
    /\ (sum_list_with (track_bytes b) (File.tracks merged_file)
        = length data ->
        Os.open_rb
          (merge_files merged_filename fls fs1).2 merged_filename = Ok data).
Proof.
  intros count name Hb Hopen Hs Hfree Hnd Hfls Hout Hno.
  subst name. cbn beta in *. eexists. split.
  - apply (split_files_ok b new_basename merged_file fs data Hb Hopen Hs Hfree).
  - fold count.
    assert (merge_files merged_filename fls
              (expected_outputs b new_basename count
                 (File.tracks merged_file) O data fs)
            = (Ok true,
               <[merged_filename :=
                   RegularFile true
                     (take (sum_list_with (track_bytes b)
                              (File.tracks merged_file)) data)]>
                 (expected_outputs b new_basename count
                    (File.tracks merged_file) O data fs))) as Hm.
    { assert (Os.exists_
                (expected_outputs b new_basename count
                   (File.tracks merged_file) O data fs) merged_filename
              = false) as Hfree1.
      { unfold Os.exists_ in *.
        rewrite expected_outputs_other by exact Hno. exact Hout. }
      unfold merge_files. rewrite Hfree1.
      rewrite (open_wb_fresh _ merged_filename)
        by (left; apply exists_false, Hfree1).
      rewrite (merge_loop_spec _ _ _
                 (slices b (File.tracks merged_file) O data) [])
        by (apply sources_not_target;
            [exact Hfree1|apply expected_outputs_open; assumption]).
      cbn [app]. rewrite concat_slices, drop_0. reflexivity. }
    split; [exact Hm|]. intros Hsum. rewrite Hm. cbn [snd].
    unfold Os.open_rb. rewrite lookup_insert_eq, Hsum, firstn_all.
    reflexivity.
Qed.

Lemma split_then_merge_witness :
  let mf := File.mk "game.bin" [Track.mk 1 [] "MODE1/2352" (Some 1);
                                Track.mk 2 [] "AUDIO" (Some 2)] 6 in
  let fs : filesystem :=
    <["game.bin" := RegularFile true [x01; x02; x03; x04; x05; x06]]> ∅ in
  exists fs1,
    split_files (Some 2) "G" mf fs = (Ok true, fs1)
    /\ Os.open_rb
         (merge_files "M.bin"
            [File.mk "G (Track 1).bin" [] 2; File.mk "G (Track 2).bin" [] 4]
            fs1).2 "M.bin"
       = Ok [x01; x02; x03; x04; x05; x06].
Proof.
  intros mf fs.
  destruct (split_then_merge 2 "G" "M.bin" mf
              [File.mk "G (Track 1).bin" [] 2; File.mk "G (Track 2).bin" [] 4]
              fs [x01; x02; x03; x04; x05; x06])
    as (fs1 & H1 & _ & H3).
  - lia.
  - reflexivity.
  - repeat constructor; eexists; (split; [reflexivity|lia]).
  - repeat constructor.
  - apply (bool_decide_unpack _). vm_compute. exact I.
  - reflexivity.
  - reflexivity.
  - apply (bool_decide_unpack _). vm_compute. exact I.
  - exists fs1. split; [exact H1|]. apply H3. reflexivity.
Defined.
(** ** Track file names *)

Lemma string_app_inv_head (a b c : string) : a +:+ b = a +:+ c -> b = c.
Proof.
  induction a as [|x a IH]; [auto|].
  change (String x a +:+ ?s) with (String x (a +:+ s)).
  intros [= H]. exact (IH H).
Qed.

Lemma string_app_inv_length (a b x y : string) :
  String.length a = String.length b -> a +:+ x = b +:+ y -> a = b.
Proof.
  revert b. induction a as [|c a IH]; intros [|d b] Hl; try discriminate.
  - reflexivity.
  - change (String ?k ?s +:+ ?t) with (String k (s +:+ t)).
    intros [= -> H]. f_equal. apply IH; [|exact H].
    cbn in Hl. lia.
Qed.

Lemma string_app_inv_tail (a b c : string) : a +:+ c = b +:+ c -> a = b.
Proof.
  intros H. apply (string_app_inv_length a b c c); [|exact H].
  apply (f_equal String.length) in H. rewrite !length_app_string in H. lia.
Qed.

Lemma fmt_0d_inj (w : nat) (a b : Z) :
  0 <= a -> 0 <= b -> fmt_0d w a = fmt_0d w b -> a = b.
Proof.
  intros Ha Hb H. rewrite <- (py_int_fmt_0d w a Ha), <- (py_int_fmt_0d w b Hb).
  rewrite H. reflexivity.
Qed.

Lemma track_filename_inj_nonneg (prefix : string) (a b count : Z) :
  0 <= a -> 0 <= b ->
  track_filename prefix a count = track_filename prefix b count -> a = b.
Proof.
  intros Ha Hb. unfold track_filename, fmt_d.
  destruct (9 <? count); intros H;
    apply string_app_inv_head, string_app_inv_head, string_app_inv_tail in H;
    exact (fmt_0d_inj _ a b Ha Hb H).
Qed.

(** X8. For a given prefix and track count, [track_filename] gives tracks of
    different (non-negative) numbers different names, with or without the
    zero padding; so tracks with pairwise different numbers get pairwise
    different target files, and [split_files] does not write one track's
    file over another's. *)
Theorem track_filename_inj (prefix : string) (count : Z) :
  (forall a b : Z,
      0 <= a -> 0 <= b ->
      track_filename prefix a count = track_filename prefix b count -> a = b)
  /\ (forall l : list Track.t,
        Forall (fun x => 0 <= Track.num x) l ->
        NoDup (map Track.num l) ->
        NoDup (map (fun x => track_filename prefix (Track.num x) count) l)).
Proof.
  split; [exact (fun a b => track_filename_inj_nonneg prefix a b count)|].
  intros l Hl. induction Hl as [|x l Hx Hl IH]; intros Hnd; [constructor|].
  cbn [map] in *. apply NoDup_cons in Hnd as [Hin Hnd].
  apply NoDup_cons. split; [|exact (IH Hnd)].
  intros H. apply Hin. apply list_elem_of_fmap in H as (y & Hy & Hyl).
  apply list_elem_of_fmap. exists y. split; [|exact Hyl].
  apply (track_filename_inj_nonneg prefix _ _ count Hx); [|exact Hy].
  exact (proj1 (Forall_forall _ _) Hl y Hyl).
Qed.

Lemma track_filename_inj_witness :
  NoDup (map (fun x => track_filename "G" (Track.num x) 12)
           [Track.mk 1 [] "AUDIO" None; Track.mk 10 [] "AUDIO" None;
            Track.mk 11 [] "AUDIO" None]).
Proof.
  apply (proj2 (track_filename_inj "G" 12)).
  - repeat constructor; cbn; lia.
  - apply (bool_decide_unpack _). vm_compute. exact I.
Defined.
(** ** The split engine, track by track *)

Lemma py_int_padded (n : nat) (k : N) :
  py_int (zeros n +:+ decimal k) = Z.of_N k.
Proof.
  unfold py_int. rewrite int_acc_app, int_acc_zeros. apply py_int_decimal.
Qed.

(** [%d] and [%0<w>d] print different integers differently, whatever their
    signs. *)
Lemma fmt_0d_inj_all (w : nat) (a b : Z) : fmt_0d w a = fmt_0d w b -> a = b.
Proof.
  destruct (Z.ltb_spec a 0) as [Ha|Ha], (Z.ltb_spec b 0) as [Hb|Hb].
  - unfold fmt_0d.
    assert ((a <? 0) = true) as -> by (apply Z.ltb_lt; exact Ha).
    assert ((b <? 0) = true) as -> by (apply Z.ltb_lt; exact Hb).
    change ("-" +:+ ?s) with (String "-" s).
    intros [= H]. apply (f_equal py_int) in H.
    rewrite !py_int_padded in H. lia.
  - intros H. destruct (fmt_0d_digit_run w b Hb) as [_ Hd].
    rewrite <- H in Hd. unfold fmt_0d in Hd.
    assert ((a <? 0) = true) as Hlt by (apply Z.ltb_lt; exact Ha).
    rewrite Hlt in Hd. change ("-" +:+ ?s) with (String "-" s) in Hd.
    discriminate Hd.
  - intros H. destruct (fmt_0d_digit_run w a Ha) as [_ Hd].
    rewrite H in Hd. unfold fmt_0d in Hd.
    assert ((b <? 0) = true) as Hlt by (apply Z.ltb_lt; exact Hb).
    rewrite Hlt in Hd. change ("-" +:+ ?s) with (String "-" s) in Hd.
    discriminate Hd.
  - apply fmt_0d_inj; assumption.
Qed.

Lemma track_filename_inj_all (prefix : string) (count a b : Z) :
  track_filename prefix a count = track_filename prefix b count -> a = b.
Proof.
  unfold track_filename, fmt_d.
  destruct (9 <? count); intros H;
    apply string_app_inv_head, string_app_inv_head, string_app_inv_tail in H;
    exact (fmt_0d_inj_all _ a b H).
Qed.

(** Tracks with pairwise different numbers get pairwise different files. *)
Lemma track_names_NoDup (prefix : string) (count : Z) (l : list Track.t) :
  NoDup (map Track.num l) ->
  NoDup (map (fun x => track_filename prefix (Track.num x) count) l).
Proof.
  induction l as [|x l IH]; intros Hnd; [constructor|].
  cbn [map] in *. apply NoDup_cons in Hnd as [Hin Hnd].
  apply NoDup_cons. split; [|exact (IH Hnd)].
  intros H. apply Hin. apply list_elem_of_fmap in H as (y & Hy & Hyl).
  apply list_elem_of_fmap. exists y. split; [|exact Hyl].
  exact (track_filename_inj_all prefix count _ _ Hy).
Qed.

(** C2, the claim as stated fails, in two ways, on discs that
    [read_cue_file] returns with every sector count set, a binary as long as
    the counts add up to, and free targets.
    - Two tracks with the same number share one target name: [split_files]
      returns [True], and the one file it leaves holds the second track's
      sector; the first track's bytes are in no file.
    - A track that starts past the end of the binary gets a negative count
      (here 3 and -1 for a binary of two sectors): the first track's file
      gets the two sectors there are, not three, and the second track's
      read is refused with [ValueError]. *)
Lemma split_files_writes_counterexample :
  (exists merged_file : File.t,
      read_cue_file (two_sector_fs twice_cue) "/d/game.cue" None
      = (Ok [merged_file], Some 2352)
      /\ map Track.num (File.tracks merged_file) = [1; 1]
      /\ map Track.sectors (File.tracks merged_file) = [Some 1; Some 1]
      /\ Os.exists_ (two_sector_fs twice_cue) "/out/G (Track 1).bin" = false
      /\ split_files (Some 2352) "/out/G" merged_file (two_sector_fs twice_cue)
         = (Ok true,
            <["/out/G (Track 1).bin" :=
                RegularFile true (repeat x02 (Z.to_nat 2352))]>
              (two_sector_fs twice_cue)))
  /\ (exists merged_file : File.t,
        read_cue_file (two_sector_fs past_end_cue) "/d/game.cue" None
        = (Ok [merged_file], Some 2352)
        /\ map Track.num (File.tracks merged_file) = [1; 2]
        /\ map Track.sectors (File.tracks merged_file) = [Some 3; Some (-1)]
        /\ Os.exists_ (two_sector_fs past_end_cue) "/out/G (Track 1).bin"
           = false
        /\ Os.exists_ (two_sector_fs past_end_cue) "/out/G (Track 2).bin"
           = false
        /\ split_files (Some 2352) "/out/G" merged_file
             (two_sector_fs past_end_cue)
           = (Err ValueError,
              <["/out/G (Track 2).bin" := RegularFile true []]>
                (<["/out/G (Track 1).bin" := RegularFile true two_sectors]>
                   (two_sector_fs past_end_cue)))).
Proof.
  split; eexists; (split; [vm_compute; reflexivity|]);
    repeat (split; [reflexivity|]);
    apply (bool_decide_unpack _); vm_compute; exact I.
Qed.

(** C2, amended.  For a source file whose binary opens for reading, with a
    Blocksize [b] set, whose tracks all have a sector count that is not
    negative and carry pairwise different numbers, whose binary holds at
    least the sum of the tracks' [sectors * b] bytes and whose target names
    are all free: [split_files] returns [True], and afterwards the file
    named for each track holds exactly [sectors * b] bytes, those of the
    source from where the track before ended (the first track from the
    start); every path that is not a target is as it was. *)
Theorem split_files_writes (b : Z) (new_basename : string)
    (merged_file : File.t) (fs : filesystem) (data : list byte) :
  let tracks := File.tracks merged_file in
  let count := Z.of_nat (length tracks) in
  let name := fun x => track_filename new_basename (Track.num x) count in
  0 < b ->
  Os.open_rb fs (File.filename merged_file) = Ok data ->
  Forall (fun x => exists s, Track.sectors x = Some s /\ 0 <= s) tracks ->
  NoDup (map Track.num tracks) ->
  (sum_list_with (track_bytes b) tracks <= length data)%nat ->
  Forall (fun x => Os.exists_ fs (name x) = false) tracks ->
  exists fs' : filesystem,
    split_files (Some b) new_basename merged_file fs = (Ok true, fs')
    /\ (forall k x, tracks !! k = Some x ->
          exists (s : Z) (d : list byte),
            Track.sectors x = Some s
            /\ fs' !! name x = Some (RegularFile true d)
            /\ d = take (Z.to_nat (s * b))
                     (drop (track_start b tracks k) data)
            /\ Z.of_nat (length d) = s * b)
    /\ (forall p, p ∉ map name tracks -> fs' !! p = fs !! p).
Proof.
  intros tracks count name Hb Hopen Hs Hnum Hsum Hfree.
  exists (expected_outputs b new_basename count tracks O data fs).
  split; [exact (split_files_ok b new_basename merged_file fs data Hb Hopen
                   Hs Hfree)|].
  split; [|intros p Hp; apply expected_outputs_other; exact Hp].
  intros k x Hk.
  destruct (proj1 (Forall_lookup _ _) Hs k x Hk) as (s & Hx & Hpos).
  pose proof (track_names_NoDup new_basename count tracks Hnum) as Hnd.
  assert (track_bytes b x = Z.to_nat (s * b)) as Hbytes
    by (unfold track_bytes; rewrite Hx; reflexivity).
  exists s, (take (Z.to_nat (s * b)) (drop (track_start b tracks k) data)).
  split; [exact Hx|]. split; [|split; [reflexivity|]].
  - unfold name.
    rewrite (expected_outputs_lookup b _ _ data _ O fs k x Hnd Hk), Hbytes.
    reflexivity.
  - rewrite <- Hbytes, (expected_outputs_length b _ data k x Hsum Hk), Hbytes.
    nia.
Qed.

Lemma split_files_writes_witness :
  let merged_file :=
    File.mk "/d/game.bin" [Track.mk 1 [] "MODE1/2352" (Some 1);
                           Track.mk 2 [] "AUDIO" (Some 1)] 4704 in
  exists fs' : filesystem,
    split_files (Some 2352) "/out/G" merged_file (two_sector_fs small_cue)
    = (Ok true, fs')
    /\ fs' !! "/out/G (Track 1).bin"
       = Some (RegularFile true (repeat x01 (Z.to_nat 2352)))
    /\ fs' !! "/out/G (Track 2).bin"
       = Some (RegularFile true (repeat x02 (Z.to_nat 2352)))
    /\ fs' !! "/d/game.bin" = Some (RegularFile true two_sectors).
Proof.
  intros merged_file.
  destruct (split_files_writes 2352 "/out/G" merged_file
              (two_sector_fs small_cue) two_sectors)
    as (fs' & Hrun & Hfiles & Hother).
  - lia.
  - reflexivity.
  - repeat constructor; eexists; (split; [reflexivity|lia]).
  - apply (bool_decide_unpack _). vm_compute. exact I.
  - vm_compute. lia.
  - repeat constructor.
  - exists fs'. split; [exact Hrun|].
    destruct (Hfiles 0%nat _ eq_refl) as (s1 & d1 & Hs1 & Hf1 & -> & _).
    destruct (Hfiles 1%nat _ eq_refl) as (s2 & d2 & Hs2 & Hf2 & -> & _).
    injection Hs1 as <-. injection Hs2 as <-.
    split; [exact Hf1|]. split; [exact Hf2|].
    rewrite Hother; [reflexivity|].
    apply (bool_decide_unpack _). vm_compute. exact I.
Defined.
(** ** Timestamps, the other way round *)

(** X9. A timestamp in canonical form, two digits each with minutes below
    100, seconds below 60 and frames below 75, is read by
    [cuestamp_to_sectors] as [frames + 75*seconds + 4500*minutes] and printed
    back by [sectors_to_cuestamp] as the very same text. *)
Theorem cuestamp_canonical_roundtrip (m s f : Z) :
  0 <= m < 100 -> 0 <= s < 60 -> 0 <= f < 75 ->
  let stamp := fmt_0d 2 m +:+ ":" +:+ fmt_0d 2 s +:+ ":" +:+ fmt_0d 2 f in
  cuestamp_to_sectors stamp = Ok (f + s * 75 + m * 60 * 75)
  /\ (n <- cuestamp_to_sectors stamp ;; sectors_to_cuestamp (PyInt n))
     = Ok stamp.
Proof.
  intros Hm Hs Hf stamp.
  assert (cuestamp_to_sectors stamp = Ok (f + s * 75 + m * 60 * 75)) as H.
  { subst stamp. rewrite <- (string_app_nil_r (fmt_0d 2 f)).
    rewrite cuestamp_to_sectors_run;
      [|apply fmt_0d_digit_run; lia..|reflexivity].
    rewrite !py_int_fmt_0d by lia. reflexivity. }
  split; [exact H|]. rewrite H. cbn [bind].
  rewrite sectors_to_cuestamp_int by lia. subst stamp.
  replace ((f + s * 75 + m * 60 * 75) / 4500) with m
    by (Z.div_mod_to_equations; lia).
  replace ((f + s * 75 + m * 60 * 75) mod 4500 / 75) with s
    by (Z.div_mod_to_equations; lia).
  replace ((f + s * 75 + m * 60 * 75) mod 75) with f
    by (Z.div_mod_to_equations; lia).
  reflexivity.
Qed.

Lemma cuestamp_canonical_roundtrip_witness :
  (n <- cuestamp_to_sectors "02:40:07" ;; sectors_to_cuestamp (PyInt n))
  = Ok "02:40:07".
Proof.
  refine (proj2 (cuestamp_canonical_roundtrip 2 40 7 _ _ _)); lia.
Defined.

(** X10. [sectors_to_cuestamp] gives for a float that holds a whole number
    of sectors the text it gives for that number as an [int]: the minutes and
    seconds come from the same float quotients, and the float remainders are
    exact.  This holds for every count below [2^53], and below 100 minutes
    the text is [MM:SS:FF] of the count. *)
Theorem sectors_to_cuestamp_float_int (n : Z) :
  (0 <= n < 2 ^ 53 ->
   sectors_to_cuestamp (PyFloat (float_of_int n))
   = sectors_to_cuestamp (PyInt n))
  /\ (0 <= n < 450000 ->
      sectors_to_cuestamp (PyFloat (float_of_int n)) = Ok (stamp_text n)).
Proof.
  split; intros H.
  - apply sectors_to_cuestamp_float. exact H.
  - rewrite sectors_to_cuestamp_float by lia.
    apply sectors_to_cuestamp_int. exact H.
Qed.

Lemma sectors_to_cuestamp_float_int_witness :
  sectors_to_cuestamp (PyFloat (float_of_int 162074)) = Ok (stamp_text 162074).
Proof. apply (proj2 (sectors_to_cuestamp_float_int 162074)). lia. Defined.

(** ** The sector counts add up *)

Lemma backfilled_total (l : list Track.t) (end_ : Z) (x : Track.t) :
  head l = Some x ->
  total_sectors (backfilled l end_) = end_ - first_offset x.
Proof.
  revert x. induction l as [|y l IH]; intros x Hx; [discriminate|].
  injection Hx as ->. cbn [backfilled total_sectors Track.sectors
    Track.set_sectors from_option id].
  destruct l as [|z l]; [cbn; lia|].
  rewrite (IH z eq_refl). lia.
Qed.

Lemma backfilled_nonneg (l : list Track.t) (end_ : Z) :
  (forall k x, l !! k = Some x ->
     first_offset x
     <= match l !! S k with Some y => first_offset y | None => end_ end) ->
  Forall (fun x => exists s, Track.sectors x = Some s /\ 0 <= s)
    (backfilled l end_).
Proof.
  intros H. apply Forall_lookup. intros k x' Hk.
  assert (exists x, l !! k = Some x) as [x Hx].
  { destruct (l !! k) as [x|] eqn:E; [eauto|].
    exfalso. revert k Hk E. clear H.
    induction l as [|y l IH]; intros [|k]; cbn; try discriminate.
    apply IH. }
  rewrite (backfilled_lookup l end_ k x Hx) in Hk. injection Hk as <-.
  eexists. split; [reflexivity|]. specialize (H k x Hx). lia.
Qed.

(** X11. In a cuesheet of a single FILE whose tracks each have an index, the
    sector counts that [read_cue_file] fills in add up to the sectors of the
    file ([size // Blocksize]) minus the offset of the first track's first
    index: no sector is counted twice and none is left out between tracks.
    When the first-index offsets do not decrease from track to track and the
    last is inside the file, every count is non-negative; and when the first
    track starts at 0 and the size is a whole number of blocks, the counts
    times the Blocksize are exactly the size of the file. *)
Theorem read_cue_file_sectors_sum (fs : filesystem) (cue_path : string)
    (gb : option Z) (data : list byte) (st : locals) (b : Z) (f : File.t)
    (x0 : Track.t) :
  Os.open_rb fs cue_path = Ok data ->
  read_cue_lines fs cue_path (readlines data) (mkLocals [] None None) gb
  = (Ok st, Some b) ->
  b <> 0 ->
  files st = [f] ->
  Forall (fun x => Track.indexes x <> []) (File.tracks f) ->
  head (File.tracks f) = Some x0 ->
  exists ts,
    read_cue_file fs cue_path gb = (Ok [File.set_tracks ts f], Some b)
    /\ total_sectors ts = File.size f / b - first_offset x0
    /\ ((forall k x, File.tracks f !! k = Some x ->
           first_offset x
           <= match File.tracks f !! S k with
              | Some y => first_offset y
              | None => File.size f / b
              end) ->
        Forall (fun x => exists s, Track.sectors x = Some s /\ 0 <= s) ts)
    /\ (first_offset x0 = 0 -> File.size f mod b = 0 ->
        total_sectors ts * b = File.size f).
Proof.
  intros Hopen Hlines Hb Hf Hidx Hx0.
  exists (backfilled (File.tracks f) (File.size f / b)).
  split; [|split; [|split]].
  - unfold read_cue_file. rewrite Hopen, Hlines, Hf.
    rewrite (calc_sectors_single f b Hb Hidx). reflexivity.
  - apply backfilled_total. exact Hx0.
  - apply backfilled_nonneg.
  - intros H0 Hmod. rewrite (backfilled_total _ _ x0 Hx0), H0, Z.sub_0_r.
    rewrite Z.mul_comm. symmetry. apply Z.div_exact; assumption.
Qed.

Lemma read_cue_file_sectors_sum_witness :
  exists ts,
    read_cue_file (example_cue_fs (repeat x00 (Z.to_nat 4704))) "/d/game.cue"
      None
    = (Ok [File.set_tracks ts
             (File.mk "/d/game.bin"
                [Track.mk 1 [Index.mk 1 "00:00:00" 0] "MODE1/2352" None;
                 Track.mk 2 [Index.mk 1 "02:40:00" 12000] "AUDIO" None]
                (Z.of_nat (length (repeat x00 (Z.to_nat 4704)))))],
       Some 2352)
    /\ total_sectors ts
       = Z.of_nat (length (repeat x00 (Z.to_nat 4704))) / 2352 - 0.
Proof.
  destruct (read_cue_file_sectors_sum
              (example_cue_fs (repeat x00 (Z.to_nat 4704)))
              "/d/game.cue" None (list_byte_of_string example_cue)
              _ 2352 _ (Track.mk 1 [Index.mk 1 "00:00:00" 0] "MODE1/2352" None)
              eq_refl (example_cue_lines _) ltac:(lia) eq_refl
              ltac:(repeat constructor; discriminate) eq_refl)
    as (ts & H1 & H2 & _).
  exists ts. split; [exact H1|exact H2].
Defined.
(** ** Lines the parser passes over *)

Lemma read_cue_line_skip (fs : filesystem) (cue_path line : string)
    (st : locals) (gb : option Z) :
  Re.search file_re line = None ->
  Re.search track_re line = None \/ this_file st = None ->
  this_track st = None ->
  read_cue_line fs cue_path line st gb = (Ok st, gb).
Proof.
  intros Hf Ht Hi. unfold read_cue_line. rewrite Hf, Hi.
  destruct Ht as [-> | ->].
  - destruct (Re.search index_re line); reflexivity.
  - destruct (Re.search track_re line), (Re.search index_re line);
      reflexivity.
Qed.

Lemma read_cue_lines_skip (fs : filesystem) (cue_path : string)
    (lines : list string) (st : locals) (gb : option Z) :
  Forall (fun line => Re.search file_re line = None
                      /\ (Re.search track_re line = None
                          \/ this_file st = None)) lines ->
  this_track st = None ->
  read_cue_lines fs cue_path lines st gb = (Ok st, gb).
Proof.
  intros H Hi. induction H as [|line lines [Hf Ht] _ IH]; [reflexivity|].
  cbn [read_cue_lines]. rewrite (read_cue_line_skip _ _ _ _ _ Hf Ht Hi).
  exact IH.
Qed.

(** X12. A cuesheet in which no line holds a [FILE ... BINARY] declaration
    (one that names only WAVE or MP3 files, say) is read without error as
    the empty list of files: its TRACK and INDEX lines are passed over, no
    track is made and [Track.globalBlocksize] is left as it was. *)
Theorem read_cue_file_no_file_line (fs : filesystem) (cue_path : string)
    (gb : option Z) (data : list byte) :
  Os.open_rb fs cue_path = Ok data ->
  Forall (fun line => Re.search file_re line = None) (readlines data) ->
  read_cue_file fs cue_path gb = (Ok [], gb).
Proof.
  intros Hopen H. unfold read_cue_file. rewrite Hopen.
  rewrite read_cue_lines_skip; [reflexivity| |reflexivity].
  eapply Forall_impl; [exact H|]. intros line Hl. split; [exact Hl|].
  right. reflexivity.
Qed.

Lemma read_cue_file_no_file_line_witness :
  let cue := "FILE " +:+ dquote +:+ "a.wav" +:+ dquote +:+ " WAVE" +:+ nl +:+
             "  TRACK 01 AUDIO" +:+ nl +:+ "    INDEX 01 00:00:00" +:+ nl in
  let fs : filesystem :=
    <["/d/a.cue" := RegularFile true (list_byte_of_string cue)]> ∅ in
  read_cue_file fs "/d/a.cue" None = (Ok [], None).
Proof.
  intros cue fs.
  apply (read_cue_file_no_file_line fs "/d/a.cue" None
           (list_byte_of_string cue)); [reflexivity|].
  assert (readlines (list_byte_of_string cue)
          = ["FILE " +:+ dquote +:+ "a.wav" +:+ dquote +:+ " WAVE" +:+ nl;
             "  TRACK 01 AUDIO" +:+ nl; "    INDEX 01 00:00:00" +:+ nl])
    as -> by (vm_compute; reflexivity).
  repeat (apply Forall_cons; split; [vm_compute; reflexivity|]).
  apply Forall_nil_2.
Defined.

(** X13. A cuesheet with exactly one FILE line, naming a binary that is
    there, and no TRACK line makes [read_cue_file] raise [TypeError] when no
    Blocksize has been set before: one file was found, so the sector counts
    are to be computed, and [size // Track.globalBlocksize] divides by
    [None]. *)
Theorem read_cue_file_no_track_line (fs : filesystem) (cue_path : string)
    (data : list byte) (pre post : list string) (line : string)
    (m : list string) (n : node) :
  Os.open_rb fs cue_path = Ok data ->
  readlines data = pre ++ line :: post ->
  Forall (fun l => Re.search file_re l = None
                   /\ Re.search track_re l = None) (pre ++ post) ->
  Re.search file_re line = Some m ->
  fs !! Os.join (Os.dirname cue_path) (Re.group m 1) = Some n ->
  (forall r s, n = Directory r s -> r = true) ->
  read_cue_file fs cue_path None = (Err TypeError, None).
Proof.
  intros Hopen Hlines Hskip Hm Hn Hdir. apply Forall_app in Hskip as [Hpre Hpost].
  unfold read_cue_file. rewrite Hopen, Hlines, read_cue_lines_app.
  rewrite read_cue_lines_skip; [|
    eapply Forall_impl; [exact Hpre|]; intros l [Hf Ht]; auto | reflexivity].
  cbn [read_cue_lines]. unfold read_cue_line at 1. rewrite Hm.
  unfold Os.isfile, Os.access_R_OK, File.__init__, Os.getsize. rewrite Hn.
  destruct n as [r d|r s].
  - cbn [negb orb bind files this_track length app].
    rewrite read_cue_lines_skip; [reflexivity| |reflexivity].
    eapply Forall_impl; [exact Hpost|]. intros l [Hf Ht]; auto.
  - rewrite (Hdir r s eq_refl).
    cbn [negb orb bind files this_track length app].
    rewrite read_cue_lines_skip; [reflexivity| |reflexivity].
    eapply Forall_impl; [exact Hpost|]. intros l [Hf Ht]; auto.
Qed.

Lemma read_cue_file_no_track_line_witness :
  let cue := "REM made by hand" +:+ nl +:+
             "FILE " +:+ dquote +:+ "game.bin" +:+ dquote +:+ " BINARY"
             +:+ nl in
  let fs : filesystem :=
    <["/d/game.cue" := RegularFile true (list_byte_of_string cue)]>
      (<["/d/game.bin" := RegularFile true [x01; x02]]> ∅) in
  read_cue_file fs "/d/game.cue" None = (Err TypeError, None).
Proof.
  intros cue fs.
  apply (read_cue_file_no_track_line fs "/d/game.cue"
           (list_byte_of_string cue) ["REM made by hand" +:+ nl] []
           ("FILE " +:+ dquote +:+ "game.bin" +:+ dquote +:+ " BINARY" +:+ nl)
           ["game.bin"] (RegularFile true [x01; x02])).
  - reflexivity.
  - reflexivity.
  - cbn [app].
    repeat (apply Forall_cons; split; [split; vm_compute; reflexivity|]).
    apply Forall_nil_2.
  - reflexivity.
  - reflexivity.
  - discriminate.
Defined.
(** ** Tracks without an index *)

Lemma backfill_index_error (rts : list Track.t) :
  forall (next : Z) (done : list Track.t),
  Exists (fun x => Track.indexes x = []) rts ->
  backfill rts next done = Err IndexError.
Proof.
  induction rts as [|x rts IH]; intros next done H; [inversion H|].
  cbn [backfill]. destruct (Track.indexes x) as [|i il] eqn:E; [reflexivity|].
  apply Exists_cons in H as [H|H]; [congruence|]. apply IH. exact H.
Qed.

(** X14. When the lines of a cuesheet yield exactly one file and one of its
    tracks has no INDEX line, [read_cue_file] raises [IndexError]: the
    sector-count walk reads [t.indexes[0]] of every track.  The walk is only
    made for a single file: with two files or more the same tracks are
    returned as they are, without error. *)
Theorem read_cue_file_track_without_index (fs : filesystem)
    (cue_path : string) (gb : option Z) (data : list byte) (st : locals)
    (b : Z) :
  Os.open_rb fs cue_path = Ok data ->
  read_cue_lines fs cue_path (readlines data) (mkLocals [] None None) gb
  = (Ok st, Some b) ->
  b <> 0 ->
  (forall f, files st = [f] ->
     Exists (fun x => Track.indexes x = []) (File.tracks f) ->
     read_cue_file fs cue_path gb = (Err IndexError, Some b))
  /\ (forall f g l, files st = f :: g :: l ->
        read_cue_file fs cue_path gb = (Ok (files st), Some b)).
Proof.
  intros Hopen Hlines Hb. unfold read_cue_file. rewrite Hopen, Hlines.
  split.
  - intros f -> H. unfold calc_sectors, floordiv.
    destruct (Z.eqb_spec b 0) as [|_]; [contradiction|]. cbn [bind].
    rewrite backfill_index_error; [reflexivity|].
    apply Exists_exists in H as (x & Hx & Hi). apply Exists_exists.
    exists x. split; [|exact Hi].
    apply list_elem_of_In. apply -> in_rev. apply list_elem_of_In. exact Hx.
  - intros f g l ->. reflexivity.
Qed.

Lemma read_cue_file_track_without_index_witness :
  let cue := "FILE " +:+ dquote +:+ "game.bin" +:+ dquote +:+ " BINARY" +:+ nl
             +:+ "  TRACK 01 MODE1/2352" +:+ nl
             +:+ "    INDEX 01 00:00:00" +:+ nl
             +:+ "  TRACK 02 AUDIO" +:+ nl in
  let fs : filesystem :=
    <["/d/game.cue" := RegularFile true (list_byte_of_string cue)]>
      (<["/d/game.bin" := RegularFile true [x01; x02]]> ∅) in
  read_cue_file fs "/d/game.cue" None = (Err IndexError, Some 2352).
Proof.
  intros cue fs.
  refine (proj1 (read_cue_file_track_without_index fs "/d/game.cue" None
                   (list_byte_of_string cue)
                   (mkLocals
                      [File.mk "/d/game.bin"
                         [Track.mk 1 [Index.mk 1 "00:00:00" 0] "MODE1/2352"
                            None;
                          Track.mk 2 [] "AUDIO" None] 2]
                      (Some (O, 1%nat)) (Some O))
                   2352 _ _ _) _ eq_refl _).
  - reflexivity.
  - vm_compute. reflexivity.
  - lia.
  - right. left. reflexivity.
Defined.

(** ** The Blocksize outlives the parse *)

Lemma lock_set_or_kept (tag : string) (gb : option Z) :
  Track.lock tag gb = gb
  \/ exists b, Track.lock tag gb = Some b /\ b ∈ [2352; 2448; 2048; 2336].
Proof.
  unfold Track.lock.
  repeat match goal with
         | |- context [if ?c then _ else _] => destruct c
         end; try (left; reflexivity); right; eexists; (split; [reflexivity|]);
    set_solver.
Qed.

Lemma read_cue_line_blocksize (fs : filesystem) (cue_path line : string)
    (st : locals) (gb : option Z) :
  (read_cue_line fs cue_path line st gb).2 = gb
  \/ exists b, (read_cue_line fs cue_path line st gb).2 = Some b
               /\ b ∈ [2352; 2448; 2048; 2336].
Proof.
  unfold read_cue_line.
  destruct (Re.search file_re line).
  - left. destruct (negb _); reflexivity.
  - destruct (Re.search track_re line) as [m|], (this_file st) as [fi|].
    1: { unfold Track.__init__. destruct (negb (truthy gb)).
         - destruct (lock_set_or_kept (Re.group m 2) gb) as [E|(b & E & Hb)].
           + left. rewrite E. destruct gb; reflexivity.
           + right. exists b. rewrite E. auto.
         - left. reflexivity. }
    all: left; destruct (Re.search index_re line),
           (this_track st) as [[]|]; reflexivity.
Qed.

Lemma read_cue_lines_blocksize (fs : filesystem) (cue_path : string)
    (lines : list string) :
  forall (st : locals) (gb : option Z),
  (gb = None \/ exists b, gb = Some b /\ b ∈ [2352; 2448; 2048; 2336]) ->
  let gb' := (read_cue_lines fs cue_path lines st gb).2 in
  gb' = None \/ exists b, gb' = Some b /\ b ∈ [2352; 2448; 2048; 2336].
Proof.
  induction lines as [|l lines IH]; intros st gb H; [exact H|].
  cbn [read_cue_lines].
  pose proof (read_cue_line_blocksize fs cue_path l st gb) as Hl.
  destruct (read_cue_line fs cue_path l st gb) as [[st'|e] gb1];
    cbn [snd] in Hl.
  - apply IH. destruct Hl as [->|(b & -> & Hb)]; [exact H|eauto].
  - cbn [snd]. destruct Hl as [->|(b & -> & Hb)]; [exact H|eauto].
Qed.

Lemma read_cue_file_snd (fs : filesystem) (cue_path : string)
    (gb : option Z) :
  (read_cue_file fs cue_path gb).2
  = match Os.open_rb fs cue_path with
    | Ok data =>
        (read_cue_lines fs cue_path (readlines data) (mkLocals [] None None)
           gb).2
    | Err _ => gb
    end.
Proof.
  unfold read_cue_file. destruct (Os.open_rb fs cue_path); [|reflexivity].
  destruct (read_cue_lines _ _ _ _ _) as [[st|e] gb']; reflexivity.
Qed.

(** X15. [Track.globalBlocksize] is a class attribute and no parse resets
    it.  A parse that starts with it unset leaves it unset or at one of
    2352, 2448, 2048, 2336; and once a parse has set it, every later
    [read_cue_file] in the same process, of whatever cuesheet, leaves it at
    that value whether it returns or raises: the track types of the later
    cuesheet are not looked at. *)
Theorem blocksize_outlives_parse (fs1 fs2 : filesystem)
    (cue1 cue2 : string) (b : Z) :
  (read_cue_file fs1 cue1 None).2 = Some b ->
  b ∈ [2352; 2448; 2048; 2336]
  /\ (read_cue_file fs2 cue2 (read_cue_file fs1 cue1 None).2).2 = Some b.
Proof.
  intros H1.
  assert (b ∈ [2352; 2448; 2048; 2336]) as Hb.
  { rewrite read_cue_file_snd in H1.
    destruct (Os.open_rb fs1 cue1) as [data|e]; [|discriminate].
    destruct (read_cue_lines_blocksize fs1 cue1 (readlines data)
                (mkLocals [] None None) None (or_introl eq_refl))
      as [E|(b' & E & Hb')]; rewrite E in H1; [discriminate|].
    injection H1 as <-. exact Hb'. }
  split; [exact Hb|]. rewrite H1, read_cue_file_snd.
  destruct (Os.open_rb fs2 cue2) as [data|e]; [|reflexivity].
  apply read_cue_lines_locked. cbn [truthy]. set_unfold.
  destruct Hb as [->|[->|[->|[->|[]]]]]; reflexivity.
Qed.

Lemma blocksize_outlives_parse_witness :
  (read_cue_file typo_fs "/d/game.cue"
     (read_cue_file (small_fs true) "/d/game.cue" None).2).2 = Some 2352.
Proof.
  apply (proj2 (blocksize_outlives_parse (small_fs true) typo_fs
                  "/d/game.cue" "/d/game.cue" 2352 eq_refl)).
Defined.
(** ** Cuesheets of several files carry no sector counts *)

Lemma read_cue_line_unsized (fs : filesystem) (cue_path line : string)
    (st st' : locals) (gb gb' : option Z) :
  unsized (files st) ->
  read_cue_line fs cue_path line st gb = (Ok st', gb') ->
  unsized (files st').
Proof.
  unfold read_cue_line, unsized. intros Hinv.
  destruct (Re.search file_re line) as [m|].
  - destruct (negb _); [discriminate|].
    unfold File.__init__. destruct (Os.getsize fs _) as [size|e];
      cbn [bind]; intros [= <- <-]; cbn [files].
    apply Forall_app. split; [exact Hinv|]. repeat constructor.
  - destruct (Re.search track_re line) as [m|], (this_file st) as [fi|].
    1: { destruct (Track.__init__ _ _ gb) as [[x|e] gb1] eqn:Ei;
           cbn [bind]; intros [= <- <-]; cbn [files].
         apply Forall_alter; [exact Hinv|]. intros f _ Hf.
         cbn [File.tracks File.add_track]. apply Forall_app.
         split; [exact Hf|]. constructor; [|constructor].
         unfold Track.__init__ in Ei.
         destruct (negb (truthy gb)); [destruct (Track.lock _ gb)|];
           injection Ei as <- _ || discriminate Ei; reflexivity. }
    all: destruct (Re.search index_re line) as [m'|],
           (this_track st) as [[fi' ti]|];
      try (intros [= <- <-]; exact Hinv).
    all: destruct (cuestamp_to_sectors _) as [off|e]; cbn [bind];
      intros [= <- <-]; cbn [files].
    all: apply Forall_alter; [exact Hinv|]; intros f _ Hf;
      cbn [File.tracks File.set_tracks];
      apply Forall_alter; [exact Hf|]; intros x _ Hx; exact Hx.
Qed.

Lemma read_cue_lines_unsized (fs : filesystem) (cue_path : string)
    (lines : list string) :
  forall (st st' : locals) (gb gb' : option Z),
  unsized (files st) ->
  read_cue_lines fs cue_path lines st gb = (Ok st', gb') ->
  unsized (files st').
Proof.
  induction lines as [|l lines IH]; intros st st' gb gb' Hinv;
    cbn [read_cue_lines].
  - intros [= <- <-]. exact Hinv.
  - destruct (read_cue_line fs cue_path l st gb) as [[st1|e] gb1] eqn:El;
      [|discriminate].
    apply IH. exact (read_cue_line_unsized _ _ _ _ _ _ _ Hinv El).
Qed.

(** X16. The sector counts are filled in only for a cuesheet of exactly one
    FILE.  When [read_cue_file] returns any other number of files, every
    track of every file has [sectors] still [None]; and [split_files] on
    such a file (it has a track, its binary opens, the targets are free)
    raises [TypeError] at [t.sectors * Track.globalBlocksize] before it
    creates any file, whatever the Blocksize. *)
Theorem read_cue_file_many_files (fs : filesystem) (cue_path : string)
    (gb gb' : option Z) (fls : list File.t) :
  read_cue_file fs cue_path gb = (Ok fls, gb') ->
  length fls <> 1%nat ->
  Forall (fun f => Forall (fun x => Track.sectors x = None) (File.tracks f))
    fls
  /\ forall (f : File.t) (new_basename : string) (fs2 : filesystem)
            (data : list byte),
       f ∈ fls -> File.tracks f <> [] ->
       Os.open_rb fs2 (File.filename f) = Ok data ->
       Forall (fun x => Os.exists_ fs2
                          (track_filename new_basename (Track.num x)
                             (Z.of_nat (length (File.tracks f)))) = false)
         (File.tracks f) ->
       split_files gb' new_basename f fs2 = (Err TypeError, fs2).
Proof.
  intros Hr Hlen.
  assert (unsized fls) as Hu.
  { revert Hr. unfold read_cue_file.
    destruct (Os.open_rb fs cue_path) as [data|e]; [|discriminate].
    destruct (read_cue_lines fs cue_path (readlines data)
                (mkLocals [] None None) gb) as [[st|e] gb1] eqn:El;
      [|discriminate].
    intros [= Hc ->].
    assert (unsized (files st)) as Hn
      by (refine (read_cue_lines_unsized _ _ _ _ _ _ _ _ El); constructor).
    destruct (files st) as [|f [|g l]]; cbn [calc_sectors] in Hc.
    - injection Hc as <-. constructor.
    - destruct (floordiv _ _); cbn [bind] in Hc; [|discriminate].
      destruct (backfill _ _ _); cbn [bind] in Hc; [|discriminate].
      injection Hc as <-. cbn in Hlen. congruence.
    - injection Hc as <-. exact Hn. }
  split; [exact Hu|].
  intros f base fs2 data Hf Ht Hopen Hfree.
  pose proof (proj1 (Forall_forall _ _) Hu f Hf) as Hs. cbv beta in Hs.
  unfold split_files. rewrite Hopen, (check_targets_free _ _ _ _ Hfree).
  destruct (File.tracks f) as [|x l]; [congruence|].
  apply Forall_cons in Hs as [Hx _]. cbn [split_tracks]. rewrite Hx.
  reflexivity.
Qed.

Lemma read_cue_file_many_files_witness :
  let cue := "FILE " +:+ dquote +:+ "a.bin" +:+ dquote +:+ " BINARY" +:+ nl
             +:+ "  TRACK 01 MODE1/2352" +:+ nl
             +:+ "    INDEX 01 00:00:00" +:+ nl
             +:+ "FILE " +:+ dquote +:+ "b.bin" +:+ dquote +:+ " BINARY" +:+ nl
             +:+ "  TRACK 02 AUDIO" +:+ nl
             +:+ "    INDEX 01 00:00:00" +:+ nl in
  let fs : filesystem :=
    <["/d/game.cue" := RegularFile true (list_byte_of_string cue)]>
      (<["/d/a.bin" := RegularFile true [x01; x02]]>
         (<["/d/b.bin" := RegularFile true [x03]]> ∅)) in
  let fls :=
    [File.mk "/d/a.bin"
       [Track.mk 1 [Index.mk 1 "00:00:00" 0] "MODE1/2352" None] 2;
     File.mk "/d/b.bin" [Track.mk 2 [Index.mk 1 "00:00:00" 0] "AUDIO" None] 1]
  in
  read_cue_file fs "/d/game.cue" None = (Ok fls, Some 2352)
  /\ split_files (Some 2352) "/d/G" (File.mk "/d/a.bin"
       [Track.mk 1 [Index.mk 1 "00:00:00" 0] "MODE1/2352" None] 2) fs
     = (Err TypeError, fs).
Proof.
  intros cue fs fls.
  assert (read_cue_file fs "/d/game.cue" None = (Ok fls, Some 2352)) as H
    by (vm_compute; reflexivity).
  split; [exact H|].
  refine (proj2 (read_cue_file_many_files fs "/d/game.cue" None (Some 2352)
                   fls H _) _ "/d/G" fs [x01; x02] _ _ _ _).
  - discriminate.
  - left.
  - discriminate.
  - reflexivity.
  - repeat constructor.
Defined.
(** ** The split cuesheet *)

Lemma split_indexes_text_spec (first : Z) (l : list Index.t) :
  forall c : string,
  Forall (fun i => 0 <= Index.file_offset i - first < 450000) l ->
  split_indexes first l c = Ok (c +:+ split_indexes_text first l).
Proof.
  induction l as [|i l IH]; intros c H; cbn [split_indexes split_indexes_text].
  - rewrite string_app_nil_r. reflexivity.
  - apply Forall_cons in H as [Hi H].
    rewrite sectors_to_cuestamp_int by exact Hi. cbn [bind].
    rewrite (IH _ H). unfold index_line_text, stamp_text.
    rewrite !string_app_assoc. reflexivity.
Qed.

Lemma split_tracks_cue_spec (base : string) (count : Z) (l : list Track.t) :
  forall c : string,
  Forall (fun x => Forall (fun i => 0 <= Index.file_offset i - first_offset x
                                    < 450000) (Track.indexes x)) l ->
  split_tracks_cue base count l c = Ok (c +:+ split_text base count l).
Proof.
  induction l as [|x l IH]; intros c H; cbn [split_tracks_cue split_text].
  - rewrite string_app_nil_r. reflexivity.
  - apply Forall_cons in H as [Hx H]. cbv zeta.
    fold (first_offset x).
    rewrite (split_indexes_text_spec _ _ _ Hx). cbn [bind].
    rewrite (IH _ H). unfold file_line.
    rewrite !string_app_assoc. reflexivity.
Qed.

Lemma split_text_mem (base : string) (count : Z) (l : list Track.t)
    (x : Track.t) :
  x ∈ l ->
  occurs_in (file_line (track_filename base (Track.num x) count)
             +:+ track_line x
             +:+ split_indexes_text (first_offset x) (Track.indexes x))
    (split_text base count l).
Proof.
  induction l as [|y l IH]; intros H; [set_solver|].
  cbn [split_text]. apply elem_of_cons in H as [->|H].
  - exists EmptyString, (split_text base count l).
    rewrite !string_app_assoc. reflexivity.
  - repeat apply occurs_in_before. exact (IH H).
Qed.

(** X17. For a file whose indexes do not lie before their track's first
    index and lie less than 100 minutes after it, [gen_split_cuesheet]
    returns, for each track in order, a FILE line naming the track's file
    ([track_filename] of the base name), the TRACK line and one INDEX line
    per index, stamped with the index's distance from the first index of its
    own track.  So in its own file every track starts at [00:00:00],
    wherever it was in the merged binary. *)
Theorem gen_split_cuesheet_text (basename : string) (merged_file : File.t) :
  let count := Z.of_nat (length (File.tracks merged_file)) in
  Forall (fun x => Forall (fun i => 0 <= Index.file_offset i - first_offset x
                                    < 450000) (Track.indexes x))
    (File.tracks merged_file) ->
  gen_split_cuesheet basename merged_file
  = Ok (split_text basename count (File.tracks merged_file))
  /\ forall (x : Track.t) (i : Index.t) (rest : list Index.t),
       x ∈ File.tracks merged_file ->
       Track.indexes x = i :: rest ->
       occurs_in (file_line (track_filename basename (Track.num x) count)
                  +:+ track_line x +:+ index_line_text i "00:00:00")
         (split_text basename count (File.tracks merged_file)).
Proof.
  intros count H. split.
  - unfold gen_split_cuesheet. fold count.
    rewrite (split_tracks_cue_spec _ _ _ _ H). reflexivity.
  - intros x i rest Hx Hi.
    pose proof (split_text_mem basename count _ x Hx) as Ho.
    unfold first_offset in Ho. rewrite Hi in Ho.
    cbn [head from_option split_indexes_text] in Ho.
    rewrite Z.sub_diag in Ho.
    change (stamp_text 0) with "00:00:00" in Ho.
    destruct Ho as (a & b & Ho). exists a. eexists.
    rewrite Ho, !string_app_assoc. reflexivity.
Qed.

Lemma gen_split_cuesheet_text_witness :
  let mf :=
    File.mk "/d/game.bin"
      [Track.mk 1 [Index.mk 1 "00:00:00" 0] "MODE1/2352" (Some 12000);
       Track.mk 2 [Index.mk 0 "02:40:00" 12000; Index.mk 1 "02:42:00" 12150]
         "AUDIO" (Some 3000)] 35280000 in
  gen_split_cuesheet "Game" mf
  = Ok (file_line "Game (Track 1).bin" +:+ "  TRACK 01 MODE1/2352" +:+ nl
        +:+ "    INDEX 01 00:00:00" +:+ nl
        +:+ file_line "Game (Track 2).bin" +:+ "  TRACK 02 AUDIO" +:+ nl
        +:+ "    INDEX 00 00:00:00" +:+ nl
        +:+ "    INDEX 01 00:02:00" +:+ nl).
Proof.
  intros mf.
  refine (eq_trans (proj1 (gen_split_cuesheet_text "Game" mf _)) _).
  - repeat constructor; cbn; lia.
  - vm_compute. reflexivity.
Defined.
(** ** Lines without a keyword *)

Lemma search_lit_none {p : string} (r : Re.regex) (s : string) :
  occurs p s = false -> Re.search (Re.Cat (Re.Lit p) r) s = None.
Proof.
  induction s as [|c s IH]; cbn [occurs Re.search]; unfold Re.rmatch;
    cbn [Re.exec]; destruct (Re.strip p _); try discriminate; auto.
Qed.

Lemma no_keyword_search (line : string) :
  no_keyword line = true ->
  Re.search file_re line = None /\ Re.search track_re line = None
  /\ Re.search index_re line = None.
Proof.
  unfold no_keyword. intros H.
  apply andb_true_iff in H as [H Hi]. apply andb_true_iff in H as [Hf Ht].
  apply negb_true_iff in Hf, Ht, Hi.
  repeat split; apply search_lit_none; assumption.
Qed.

Lemma read_cue_line_no_keyword (fs : filesystem) (cue_path line : string)
    (st : locals) (gb : option Z) :
  no_keyword line = true ->
  read_cue_line fs cue_path line st gb = (Ok st, gb).
Proof.
  intros H. destruct (no_keyword_search line H) as (Hf & Ht & Hi).
  unfold read_cue_line. rewrite Hf, Ht, Hi. destruct (this_file st); reflexivity.
Qed.

(** X18. A line that holds none of the texts [FILE ], [TRACK ] and [INDEX ]
    (a REM, TITLE, PERFORMER, CATALOG, FLAGS, PREGAP or POSTGAP line, a blank
    line) is passed over by the parser wherever it stands: the cuesheet with
    the line and the cuesheet without it are read to the same result, the
    same error and the same Blocksize. *)
Theorem read_cue_lines_ignores (fs : filesystem) (cue_path line : string)
    (l1 l2 : list string) (st : locals) (gb : option Z) :
  no_keyword line = true ->
  read_cue_lines fs cue_path (l1 ++ line :: l2) st gb
  = read_cue_lines fs cue_path (l1 ++ l2) st gb.
Proof.
  intros H. rewrite !read_cue_lines_app.
  destruct (read_cue_lines fs cue_path l1 st gb) as [[st'|e] gb'];
    [|reflexivity].
  cbn [read_cue_lines]. rewrite (read_cue_line_no_keyword _ _ _ _ _ H).
  reflexivity.
Qed.

Lemma read_cue_lines_ignores_witness :
  read_cue_lines (small_fs true) "/d/game.cue"
    (["FILE " +:+ dquote +:+ "game.bin" +:+ dquote +:+ " BINARY" +:+ nl;
      "  TRACK 01 MODE1/2352" +:+ nl]
     ++ ("    PREGAP 00:02:00" +:+ nl) :: ["    INDEX 01 00:00:00" +:+ nl])
    initial_locals None
  = read_cue_lines (small_fs true) "/d/game.cue"
      (["FILE " +:+ dquote +:+ "game.bin" +:+ dquote +:+ " BINARY" +:+ nl;
        "  TRACK 01 MODE1/2352" +:+ nl]
       ++ ["    INDEX 01 00:00:00" +:+ nl])
      initial_locals None.
Proof. apply read_cue_lines_ignores. vm_compute. reflexivity. Defined.
(** ** What the parser can raise *)

Section Inversions.
Context {A : Type}.
Implicit Types (cont : string -> list string -> option A) (a : A).

Lemma exec_plus_digit_inv cont a (g : list string) (s : string) :
  Re.exec (Re.Plus Re.Digit) s g cont = Some a ->
  exists ds rest, s = ds +:+ rest /\ digit_run ds /\ cont rest g = Some a.
Proof.
  cbn [Re.exec]. destruct s as [|c s]; [discriminate|].
  unfold Re.cmatch at 1. destruct (is_digit c) eqn:Ec; [|discriminate].
  intros H. apply star_greedy_inv in H as (ds & rest & -> & Hd & Hc).
  exists (String c ds), rest. split; [reflexivity|]. split; [|exact Hc].
  split; [discriminate|]. simpl. rewrite Ec, Hd. reflexivity.
Qed.
End Inversions.

Lemma search_inv (r : Re.regex) (s : string) (m : list string) :
  Re.search r s = Some m ->
  exists pre s', s = pre +:+ s' /\ Re.rmatch r s' = Some m.
Proof.
  induction s as [|c s IH]; cbn [Re.search].
  - destruct (Re.rmatch r "") as [g|] eqn:E; [|discriminate].
    intros [= <-]. exists EmptyString, EmptyString. auto.
  - destruct (Re.rmatch r (String c s)) as [g|] eqn:E.
    + intros [= <-]. exists EmptyString, (String c s). auto.
    + intros H. destruct (IH H) as (pre & s' & -> & Hm).
      exists (String c pre), s'. auto.
Qed.

(** What the INDEX pattern captures: a number and a timestamp. *)
Lemma index_match_inv (s : string) (m : list string) :
  Re.rmatch index_re s = Some m ->
  exists d0 d1 d2 d3,
    digit_run d0 /\ digit_run d1 /\ digit_run d2 /\ digit_run d3
    /\ m = [d0; d1 +:+ ":" +:+ d2 +:+ ":" +:+ d3].
Proof.
  unfold Re.rmatch, index_re. cbn [Re.cat]. rewrite exec_cat. intros H.
  apply exec_lit_inv in H as (s1 & -> & H). rewrite exec_cat in H.
  apply exec_digit_group_inv in H as (d0 & r1 & -> & H0 & H).
  rewrite exec_cat in H. apply exec_lit_inv in H as (r2 & -> & H).
  cbn [Re.exec] in H.
  change (Re.exec (Re.Plus Re.Digit) r2 ([] ++ [d0])
            (fun s' g' =>
               Re.exec (Re.Lit ":") s' g'
                 (fun s'0 g'0 =>
                    Re.exec (Re.Plus Re.Digit) s'0 g'0
                      (fun s'1 g'1 =>
                         Re.exec (Re.Lit ":") s'1 g'1
                           (fun s'2 g'2 =>
                              Re.exec (Re.Plus Re.Digit) s'2 g'2
                                (fun s'3 g'3 =>
                                   Some (g'3 ++ [Re.consumed r2 s'3]))))))
          = Some m) in H.
  apply exec_plus_digit_inv in H as (d1 & r3 & E2 & H1 & H).
  apply exec_lit_inv in H as (r4 & -> & H).
  apply exec_plus_digit_inv in H as (d2 & r5 & -> & H2 & H).
  apply exec_lit_inv in H as (r6 & -> & H).
  apply exec_plus_digit_inv in H as (d3 & r7 & -> & H3 & H).
  exists d0, d1, d2, d3. repeat split; try assumption; try apply H0;
    try apply H1; try apply H2; try apply H3.
  injection H as <-. cbn [app]. f_equal. f_equal. subst r2.
  replace (d1 +:+ ":" +:+ d2 +:+ ":" +:+ d3 +:+ r7)
    with ((d1 +:+ ":" +:+ d2 +:+ ":" +:+ d3) +:+ r7)
    by (rewrite !string_app_assoc; reflexivity).
  apply consumed_app.
Qed.

Lemma index_search_stamp (line : string) (m : list string) :
  Re.search index_re line = Some m ->
  is_ok (cuestamp_to_sectors (Re.group m 2)) = true.
Proof.
  intros H. apply search_inv in H as (pre & s' & _ & H).
  apply index_match_inv in H as (d0 & d1 & d2 & d3 & H0 & H1 & H2 & H3 & ->).
  cbn [Re.group Nat.sub nth].
  rewrite <- (string_app_nil_r d3).
  rewrite cuestamp_to_sectors_run by (assumption || reflexivity).
  reflexivity.
Qed.

Lemma read_cue_line_errors (fs : filesystem) (cue_path line : string)
    (st : locals) (gb gb' : option Z) (e : exn) :
  read_cue_line fs cue_path line st gb = (Err e, gb') -> parse_error e.
Proof.
  unfold read_cue_line, parse_error.
  destruct (Re.search file_re line) as [m|].
  - unfold Os.isfile, Os.access_R_OK, File.__init__, Os.getsize.
    destruct (fs !! _) as [[r d|r n]|]; cbn [negb orb bind].
    + discriminate.
    + destruct r; cbn [negb]; [discriminate|]. intros [= <- _]. eauto.
    + intros [= <- _]. eauto.
  - destruct (Re.search track_re line) as [m|], (this_file st) as [fi|].
    1: { unfold Track.__init__.
         destruct (negb (truthy gb)); [destruct (Track.lock _ gb)|];
           cbn [bind]; intros [= <- _] || discriminate. auto. }
    all: destruct (Re.search index_re line) as [m'|] eqn:Ei,
           (this_track st) as [[fi' ti]|]; try discriminate.
    all: pose proof (index_search_stamp _ _ Ei) as Hs;
      destruct (cuestamp_to_sectors _); [discriminate|discriminate Hs].
Qed.

Lemma read_cue_lines_errors (fs : filesystem) (cue_path : string)
    (lines : list string) :
  forall (st : locals) (gb gb' : option Z) (e : exn),
  read_cue_lines fs cue_path lines st gb = (Err e, gb') -> parse_error e.
Proof.
  induction lines as [|l lines IH]; intros st gb gb' e; cbn [read_cue_lines];
    [discriminate|].
  destruct (read_cue_line fs cue_path l st gb) as [[st1|e1] gb1] eqn:El.
  - apply IH.
  - intros [= <- _]. exact (read_cue_line_errors _ _ _ _ _ _ _ El).
Qed.

Lemma backfill_errors (rts : list Track.t) :
  forall (next : Z) (done : list Track.t) (e : exn),
  backfill rts next done = Err e -> e = IndexError.
Proof.
  induction rts as [|x rts IH]; intros next done e; cbn [backfill];
    [discriminate|].
  destruct (Track.indexes x); [intros [= <-]; reflexivity|apply IH].
Qed.

(** X19. The exceptions of [read_cue_file].  For a cuesheet path without
    NUL and a cuesheet of ASCII text without NUL whose lines have at most
    4300 characters (where decoding the file, [os.access] and [int()] cannot
    fail), started with the Blocksize unset or at one of its four values,
    [read_cue_file] raises nothing but: the error of opening the cuesheet
    itself; the [ErrorException] for a binary that is not found or not
    readable; [TypeError] (an unknown track type, or one file and no track);
    [IndexError] (a track without INDEX in a single file).  In particular
    the timestamp of an INDEX line that the pattern accepted is always
    converted ([cuestamp_to_sectors] never raises inside the parser), the
    size of an accepted binary is always found, and the sector counts are
    never divided by zero. *)
Theorem read_cue_file_errors (fs : filesystem) (cue_path : string)
    (gb gb' : option Z) (e : exn) :
  (gb = None \/ exists b, gb = Some b /\ b ∈ [2352; 2448; 2048; 2336]) ->
  has_char "000" cue_path = false ->
  (forall data, Os.open_rb fs cue_path = Ok data ->
                plain_cuesheet data = true) ->
  read_cue_file fs cue_path gb = (Err e, gb') ->
  Os.open_rb fs cue_path = Err e
  \/ (exists p, e = ErrorException (BinFileNotFoundOrNotReadable p))
  \/ e = TypeError
  \/ e = IndexError.
Proof.
  intros Hgb _ _. unfold read_cue_file.
  destruct (Os.open_rb fs cue_path) as [data|e0];
    [|intros [= <- _]; left; reflexivity].
  pose proof (read_cue_lines_blocksize fs cue_path (readlines data)
                (mkLocals [] None None) gb Hgb) as Hb. cbv zeta in Hb.
  destruct (read_cue_lines fs cue_path (readlines data)
              (mkLocals [] None None) gb) as [[st|e1] gb1] eqn:El.
  - cbn [snd] in Hb. intros [= Hc _]. right. right.
    destruct (files st) as [|f [|g l]]; cbn [calc_sectors] in Hc;
      try discriminate.
    unfold floordiv in Hc. destruct Hb as [->|(b & -> & Hb)].
    + injection Hc as <-. left. reflexivity.
    + destruct (Z.eqb_spec b 0) as [->|_];
        [exfalso; apply table_bounds in Hb; lia|]. cbn [bind] in Hc.
      destruct (backfill _ _ _) as [ts|e2] eqn:Eb; [discriminate|].
      injection Hc as <-. right. exact (backfill_errors _ _ _ _ Eb).
  - intros [= <- _]. right.
    destruct (read_cue_lines_errors _ _ _ _ _ _ _ El) as [H|H]; auto.
Qed.

(** The cuesheet with the mistyped tag is plain text, and reading it raises
    the [TypeError] of the track constructor. *)
Lemma read_cue_file_errors_witness :
  plain_cuesheet (list_byte_of_string typo_cue) = true
  /\ read_cue_file typo_fs "/d/game.cue" None = (Err TypeError, None)
  /\ (Os.open_rb typo_fs "/d/game.cue" = Err TypeError
      \/ (exists p, TypeError = ErrorException (BinFileNotFoundOrNotReadable p))
      \/ TypeError = TypeError
      \/ TypeError = IndexError).
Proof.
  assert (read_cue_file typo_fs "/d/game.cue" None = (Err TypeError, None))
    as Hrun by (vm_compute; reflexivity).
  split; [vm_compute; reflexivity|]. split; [exact Hrun|].
  apply (read_cue_file_errors typo_fs "/d/game.cue" None None TypeError).
  - left. reflexivity.
  - reflexivity.
  - intros data [= <-]. vm_compute. reflexivity.
  - exact Hrun.
Defined.
(** ** Reading back a generated cuesheet: the lines *)

Lemma string_app_cons (c : ascii) (a b : string) :
  String c a +:+ b = String c (a +:+ b).
Proof. reflexivity. Qed.

Lemma has_char_app (c : ascii) (a b : string) :
  has_char c (a +:+ b) = has_char c a || has_char c b.
Proof.
  induction a as [|x a IH]; [reflexivity|].
  rewrite string_app_cons. cbn [has_char]. rewrite IH. apply orb_assoc.
Qed.

Lemma all_match_app (k : Re.cclass) (a b : string) :
  all_match k (a +:+ b) = all_match k a && all_match k b.
Proof.
  induction a as [|x a IH]; [reflexivity|].
  rewrite string_app_cons. cbn [all_match]. rewrite IH. apply andb_assoc.
Qed.

(** A string of characters of a class holds no character outside it. *)
Lemma all_match_has_char (k : Re.cclass) (c : ascii) (s : string) :
  Re.cmatch k c = false -> all_match k s = true -> has_char c s = false.
Proof.
  intros Hc. induction s as [|x s IH]; [reflexivity|]. cbn [all_match has_char].
  intros H. apply andb_true_iff in H as [Hx Hs]. rewrite (IH Hs), orb_false_r.
  destruct (Ascii.eqb_spec x c) as [->|]; [congruence|reflexivity].
Qed.

Lemma all_digits_all_match (s : string) :
  all_digits s = true -> all_match Re.Digit s = true.
Proof.
  induction s as [|x s IH]; [reflexivity|]. cbn [all_digits all_match].
  intros H. apply andb_true_iff in H as [Hx Hs]. unfold Re.cmatch.
  rewrite Hx, (IH Hs). reflexivity.
Qed.

Lemma digits_has_char (c : ascii) (s : string) :
  is_digit c = false -> all_digits s = true -> has_char c s = false.
Proof.
  intros Hc Hs. apply (all_match_has_char Re.Digit); [exact Hc|].
  apply all_digits_all_match, Hs.
Qed.

Lemma universal_newlines_id (s : string) :
  has_char "013" s = false -> universal_newlines s = s.
Proof.
  induction s as [|c s IH]; [reflexivity|]. cbn [has_char]. intros H.
  apply orb_false_iff in H as [Hc Hs].
  assert (universal_newlines (String c s) = String c (universal_newlines s))
    as ->.
  { destruct (Ascii.eqb_spec c "013") as [->|Hne]; [discriminate|].
    destruct c as [[] [] [] [] [] [] [] []]; try reflexivity.
    contradiction Hne. reflexivity. }
  rewrite (IH Hs). reflexivity.
Qed.

Lemma universal_newlines_crlf (s : string) :
  has_char "013" s = false -> universal_newlines (crlf s) = s.
Proof.
  induction s as [|c s IH]; [reflexivity|]. cbn [has_char crlf]. intros H.
  apply orb_false_iff in H as [Hc Hs].
  destruct (Ascii.eqb_spec c "010") as [->|Hn].
  - cbn [universal_newlines]. rewrite (IH Hs). reflexivity.
  - assert (universal_newlines (String c (crlf s))
            = String c (universal_newlines (crlf s))) as ->.
    { destruct (Ascii.eqb_spec c "013") as [->|Hne]; [discriminate|].
      destruct c as [[] [] [] [] [] [] [] []]; try reflexivity.
      contradiction Hne. reflexivity. }
    rewrite (IH Hs). reflexivity.
Qed.

(** The bytes of a generated text, written as they are or with
    [newline='\r\n'], are read back as the text. *)
Lemma read_text (text : string) (data : list byte) :
  has_char "013" text = false ->
  data = list_byte_of_string text \/ data = list_byte_of_string (crlf text) ->
  readlines data = lines_acc text EmptyString.
Proof.
  intros H [-> | ->]; unfold readlines;
    rewrite string_of_list_byte_of_string;
    [rewrite universal_newlines_id|rewrite universal_newlines_crlf]; auto.
Qed.

Lemma lines_acc_body (body rest : string) :
  forall cur : string,
  has_char "010" body = false ->
  lines_acc (body +:+ nl +:+ rest) cur
  = (cur +:+ body +:+ nl) :: lines_acc rest EmptyString.
Proof.
  induction body as [|c body IH]; intros cur H.
  - reflexivity.
  - cbn [has_char] in H. apply orb_false_iff in H as [Hc Hb].
    rewrite string_app_cons. cbn [lines_acc]. rewrite Hc, (IH _ Hb).
    rewrite !string_app_assoc. reflexivity.
Qed.

Lemma lines_acc_line (l rest : string) :
  is_line l -> lines_acc (l +:+ rest) EmptyString = l :: lines_acc rest EmptyString.
Proof.
  intros (body & -> & H). rewrite string_app_assoc.
  rewrite (lines_acc_body body rest EmptyString H). reflexivity.
Qed.
(** ** Reading back a generated cuesheet: the patterns *)

Lemma search_here (r : Re.regex) (s : string) (m : list string) :
  Re.rmatch r s = Some m -> Re.search r s = Some m.
Proof. intros H. destruct s; cbn [Re.search]; rewrite H; reflexivity. Qed.

Lemma search_skip (p : string) (r : Re.regex) (c : ascii) (s : string) :
  Re.strip p (String c s) = None ->
  Re.search (Re.Cat (Re.Lit p) r) (String c s)
  = Re.search (Re.Cat (Re.Lit p) r) s.
Proof.
  intros H. cbn [Re.search]. unfold Re.rmatch at 1. cbn [Re.exec].
  rewrite H. reflexivity.
Qed.

Section Runs.
Context {A : Type}.
Implicit Types (a : A).

(** The greedy star takes a whole run when the rest of the pattern accepts
    after it. *)
Lemma star_greedy_class (k : Re.cclass) (cont : string -> option A) a
    (run rest : string) :
  all_match k run = true ->
  starts_with_class k rest = false ->
  cont rest = Some a ->
  Re.star_greedy k (run +:+ rest) cont = Some a.
Proof.
  intros Hd Hr Hc. induction run as [|c run IH].
  - change (Re.star_greedy k rest cont = Some a).
    destruct rest as [|c rest]; cbn [Re.star_greedy]; [exact Hc|].
    cbn [starts_with_class] in Hr. rewrite Hr. exact Hc.
  - cbn [all_match] in Hd. apply andb_true_iff in Hd as [Hc' Hd].
    rewrite string_app_cons. cbn [Re.star_greedy]. rewrite Hc', (IH Hd).
    reflexivity.
Qed.

(** The lazy star goes on as long as the rest of the pattern refuses. *)
Lemma star_lazy_run (cont : string -> option A) a (run rest : string) :
  all_match Re.Dot run = true ->
  (forall p1 p2, run = p1 +:+ p2 -> p2 <> EmptyString ->
     cont (p2 +:+ rest) = None) ->
  cont rest = Some a ->
  Re.star_lazy Re.Dot (run +:+ rest) cont = Some a.
Proof.
  intros Hd Hn Hc. induction run as [|c run IH].
  - change (Re.star_lazy Re.Dot rest cont = Some a).
    destruct rest; cbn [Re.star_lazy]; rewrite Hc; reflexivity.
  - cbn [all_match] in Hd. apply andb_true_iff in Hd as [Hc' Hd].
    pose proof (Hn EmptyString (String c run) eq_refl ltac:(discriminate))
      as H0.
    rewrite string_app_cons in *. cbn [Re.star_lazy].
    rewrite H0, Hc'. apply (IH Hd).
    intros p1 p2 -> Hp. apply (Hn (String c p1) p2); [reflexivity|exact Hp].
Qed.

Lemma exec_plus_digit (cont : string -> list string -> option A) a
    (g : list string) (ds rest : string) :
  digit_run ds ->
  starts_with_digit rest = false ->
  cont rest g = Some a ->
  Re.exec (Re.Plus Re.Digit) (ds +:+ rest) g cont = Some a.
Proof.
  intros [Hne Hd] Hr Hc. destruct ds as [|c ds]; [congruence|].
  simpl in Hd. apply andb_true_iff in Hd as [Hc' Hd].
  cbn [Re.exec]. rewrite string_app_cons.
  unfold Re.cmatch at 1. rewrite Hc'.
  apply star_greedy_run; [exact Hd|exact Hr|exact Hc].
Qed.
End Runs.

(** *** Texts that do not occur *)

Lemma occurs_here (p s r : string) :
  Re.strip p s = Some r -> occurs p s = true.
Proof. intros H. destruct s; cbn [occurs]; rewrite H; reflexivity. Qed.

Lemma occurs_suffix (p x y : string) :
  occurs p y = true -> occurs p (x +:+ y) = true.
Proof.
  intros H. induction x as [|c x IH]; [exact H|].
  rewrite string_app_cons. cbn [occurs]. rewrite IH.
  destruct (Re.strip p _); reflexivity.
Qed.

Lemma occurs_inv (p s : string) :
  occurs p s = true -> exists pre post, s = pre +:+ p +:+ post.
Proof.
  induction s as [|c s IH]; cbn [occurs].
  - destruct (Re.strip p "") as [r|] eqn:E; [|discriminate].
    intros _. exists EmptyString, r. exact (strip_inv _ _ _ E).
  - destruct (Re.strip p (String c s)) as [r|] eqn:E.
    + intros _. exists EmptyString, r. exact (strip_inv _ _ _ E).
    + intros H. destruct (IH H) as (pre & post & ->).
      exists (String c pre), post. reflexivity.
Qed.

Lemma occurs_first (a : ascii) (p s : string) :
  occurs (String a p) s = true -> has_char a s = true.
Proof.
  intros H. apply occurs_inv in H as (pre & post & ->).
  rewrite has_char_app, string_app_cons. cbn [has_char].
  rewrite Ascii.eqb_refl, orb_true_r. reflexivity.
Qed.

Lemma has_pair_suffix (a b : ascii) (x y : string) :
  has_pair a b y = true -> has_pair a b (x +:+ y) = true.
Proof.
  intros H. induction x as [|c x IH]; [exact H|].
  rewrite string_app_cons. cbn [has_pair]. rewrite IH. apply orb_true_r.
Qed.

Lemma has_pair_skip (a b : ascii) (x y : string) :
  has_char a x = false -> has_pair a b (x +:+ y) = has_pair a b y.
Proof.
  induction x as [|c x IH]; [reflexivity|]. cbn [has_char]. intros H.
  apply orb_false_iff in H as [Hc Hx]. rewrite string_app_cons.
  cbn [has_pair]. rewrite Hc, (IH Hx). reflexivity.
Qed.

Lemma has_pair_none (a b : ascii) (y : string) :
  has_char b y = false -> has_pair a b y = false.
Proof.
  induction y as [|c y IH]; [reflexivity|]. cbn [has_char has_pair].
  intros H. apply orb_false_iff in H as [Hc Hy]. rewrite (IH Hy).
  destruct y as [|d y]; [rewrite andb_false_r; reflexivity|].
  cbn [has_char] in Hy. apply orb_false_iff in Hy as [Hd _].
  rewrite Hd, andb_false_r. reflexivity.
Qed.

Lemma occurs_FILE_pair (s : string) :
  occurs "FILE " s = true -> has_pair "E" " " s = true.
Proof.
  intros H. apply occurs_inv in H as (pre & post & ->).
  apply has_pair_suffix. reflexivity.
Qed.

Lemma strip_app_inv (p : string) :
  forall a b r : string,
  Re.strip p (a +:+ b) = Some r ->
  (exists r', Re.strip p a = Some r')
  \/ (exists p', p = a +:+ p' /\ p' <> EmptyString
                 /\ Re.strip p' b = Some r).
Proof.
  induction p as [|x p IH]; intros a b r H.
  - left. exists a. reflexivity.
  - destruct a as [|y a].
    + right. exists (String x p). repeat split; [discriminate|exact H].
    + rewrite string_app_cons in H. cbn [Re.strip] in *.
      destruct (Ascii.eqb_spec x y) as [->|]; [|discriminate].
      destruct (IH a b r H) as [Hl|(p' & -> & Hp & Hs)]; [left; exact Hl|].
      right. exists p'. auto.
Qed.
(** *** The FILE line *)

Lemma no_binary_suffix (name p1 p2 : string) :
  occurs " BINARY" name = false ->
  name = p1 +:+ p2 -> p2 <> EmptyString ->
  Re.strip " BINARY" (p2 +:+ dquote +:+ " BINARY" +:+ nl) = None.
Proof.
  intros Ho -> Hp.
  destruct (Re.strip " BINARY" (p2 +:+ _)) as [r|] eqn:E; [|reflexivity].
  exfalso. apply strip_app_inv in E as [(r' & Hs)|(p' & Hp' & Hne & Hs)].
  - rewrite (occurs_suffix _ p1 p2 (occurs_here _ _ _ Hs)) in Ho.
    discriminate.
  - destruct p2 as [|c p2]; [congruence|].
    rewrite string_app_cons in Hp'. injection Hp' as <- Hp'.
    do 7 (destruct p2 as [|? p2];
          [change (EmptyString +:+ p') with p' in Hp'; subst p';
           first [congruence|vm_compute in Hs; discriminate]
          |rewrite string_app_cons in Hp';
           first [discriminate Hp'|injection Hp' as <- Hp']]).
Qed.

Lemma strip_char (c d : ascii) (s : string) :
  Re.strip (String c "") (String d s)
  = if Ascii.eqb c d then Some s else None.
Proof. reflexivity. Qed.

Lemma file_line_match (name : string) :
  clean_name name = true ->
  Re.rmatch file_re (file_line name) = Some [name].
Proof.
  unfold clean_name. intros H.
  apply andb_true_iff in H as [H Ho]. apply andb_true_iff in H as [Hd _].
  apply negb_true_iff in Ho.
  unfold Re.rmatch, file_re, file_line. cbn [Re.cat].
  rewrite exec_cat, exec_lit_app, exec_cat.
  cbn [Re.exec]. unfold dquote at 1 2. rewrite strip_app.
  set (tail := dquote +:+ " BINARY" +:+ nl).
  assert (Re.star_lazy Re.Dot (name +:+ tail)
            (fun s' =>
               match
                 match Re.strip dquote s' with
                 | Some s'0 =>
                     match Re.strip " BINARY" s'0 with
                     | Some s'1 =>
                         Some ([] ++ [Re.consumed (name +:+ tail) s'])
                     | None => None
                     end
                 | None => None
                 end
               with
               | Some a => Some a
               | None =>
                   match Re.strip " BINARY" s' with
                   | Some s'0 => Some ([] ++ [Re.consumed (name +:+ tail) s'])
                   | None => None
                   end
               end) = Some [name]) as ->; [|reflexivity].
  apply star_lazy_run; [exact Hd| |].
  - intros p1 p2 Hn Hp. subst tail.
    rewrite (no_binary_suffix name p1 p2 Ho Hn Hp).
    destruct p2 as [|c p2]; [congruence|]. rewrite string_app_cons.
    unfold dquote at 1. rewrite strip_char.
    destruct (Ascii.eqb "034" c); [|reflexivity].
    destruct p2 as [|d p2]; [reflexivity|].
    rewrite (no_binary_suffix name (p1 +:+ String c "") (String d p2) Ho);
      [reflexivity| |discriminate].
    rewrite Hn, string_app_assoc. reflexivity.
  - subst tail. unfold dquote at 1. rewrite strip_app, strip_app.
    rewrite consumed_app. reflexivity.
Qed.

Lemma file_line_search (name : string) :
  clean_name name = true ->
  Re.search file_re (file_line name) = Some [name].
Proof. intros H. apply search_here, file_line_match, H. Qed.

(** *** The TRACK line *)

Lemma track_line_is_line (x : Track.t) :
  0 <= Track.num x -> all_match Re.NotSpace (Track.track_type x) = true ->
  is_line (track_line x).
Proof.
  intros Hn Ht. unfold track_line.
  exists ("  TRACK " +:+ fmt_0d 2 (Track.num x) +:+ " " +:+ Track.track_type x).
  split; [rewrite !string_app_assoc; reflexivity|].
  rewrite !has_char_app.
  rewrite (digits_has_char "010" _ eq_refl (proj2 (fmt_0d_digit_run 2 _ Hn))).
  rewrite (all_match_has_char Re.NotSpace "010" _ eq_refl Ht). reflexivity.
Qed.

Lemma track_line_no_file (x : Track.t) :
  0 <= Track.num x -> all_match Re.NotSpace (Track.track_type x) = true ->
  Re.search file_re (track_line x) = None.
Proof.
  intros Hn Ht. unfold file_re. cbn [Re.cat]. apply search_lit_none.
  destruct (occurs "FILE " (track_line x)) eqn:E; [|reflexivity].
  apply occurs_FILE_pair in E. unfold track_line in E.
  rewrite has_pair_skip in E by reflexivity.
  rewrite has_pair_skip in E
    by (apply digits_has_char; [reflexivity|apply fmt_0d_digit_run, Hn]).
  rewrite has_pair_skip in E by reflexivity.
  rewrite has_pair_none in E; [discriminate|].
  rewrite has_char_app, (all_match_has_char Re.NotSpace " " _ eq_refl Ht).
  reflexivity.
Qed.

Lemma track_line_search (x : Track.t) :
  0 <= Track.num x -> all_match Re.NotSpace (Track.track_type x) = true ->
  Re.search track_re (track_line x)
  = Some [fmt_0d 2 (Track.num x); Track.track_type x].
Proof.
  intros Hn Ht. unfold track_line, track_re. cbn [Re.cat].
  change ("  TRACK " +:+ ?r)
    with (String " " (String " " ("TRACK " +:+ r))).
  rewrite !search_skip by reflexivity. apply search_here.
  unfold Re.rmatch. rewrite exec_cat, exec_lit_app, exec_cat.
  apply exec_digit_group; [apply fmt_0d_digit_run, Hn|reflexivity|].
  rewrite exec_cat, exec_lit_app. cbn [Re.exec].
  apply star_greedy_class; [exact Ht|reflexivity|].
  rewrite consumed_app. reflexivity.
Qed.

(** *** The INDEX line *)

Lemma stamp_has_char (c : ascii) (d1 d2 d3 : string) :
  is_digit c = false -> Ascii.eqb ":" c = false ->
  digit_run d1 -> digit_run d2 -> digit_run d3 ->
  has_char c (d1 +:+ ":" +:+ d2 +:+ ":" +:+ d3) = false.
Proof.
  intros Hc Hk [_ H1] [_ H2] [_ H3]. rewrite !has_char_app.
  rewrite (digits_has_char c d1), (digits_has_char c d2),
    (digits_has_char c d3) by assumption.
  cbn [has_char]. rewrite Hk. reflexivity.
Qed.

Lemma index_line_has_char (c : ascii) (i : Index.t) (d1 d2 d3 : string) :
  is_digit c = false -> Ascii.eqb ":" c = false ->
  has_char c ("    INDEX " +:+ nl) = false ->
  0 <= Index.id i ->
  digit_run d1 -> digit_run d2 -> digit_run d3 ->
  has_char c (index_line_text i (d1 +:+ ":" +:+ d2 +:+ ":" +:+ d3)) = false.
Proof.
  intros Hc Hk Hl Hi H1 H2 H3. unfold index_line_text.
  rewrite has_char_app in Hl. apply orb_false_iff in Hl as [Hl1 Hl2].
  rewrite 4!has_char_app.
  rewrite Hl1, (digits_has_char c _ Hc (proj2 (fmt_0d_digit_run 2 _ Hi))).
  rewrite (stamp_has_char c d1 d2 d3 Hc Hk H1 H2 H3), Hl2.
  cbn [has_char] in Hl1. cbn [has_char orb].
  apply orb_false_iff in Hl1 as [Hs _]. rewrite Hs. reflexivity.
Qed.

Lemma index_line_is_line (i : Index.t) (d1 d2 d3 : string) :
  0 <= Index.id i ->
  digit_run d1 -> digit_run d2 -> digit_run d3 ->
  is_line (index_line_text i (d1 +:+ ":" +:+ d2 +:+ ":" +:+ d3)).
Proof.
  intros Hi H1 H2 H3. unfold index_line_text.
  exists ("    INDEX " +:+ fmt_0d 2 (Index.id i) +:+ " "
          +:+ d1 +:+ ":" +:+ d2 +:+ ":" +:+ d3).
  split; [rewrite !string_app_assoc; reflexivity|].
  rewrite 3!has_char_app.
  rewrite (digits_has_char "010" _ eq_refl (proj2 (fmt_0d_digit_run 2 _ Hi))).
  rewrite (stamp_has_char "010" d1 d2 d3 eq_refl eq_refl H1 H2 H3).
  reflexivity.
Qed.

Lemma index_line_no_file (i : Index.t) (d1 d2 d3 : string) :
  0 <= Index.id i ->
  digit_run d1 -> digit_run d2 -> digit_run d3 ->
  Re.search file_re (index_line_text i (d1 +:+ ":" +:+ d2 +:+ ":" +:+ d3))
  = None.
Proof.
  intros Hi H1 H2 H3. unfold file_re. cbn [Re.cat]. apply search_lit_none.
  destruct (occurs "FILE " _) eqn:E; [|reflexivity].
  apply occurs_first in E.
  rewrite index_line_has_char in E by (assumption || reflexivity).
  discriminate.
Qed.

Lemma index_line_no_track (i : Index.t) (d1 d2 d3 : string) :
  0 <= Index.id i ->
  digit_run d1 -> digit_run d2 -> digit_run d3 ->
  Re.search track_re (index_line_text i (d1 +:+ ":" +:+ d2 +:+ ":" +:+ d3))
  = None.
Proof.
  intros Hi H1 H2 H3. unfold track_re. cbn [Re.cat]. apply search_lit_none.
  destruct (occurs "TRACK " _) eqn:E; [|reflexivity].
  apply occurs_first in E.
  rewrite index_line_has_char in E by (assumption || reflexivity).
  discriminate.
Qed.

Lemma index_line_search (i : Index.t) (d1 d2 d3 : string) :
  0 <= Index.id i ->
  digit_run d1 -> digit_run d2 -> digit_run d3 ->
  Re.search index_re (index_line_text i (d1 +:+ ":" +:+ d2 +:+ ":" +:+ d3))
  = Some [fmt_0d 2 (Index.id i); d1 +:+ ":" +:+ d2 +:+ ":" +:+ d3].
Proof.
  intros Hi H1 H2 H3. unfold index_line_text, index_re. cbn [Re.cat].
  change ("    INDEX " +:+ ?r)
    with (String " " (String " " (String " " (String " " ("INDEX " +:+ r))))).
  rewrite !search_skip by reflexivity. apply search_here.
  unfold Re.rmatch. rewrite exec_cat, exec_lit_app, exec_cat.
  apply exec_digit_group; [apply fmt_0d_digit_run, Hi|reflexivity|].
  rewrite exec_cat, exec_lit_app.
  rewrite !string_app_assoc.
  set (s := d1 +:+ ":" +:+ d2 +:+ ":" +:+ d3 +:+ nl).
  cbn [Re.exec].
  change (Re.exec (Re.Plus Re.Digit) s ([] ++ [fmt_0d 2 (Index.id i)])
            (fun s' g' =>
               Re.exec (Re.Lit ":") s' g'
                 (fun s'0 g'0 =>
                    Re.exec (Re.Plus Re.Digit) s'0 g'0
                      (fun s'1 g'1 =>
                         Re.exec (Re.Lit ":") s'1 g'1
                           (fun s'2 g'2 =>
                              Re.exec (Re.Plus Re.Digit) s'2 g'2
                                (fun s'3 g'3 =>
                                   Some (g'3 ++ [Re.consumed s s'3]))))))
          = Some [fmt_0d 2 (Index.id i); d1 +:+ ":" +:+ d2 +:+ ":" +:+ d3]).
  unfold s at 1.
  apply exec_plus_digit; [exact H1|reflexivity|]. rewrite exec_lit_app.
  apply exec_plus_digit; [exact H2|reflexivity|]. rewrite exec_lit_app.
  apply exec_plus_digit; [exact H3|reflexivity|].
  subst s.
  replace (d1 +:+ ":" +:+ d2 +:+ ":" +:+ d3 +:+ nl)
    with ((d1 +:+ ":" +:+ d2 +:+ ":" +:+ d3) +:+ nl)
    by (rewrite !string_app_assoc; reflexivity).
  rewrite consumed_app. reflexivity.
Qed.
(** ** Reading back a generated cuesheet: the parser's steps *)

Lemma stamp_text_runs (n : Z) :
  0 <= n ->
  digit_run (fmt_0d 2 (n / 4500)) /\ digit_run (fmt_0d 2 (n mod 4500 / 75))
  /\ digit_run (fmt_0d 2 (n mod 75)).
Proof.
  intros Hn.
  assert (0 <= n / 4500) by (apply Z.div_pos; lia).
  assert (0 <= n mod 4500 < 4500) by (apply Z.mod_pos_bound; lia).
  assert (0 <= n mod 4500 / 75) by (apply Z.div_pos; lia).
  assert (0 <= n mod 75 < 75) by (apply Z.mod_pos_bound; lia).
  repeat split; apply fmt_0d_digit_run; lia.
Qed.

Lemma cuestamp_to_sectors_stamp_text (n : Z) :
  0 <= n -> cuestamp_to_sectors (stamp_text n) = Ok n.
Proof.
  intros Hn. destruct (stamp_text_runs n Hn) as (H1 & H2 & H3).
  unfold stamp_text.
  rewrite <- (string_app_nil_r (fmt_0d 2 (n mod 75))).
  rewrite cuestamp_to_sectors_run by (assumption || reflexivity).
  assert (0 <= n / 4500) by (apply Z.div_pos; lia).
  assert (0 <= n mod 4500 < 4500) by (apply Z.mod_pos_bound; lia).
  assert (0 <= n mod 4500 / 75) by (apply Z.div_pos; lia).
  assert (0 <= n mod 75 < 75) by (apply Z.mod_pos_bound; lia).
  rewrite !py_int_fmt_0d by lia. f_equal.
  Z.div_mod_to_equations. lia.
Qed.

Lemma list_alter_last {A : Type} (f : A -> A) (l : list A) (x : A) :
  alter f (length l) (l ++ [x]) = l ++ [f x].
Proof. induction l as [|y l IH]; [reflexivity|]. cbn. f_equal. exact IH. Qed.

Lemma list_lookup_last {A : Type} (l : list A) (x : A) :
  (l ++ [x]) !! length l = Some x.
Proof. induction l as [|y l IH]; [reflexivity|exact IH]. Qed.

Section Steps.
Context (fs : filesystem) (cue_path : string).

Lemma step_index (pre : list File.t) (p : string) (ts : list Track.t)
    (t : Track.t) (sz : Z) (gb : option Z) (i : Index.t) (n : Z) :
  0 <= Index.id i -> 0 <= n ->
  read_cue_line fs cue_path (index_line_text i (stamp_text n))
    (in_file pre (File.mk p (ts ++ [t]) sz) (Some (length pre, length ts))) gb
  = (Ok (in_file pre
           (File.mk p
              (ts ++ [Track.add_index
                        (Index.mk (Index.id i) (stamp_text n) n) t]) sz)
           (Some (length pre, length ts))), gb).
Proof.
  intros Hi Hn. destruct (stamp_text_runs n Hn) as (H1 & H2 & H3).
  pose proof (index_line_no_file i _ _ _ Hi H1 H2 H3) as Hf.
  pose proof (index_line_no_track i _ _ _ Hi H1 H2 H3) as Ht.
  pose proof (index_line_search i _ _ _ Hi H1 H2 H3) as Hs.
  fold (stamp_text n) in Hf, Ht, Hs.
  unfold read_cue_line. rewrite Hf, Ht, Hs.
  cbn [in_file this_file this_track files].
  cbn [Re.group Nat.sub nth].
  rewrite cuestamp_to_sectors_stamp_text, py_int_fmt_0d by assumption.
  cbn [bind]. rewrite list_alter_last.
  cbn [File.set_tracks File.tracks File.filename File.size].
  rewrite list_alter_last. reflexivity.
Qed.

Lemma step_track (pre : list File.t) (p : string) (ts : list Track.t)
    (sz : Z) (tt : option (nat * nat)) (gb : option Z) (x : Track.t) :
  0 <= Track.num x ->
  all_match Re.NotSpace (Track.track_type x) = true ->
  truthy gb = true
  \/ (gb = None /\ string_in (Track.track_type x) known_types = true) ->
  read_cue_line fs cue_path (track_line x)
    (in_file pre (File.mk p ts sz) tt) gb
  = (Ok (in_file pre
           (File.mk p
              (ts ++ [Track.mk (Track.num x) [] (Track.track_type x) None])
              sz)
           (Some (length pre, length ts))),
     locked gb [x])
    /\ truthy (locked gb [x]) = true.
Proof.
  intros Hn Ht Hgb. unfold read_cue_line.
  rewrite track_line_no_file, track_line_search by assumption.
  cbn [in_file this_file files Re.group Nat.sub nth].
  rewrite py_int_fmt_0d by exact Hn. rewrite list_lookup_last.
  cbn [from_option File.tracks]. unfold locked.
  destruct Hgb as [Hgb|[-> Hk]].
  - rewrite (init_locked _ _ _ Hgb), Hgb. cbn [bind].
    rewrite list_alter_last. split; [reflexivity|exact Hgb].
  - rewrite init_unlocked. cbn [truthy].
    destruct (Track.lock (Track.track_type x) None) as [b|] eqn:E.
    + cbn [bind]. rewrite list_alter_last. split; [reflexivity|].
      eapply truthy_lock; [exact E|discriminate].
    + apply lock_unknown in E. congruence.
Qed.
End Steps.

Lemma add_indexes_nil (x : Track.t) : add_indexes [] x = x.
Proof. destruct x. unfold add_indexes. cbn. rewrite app_nil_r. reflexivity. Qed.

Lemma add_indexes_cons (i : Index.t) (l : list Index.t) (x : Track.t) :
  add_indexes l (Track.add_index i x) = add_indexes (i :: l) x.
Proof.
  unfold add_indexes, Track.add_index. cbn. rewrite <- app_assoc. reflexivity.
Qed.

Lemma locked_truthy (gb : option Z) (l : list Track.t) :
  truthy gb = true -> locked gb l = gb.
Proof. intros H. unfold locked. rewrite H. reflexivity. Qed.

Lemma locked_cons (gb : option Z) (x : Track.t) (l : list Track.t) :
  truthy (locked gb [x]) = true -> locked (locked gb [x]) l = locked gb (x :: l).
Proof.
  intros H. rewrite (locked_truthy _ l H). unfold locked.
  destruct (truthy gb); reflexivity.
Qed.

Lemma can_lock_cons (gb : option Z) (x : Track.t) (l : list Track.t) :
  can_lock gb (x :: l) ->
  truthy gb = true
  \/ (gb = None /\ string_in (Track.track_type x) known_types = true).
Proof.
  intros [H|[-> H]]; [left; exact H|right]. apply Forall_cons in H as [H _].
  auto.
Qed.

Section Blocks.
Context (fs : filesystem) (cue_path : string) (pre : list File.t)
  (p : string) (sz : Z).

Lemma parse_line (l rest : string) (st st' : locals) (gb gb' : option Z) :
  is_line l ->
  read_cue_line fs cue_path l st gb = (Ok st', gb') ->
  read_cue_lines fs cue_path (lines_acc (l +:+ rest) EmptyString) st gb
  = read_cue_lines fs cue_path (lines_acc rest EmptyString) st' gb'.
Proof.
  intros Hl H. rewrite (lines_acc_line _ _ Hl). cbn [read_cue_lines].
  rewrite H. reflexivity.
Qed.

Lemma parse_indexes (start : Z) (ts : list Track.t) (gb : option Z)
    (rest : string) (l : list Index.t) :
  forall t : Track.t,
  Forall (fun i => 0 <= Index.id i /\ 0 <= start + Index.file_offset i) l ->
  read_cue_lines fs cue_path
    (lines_acc (indexes_text start l +:+ rest) EmptyString)
    (in_file pre (File.mk p (ts ++ [t]) sz) (Some (length pre, length ts))) gb
  = read_cue_lines fs cue_path (lines_acc rest EmptyString)
      (in_file pre
         (File.mk p (ts ++ [add_indexes (map (reread_index start) l) t]) sz)
         (Some (length pre, length ts))) gb.
Proof.
  induction l as [|i l IH]; intros t H.
  - cbn [indexes_text map]. rewrite add_indexes_nil. reflexivity.
  - apply Forall_cons in H as [[Hi Hn] H].
    cbn [indexes_text map]. rewrite string_app_assoc.
    assert (is_line (index_line_text i
                       (stamp_text (start + Index.file_offset i)))) as Hl.
    { destruct (stamp_text_runs _ Hn) as (H1 & H2 & H3). unfold stamp_text.
      apply index_line_is_line; assumption. }
    rewrite (parse_line _ _ _ _ _ _ Hl
               (step_index fs cue_path pre p ts t sz gb i _ Hi Hn)).
    rewrite (IH _ H), add_indexes_cons. reflexivity.
Qed.

Lemma parse_tracks (start : Z) (rest : string) (l : list Track.t) :
  forall (ts : list Track.t) (tt : option (nat * nat)) (gb : option Z),
  Forall printable_track l ->
  Forall (fun x => Forall (fun i => 0 <= start + Index.file_offset i)
                     (Track.indexes x)) l ->
  can_lock gb l ->
  exists tt',
    read_cue_lines fs cue_path
      (lines_acc (tracks_text start l +:+ rest) EmptyString)
      (in_file pre (File.mk p ts sz) tt) gb
    = read_cue_lines fs cue_path (lines_acc rest EmptyString)
        (in_file pre (File.mk p (ts ++ map (reread_track start) l) sz) tt')
        (locked gb l)
    /\ (l <> [] -> truthy (locked gb l) = true).
Proof.
  induction l as [|x l IH]; intros ts tt gb Hp Ho Hgb.
  - exists tt. cbn [tracks_text map]. rewrite app_nil_r.
    split; [|congruence]. unfold locked. destruct (truthy gb); reflexivity.
  - apply Forall_cons in Hp as [(Hn & Ht & Hi) Hp].
    apply Forall_cons in Ho as [Hx Ho].
    destruct (step_track fs cue_path pre p ts sz tt gb x Hn Ht
                (can_lock_cons _ _ _ Hgb)) as [Hstep Htr].
    destruct (IH (ts ++ [reread_track start x])
                (Some (length pre, length ts)) (locked gb [x]) Hp Ho
                (or_introl Htr)) as (tt' & Hrest & _).
    exists tt'. rewrite <- (locked_cons gb x l Htr). split.
    + cbn [tracks_text map]. rewrite !string_app_assoc.
      rewrite (parse_line _ _ _ _ _ _ (track_line_is_line x Hn Ht) Hstep).
      rewrite parse_indexes.
      * unfold add_indexes. cbn [Track.num Track.indexes Track.track_type
          Track.sectors app]. fold (reread_track start x).
        rewrite Hrest, <- app_assoc. reflexivity.
      * apply Forall_forall. intros i Hin. split.
        -- exact (proj1 (Forall_forall _ _) Hi i Hin).
        -- exact (proj1 (Forall_forall _ _) Hx i Hin).
    + intros _. rewrite (locked_truthy _ l Htr). exact Htr.
Qed.
End Blocks.
(** ** Reading back the merged cuesheet *)

Lemma known_truthy (x : Track.t) :
  string_in (Track.track_type x) known_types = true ->
  truthy (Track.lock (Track.track_type x) None) = true.
Proof.
  intros H. destruct (Track.lock (Track.track_type x) None) as [b|] eqn:E.
  - eapply truthy_lock; [exact E|discriminate].
  - apply lock_unknown in E. congruence.
Qed.

Lemma can_lock_app (gb : option Z) (l1 l2 : list Track.t) :
  can_lock gb (l1 ++ l2) ->
  can_lock gb l1 /\ can_lock (locked gb l1) l2
  /\ locked (locked gb l1) l2 = locked gb (l1 ++ l2).
Proof.
  intros [H|[-> H]].
  - rewrite !locked_truthy by (rewrite ?locked_truthy; exact H).
    repeat split; left; exact H.
  - apply Forall_app in H as [H1 H2]. split; [right; auto|].
    destruct l1 as [|x l1].
    + split; [right; auto|reflexivity].
    + apply Forall_cons in H1 as [Hx _]. pose proof (known_truthy x Hx) as Ht.
      unfold locked at 2 3. cbn [truthy app]. split; [left; exact Ht|].
      apply locked_truthy. exact Ht.
Qed.

Lemma parse_files (fs : filesystem) (cue_path : string) (pre : list File.t)
    (p : string) (sz b : Z) (rest : string) (fls : list File.t) :
  forall (start : Z) (ts : list Track.t) (tt : option (nat * nat))
         (gb : option Z),
  0 <= start ->
  Forall (fun f =>
            0 <= File.size f / b
            /\ Forall printable_track (File.tracks f)
            /\ Forall (fun x => Forall (fun i => 0 <= Index.file_offset i)
                                  (Track.indexes x)) (File.tracks f)) fls ->
  can_lock gb (all_tracks fls) ->
  exists tt',
    read_cue_lines fs cue_path
      (lines_acc (files_text b start fls +:+ rest) EmptyString)
      (in_file pre (File.mk p ts sz) tt) gb
    = read_cue_lines fs cue_path (lines_acc rest EmptyString)
        (in_file pre (File.mk p (ts ++ reread_files b start fls) sz) tt')
        (locked gb (all_tracks fls)).
Proof.
  induction fls as [|f fls IH]; intros start ts tt gb Hs H Hgb.
  - exists tt. cbn [files_text reread_files all_tracks map concat].
    rewrite app_nil_r. unfold locked. destruct (truthy gb); reflexivity.
  - apply Forall_cons in H as [(Hsz & Hp & Ho) H].
    unfold all_tracks in *. cbn [map concat] in *.
    destruct (can_lock_app _ _ _ Hgb) as (Hg1 & Hg2 & Hl).
    destruct (parse_tracks fs cue_path pre p sz start
                (files_text b (start + File.size f / b) fls +:+ rest)
                (File.tracks f) ts tt gb Hp) as (tt1 & H1 & _);
      [|exact Hg1|].
    { eapply Forall_impl; [exact Ho|]. intros x Hx.
      eapply Forall_impl; [exact Hx|]. intros i Hi. cbv beta in *. lia. }
    destruct (IH (start + File.size f / b)
                (ts ++ map (reread_track start) (File.tracks f)) tt1
                (locked gb (File.tracks f)) ltac:(lia) H Hg2)
      as (tt' & H2).
    exists tt'. cbn [files_text reread_files].
    rewrite string_app_assoc, H1, H2, Hl, <- app_assoc. reflexivity.
Qed.

(** *** The generated text has no carriage return *)

Lemma track_line_no_cr (x : Track.t) :
  printable_track x -> has_char "013" (track_line x) = false.
Proof.
  intros (Hn & Ht & _). unfold track_line. rewrite !has_char_app.
  rewrite (digits_has_char "013" _ eq_refl (proj2 (fmt_0d_digit_run 2 _ Hn))).
  rewrite (all_match_has_char Re.NotSpace "013" _ eq_refl Ht). reflexivity.
Qed.

Lemma indexes_text_no_cr (start : Z) (l : list Index.t) :
  Forall (fun i => 0 <= Index.id i /\ 0 <= start + Index.file_offset i) l ->
  has_char "013" (indexes_text start l) = false.
Proof.
  induction 1 as [|i l [Hi Hn] _ IH]; [reflexivity|]. cbn [indexes_text].
  rewrite has_char_app, IH, orb_false_r.
  destruct (stamp_text_runs _ Hn) as (H1 & H2 & H3). unfold stamp_text.
  apply index_line_has_char; assumption || reflexivity.
Qed.

Lemma tracks_text_no_cr (start : Z) (l : list Track.t) :
  Forall printable_track l ->
  Forall (fun x => Forall (fun i => 0 <= start + Index.file_offset i)
                     (Track.indexes x)) l ->
  has_char "013" (tracks_text start l) = false.
Proof.
  intros Hp. induction Hp as [|x l Hx _ IH]; intros Ho; [reflexivity|].
  apply Forall_cons in Ho as [Hxo Ho]. cbn [tracks_text].
  rewrite !has_char_app, (track_line_no_cr x Hx), (IH Ho), orb_false_r.
  cbn [orb]. apply indexes_text_no_cr. destruct Hx as (_ & _ & Hi).
  apply Forall_forall. intros i Hin. split.
  - exact (proj1 (Forall_forall _ _) Hi i Hin).
  - exact (proj1 (Forall_forall _ _) Hxo i Hin).
Qed.

Lemma files_text_no_cr (b : Z) (fls : list File.t) :
  forall start : Z,
  0 <= start ->
  Forall (fun f =>
            0 <= File.size f / b
            /\ Forall printable_track (File.tracks f)
            /\ Forall (fun x => Forall (fun i => 0 <= Index.file_offset i)
                                  (Track.indexes x)) (File.tracks f)) fls ->
  has_char "013" (files_text b start fls) = false.
Proof.
  induction fls as [|f fls IH]; intros start Hs H; [reflexivity|].
  apply Forall_cons in H as [(Hsz & Hp & Ho) H]. cbn [files_text].
  rewrite has_char_app, (IH (start + File.size f / b) ltac:(lia) H),
    orb_false_r.
  apply tracks_text_no_cr; [exact Hp|].
  eapply Forall_impl; [exact Ho|]. intros x Hx.
  eapply Forall_impl; [exact Hx|]. intros i Hi. cbv beta in *. lia.
Qed.

Lemma clean_name_parts (name : string) :
  clean_name name = true ->
  has_char "010" name = false /\ has_char "013" name = false.
Proof.
  unfold clean_name. intros H.
  apply andb_true_iff in H as [H _]. apply andb_true_iff in H as [Hd Hc].
  split; [|apply negb_true_iff, Hc].
  exact (all_match_has_char Re.Dot "010" _ eq_refl Hd).
Qed.

Lemma file_line_is_line (name : string) :
  clean_name name = true -> is_line (file_line name).
Proof.
  intros H. destruct (clean_name_parts name H) as [Hn _]. unfold file_line.
  exists ("FILE " +:+ dquote +:+ name +:+ dquote +:+ " BINARY").
  split; [rewrite !string_app_assoc; reflexivity|].
  rewrite !has_char_app, Hn. reflexivity.
Qed.

Lemma file_line_no_cr (name : string) :
  clean_name name = true -> has_char "013" (file_line name) = false.
Proof.
  intros H. destruct (clean_name_parts name H) as [_ Hc]. unfold file_line.
  rewrite !has_char_app, Hc. reflexivity.
Qed.

Lemma merged_header_file_line (basename : string) :
  merged_header basename = file_line (basename +:+ ".bin").
Proof.
  unfold merged_header, file_line. rewrite !string_app_assoc. reflexivity.
Qed.

Lemma locked_nonzero (gb : option Z) (l : list Track.t) (b : Z) :
  can_lock gb l -> locked gb l = Some b -> b <> 0.
Proof.
  intros [H|[-> H]] E.
  - rewrite (locked_truthy _ _ H) in E. subst gb. cbn in H.
    intros ->. discriminate.
  - destruct l as [|x l]; [discriminate|].
    apply Forall_cons in H as [Hx _]. pose proof (known_truthy x Hx) as Ht.
    unfold locked in E. cbn [truthy] in E. rewrite E in Ht. cbn in Ht.
    intros ->. discriminate.
Qed.

Lemma reread_files_indexes (b : Z) (fls : list File.t) :
  forall start : Z,
  Forall (fun x => Track.indexes x <> []) (all_tracks fls) ->
  Forall (fun x => Track.indexes x <> []) (reread_files b start fls).
Proof.
  unfold all_tracks.
  induction fls as [|f fls IH]; intros start H; [constructor|].
  cbn [map concat reread_files] in *. apply Forall_app in H as [Hf H].
  apply Forall_app. split; [|apply IH, H].
  apply Forall_fmap. eapply Forall_impl; [exact Hf|]. intros x Hx.
  cbn in *. destruct (Track.indexes x); [contradiction|discriminate].
Qed.

Lemma merged_files_printable (b : Z) (fls : list File.t) :
  0 < b ->
  Forall (fun f => whole_blocks b f /\ indexes_inside b f) fls ->
  Forall (fun f => Forall printable_track (File.tracks f)) fls ->
  Forall (fun f =>
            0 <= File.size f / b
            /\ Forall printable_track (File.tracks f)
            /\ Forall (fun x => Forall (fun i => 0 <= Index.file_offset i)
                                  (Track.indexes x)) (File.tracks f)) fls.
Proof.
  intros Hb H1 H2. apply Forall_forall. intros f Hf.
  destruct (proj1 (Forall_forall _ _) H1 f Hf) as [Hw Hi].
  split; [exact (proj2 (whole_blocks_size b f Hb Hw))|].
  split; [exact (proj1 (Forall_forall _ _) H2 f Hf)|].
  eapply Forall_impl; [exact Hi|]. intros x Hx.
  eapply Forall_impl; [exact Hx|]. intros i Ho. cbv beta in Ho. lia.
Qed.

(** X20. The cuesheet that [gen_merged_cuesheet] writes is read back by
    [read_cue_file].  For files of whole blocks with their indexes inside
    them, below 100 minutes in all, a base name that gives a clean file name
    (no line break, the text [ BINARY] not in it) and tracks with
    non-negative numbers and a type tag without blanks: the cuesheet is
    returned, and when it is stored as it is or with [\r\n] line ends next
    to the merged binary, [read_cue_file] finds that one file with all the
    tracks of the input files, in order, under their numbers and type tags,
    every index under its id at the sector where the merged cuesheet puts it
    (the sectors of the files before, plus its own offset), and then fills
    in the sector counts; the Blocksize must be set, or unset with known type
    tags. *)
Theorem merged_cuesheet_reread (b : Z) (basename : string)
    (fls : list File.t) :
  b ∈ [2352; 2448; 2048; 2336] ->
  Forall (fun f => whole_blocks b f /\ indexes_inside b f) fls ->
  sector_count b fls <= 450000 ->
  clean_name (basename +:+ ".bin") = true ->
  Forall (fun f => Forall printable_track (File.tracks f)) fls ->
  exists text,
    gen_merged_cuesheet (Some b) basename fls = Ok text
    /\ forall (fs : filesystem) (cue_path : string) (data d : list byte)
              (r : bool) (gb : option Z),
         Os.open_rb fs cue_path = Ok data ->
         data = list_byte_of_string text
         \/ data = list_byte_of_string (crlf text) ->
         fs !! Os.join (Os.dirname cue_path) (basename +:+ ".bin")
         = Some (RegularFile r d) ->
         can_lock gb (all_tracks fls) ->
         let merged :=
           File.mk (Os.join (Os.dirname cue_path) (basename +:+ ".bin"))
             (reread_files b 0 fls) (Z.of_nat (length d)) in
         let gb' := locked gb (all_tracks fls) in
         read_cue_file fs cue_path gb = (calc_sectors [merged] gb', gb')
         /\ (forall b', gb' = Some b' ->
               Forall (fun x => Track.indexes x <> []) (all_tracks fls) ->
               read_cue_file fs cue_path gb
               = (Ok [File.set_tracks
                        (backfilled (reread_files b 0 fls)
                           (Z.of_nat (length d) / b')) merged],
                  Some b')).
Proof.
  intros Hb Hfls Hsum Hname Hp.
  pose proof (table_bounds b Hb) as Hbb.
  pose proof (merged_files_printable b fls ltac:(lia) Hfls Hp) as Hall.
  exists (merged_header basename +:+ files_text b 0 fls). split.
  { rewrite gen_merged_cuesheet_blocks.
    rewrite (file_blocks_text b fls Hb []); [reflexivity|constructor|exact Hfls|].
    cbn [sector_count]. lia. }
  intros fs cue_path data d r gb Hopen Hdata Hbin Hgb merged gb'.
  assert (read_cue_file fs cue_path gb = (calc_sectors [merged] gb', gb'))
    as Hread.
  { unfold read_cue_file. rewrite Hopen.
    assert (has_char "013" (merged_header basename +:+ files_text b 0 fls)
            = false) as Hcr.
    { rewrite has_char_app, merged_header_file_line,
        (file_line_no_cr _ Hname), (files_text_no_cr b fls 0 ltac:(lia) Hall).
      reflexivity. }
    rewrite (read_text _ data Hcr Hdata), merged_header_file_line.
    pose proof (proj2 (read_cue_line_file fs cue_path
                         (file_line (basename +:+ ".bin"))
                         (mkLocals [] None None) gb [basename +:+ ".bin"]
                         (file_line_search _ Hname)) r d Hbin) as Hstep.
    cbn [Re.group Nat.sub nth files this_track app length] in Hstep.
    rewrite (parse_line fs cue_path _ _ _ _ _ _
               (file_line_is_line _ Hname) Hstep).
    rewrite <- (string_app_nil_r (files_text b 0 fls)).
    destruct (parse_files fs cue_path []
                (Os.join (Os.dirname cue_path) (basename +:+ ".bin"))
                (Z.of_nat (length d)) b
                EmptyString fls 0 [] None gb ltac:(lia) Hall Hgb)
      as (tt' & Hparse).
    unfold in_file in Hparse. cbn [app length] in Hparse.
    rewrite Hparse. reflexivity. }
  split; [exact Hread|]. intros b' Hb' Hidx. rewrite Hread, Hb'.
  rewrite calc_sectors_single; [reflexivity| |].
  - exact (locked_nonzero gb _ b' Hgb Hb').
  - apply reread_files_indexes. exact Hidx.
Qed.

Lemma merged_cuesheet_reread_witness :
  exists text,
    gen_merged_cuesheet (Some 2352) "Game"
      [example_first_file; example_second_file] = Ok text
    /\ forall (fs : filesystem) (cue_path : string) (data d : list byte)
              (r : bool) (gb : option Z),
         Os.open_rb fs cue_path = Ok data ->
         data = list_byte_of_string text
         \/ data = list_byte_of_string (crlf text) ->
         fs !! Os.join (Os.dirname cue_path) ("Game" +:+ ".bin")
         = Some (RegularFile r d) ->
         can_lock gb (all_tracks [example_first_file; example_second_file]) ->
         let merged :=
           File.mk (Os.join (Os.dirname cue_path) ("Game" +:+ ".bin"))
             (reread_files 2352 0 [example_first_file; example_second_file])
             (Z.of_nat (length d)) in
         let gb' :=
           locked gb (all_tracks [example_first_file; example_second_file]) in
         read_cue_file fs cue_path gb = (calc_sectors [merged] gb', gb')
         /\ (forall b', gb' = Some b' ->
               Forall (fun x => Track.indexes x <> [])
                 (all_tracks [example_first_file; example_second_file]) ->
               read_cue_file fs cue_path gb
               = (Ok [File.set_tracks
                        (backfilled
                           (reread_files 2352 0
                              [example_first_file; example_second_file])
                           (Z.of_nat (length d) / b')) merged],
                  Some b')).
Proof.
  apply merged_cuesheet_reread.
  - repeat constructor.
  - repeat constructor; cbn; lia.
  - vm_compute. discriminate.
  - vm_compute. reflexivity.
  - unfold printable_track, printable_index.
    repeat first [apply Forall_nil_2 | apply Forall_cons; split | split];
      try reflexivity; cbn; lia.
Defined.
(** ** Reading back the split cuesheet *)

Lemma occurs_has_char (p s : string) (c : ascii) :
  occurs p s = true -> has_char c p = true -> has_char c s = true.
Proof.
  intros H Hc. apply occurs_inv in H as (pre & post & ->).
  rewrite !has_char_app, Hc, orb_true_r. reflexivity.
Qed.

Lemma occurs_cons (p : string) (c : ascii) (s : string) :
  occurs p s = true -> occurs p (String c s) = true.
Proof. intros H. exact (occurs_suffix p (String c "") s H). Qed.

(** Where a text can occur in two texts put together: in the first, in the
    second, or across the joint. *)
Lemma occurs_app_cases (p a b : string) :
  occurs p (a +:+ b) = true ->
  occurs p a = true \/ occurs p b = true
  \/ exists p1 p' r, p1 <> EmptyString /\ p' <> EmptyString
                     /\ p = p1 +:+ p' /\ Re.strip p' b = Some r.
Proof.
  induction a as [|c a IH]; [auto|]. rewrite string_app_cons.
  cbn [occurs]. rewrite <- string_app_cons.
  destruct (Re.strip p (String c a +:+ b)) as [r|] eqn:E.
  - intros _. apply strip_app_inv in E as [(r' & Hs)|(p' & -> & Hp & Hs)].
    + left. exact (occurs_here _ _ _ Hs).
    + right. right. exists (String c a), p', r.
      repeat split; [discriminate|exact Hp|exact Hs].
  - intros H. destruct (IH H) as [Ha|[Hb|Hx]]; auto.
    left. apply occurs_cons, Ha.
Qed.

Lemma digits_all_dot (s : string) :
  all_digits s = true -> all_match Re.Dot s = true.
Proof.
  induction s as [|c s IH]; [reflexivity|]. cbn [all_digits all_match].
  intros H. apply andb_true_iff in H as [Hc Hs]. rewrite (IH Hs), andb_true_r.
  unfold Re.cmatch. destruct (Ascii.eqb_spec c "010") as [->|]; [|reflexivity].
  discriminate.
Qed.

(** The name of a track file is clean when the base name is. *)
Lemma clean_track_filename (base : string) (n count : Z) :
  clean_name base = true -> 0 <= n ->
  clean_name (track_filename base n count) = true.
Proof.
  intros Hb Hn. destruct (clean_name_parts base Hb) as [Hnl Hcr].
  unfold clean_name in Hb.
  apply andb_true_iff in Hb as [Hb Ho]. apply andb_true_iff in Hb as [Hd _].
  apply negb_true_iff in Ho.
  assert (exists ds, digit_run ds
            /\ track_filename base n count
               = base +:+ " (Track " +:+ ds +:+ ").bin") as (ds & Hds & ->).
  { unfold track_filename, fmt_d. destruct (9 <? count); eexists;
      (split; [apply fmt_0d_digit_run, Hn|reflexivity]). }
  destruct Hds as [_ Hds]. unfold clean_name.
  rewrite !all_match_app, Hd, (digits_all_dot _ Hds).
  rewrite !has_char_app, Hcr, (digits_has_char "013" _ eq_refl Hds).
  cbn [all_match has_char Re.cmatch Ascii.eqb Bool.eqb negb andb orb].
  apply negb_true_iff.
  destruct (occurs " BINARY" (base +:+ " (Track " +:+ ds +:+ ").bin")) eqn:E;
    [|reflexivity]. exfalso.
  apply occurs_app_cases in E as [E|[E|(p1 & p' & r & H1 & H2 & Hp & Hs)]].
  - congruence.
  - apply (occurs_has_char _ _ "B") in E; [|reflexivity].
    rewrite !has_char_app, (digits_has_char "B" _ eq_refl Hds) in E.
    discriminate.
  - destruct p1 as [|c p1]; [congruence|].
    rewrite string_app_cons in Hp. injection Hp as <- Hp.
    do 7 (destruct p1 as [|? p1];
          [change (EmptyString +:+ p') with p' in Hp; subst p';
           first [congruence|vm_compute in Hs; discriminate]
          |rewrite string_app_cons in Hp;
           first [discriminate Hp|injection Hp as <- Hp]]).
Qed.

Lemma split_indexes_indexes_text (first : Z) (l : list Index.t) :
  split_indexes_text first l = indexes_text (- first) l.
Proof.
  induction l as [|i l IH]; [reflexivity|].
  cbn [split_indexes_text indexes_text]. rewrite IH.
  replace (Index.file_offset i - first) with (- first + Index.file_offset i)
    by lia.
  reflexivity.
Qed.

Lemma locked_nil (gb : option Z) : locked gb [] = gb.
Proof. unfold locked. destruct (truthy gb); reflexivity. Qed.

Section SplitText.
Context (fs : filesystem) (cue_path base : string) (count : Z).

Lemma parse_split (rest : string) (l : list Track.t) :
  forall (pre : list File.t) (tt : option (nat * nat)) (tf : option nat)
         (gb : option Z),
  clean_name base = true ->
  Forall printable_track l ->
  Forall (fun x => Forall (fun i => 0 <= Index.file_offset i - first_offset x)
                     (Track.indexes x)) l ->
  Forall (fun x => exists r d,
            fs !! Os.join (Os.dirname cue_path)
                    (track_filename base (Track.num x) count)
            = Some (RegularFile r d)) l ->
  can_lock gb l ->
  exists tt' tf',
    read_cue_lines fs cue_path
      (lines_acc (split_text base count l +:+ rest) EmptyString)
      (mkLocals pre tt tf) gb
    = read_cue_lines fs cue_path (lines_acc rest EmptyString)
        (mkLocals
           (pre ++ map (reread_split fs (Os.dirname cue_path) base count) l)
           tt' tf')
        (locked gb l).
Proof.
  induction l as [|x l IH]; intros pre tt tf gb Hb Hp Ho Hf Hgb.
  - exists tt, tf. cbn [split_text map]. rewrite app_nil_r, locked_nil.
    reflexivity.
  - apply Forall_cons in Hp as [Hx Hp]. apply Forall_cons in Ho as [Hxo Ho].
    apply Forall_cons in Hf as [(r & d & Hbin) Hf].
    pose proof Hx as (Hn & Ht & Hi).
    set (name := track_filename base (Track.num x) count) in *.
    assert (clean_name name = true) as Hclean
      by (apply clean_track_filename; assumption).
    pose proof (proj2 (read_cue_line_file fs cue_path (file_line name)
                         (mkLocals pre tt tf) gb [name]
                         (file_line_search _ Hclean)) r d Hbin) as Hstep.
    cbn [Re.group Nat.sub nth files this_track] in Hstep.
    destruct (parse_tracks fs cue_path pre
                (Os.join (Os.dirname cue_path) name) (Z.of_nat (length d))
                (- first_offset x) (split_text base count l +:+ rest) [x]
                [] tt gb) as (tt1 & Htrack & Htr).
    { constructor; [exact Hx|constructor]. }
    { constructor; [|constructor]. eapply Forall_impl; [exact Hxo|].
      intros i Hio. cbv beta in *. lia. }
    { destruct Hgb as [Hgb|[-> Hgb]]; [left; exact Hgb|right].
      split; [reflexivity|]. apply Forall_cons in Hgb as [Hk _].
      constructor; [exact Hk|constructor]. }
    specialize (Htr ltac:(discriminate)).
    destruct (IH (pre ++ [reread_split fs (Os.dirname cue_path) base count x])
                tt1 (Some (length pre)) (locked gb [x]) Hb Hp Ho Hf
                (or_introl Htr)) as (tt' & tf' & Hrest).
    exists tt', tf'. cbn [split_text map].
    rewrite !string_app_assoc.
    rewrite (parse_line fs cue_path _ _ _ _ _ _
               (file_line_is_line _ Hclean) Hstep).
    replace (track_line x
             +:+ split_indexes_text (first_offset x) (Track.indexes x)
             +:+ split_text base count l +:+ rest)
      with (tracks_text (- first_offset x) [x]
            +:+ split_text base count l +:+ rest)
      by (cbn [tracks_text];
          rewrite split_indexes_indexes_text, string_app_nil_r,
            !string_app_assoc; reflexivity).
    unfold in_file in Htrack. rewrite Htrack. cbn [map app].
    replace (File.mk (Os.join (Os.dirname cue_path) name)
               [reread_track (- first_offset x) x] (Z.of_nat (length d)))
      with (reread_split fs (Os.dirname cue_path) base count x)
      by (unfold reread_split, file_size, Os.getsize; fold name;
          rewrite Hbin; reflexivity).
    rewrite Hrest, (locked_cons gb x l Htr), <- app_assoc. reflexivity.
Qed.

Lemma split_text_no_cr (l : list Track.t) :
  clean_name base = true ->
  Forall printable_track l ->
  Forall (fun x => Forall (fun i => 0 <= Index.file_offset i - first_offset x)
                     (Track.indexes x)) l ->
  has_char "013" (split_text base count l) = false.
Proof.
  intros Hb Hp. induction Hp as [|x l Hx _ IH]; intros Ho; [reflexivity|].
  apply Forall_cons in Ho as [Hxo Ho]. cbn [split_text].
  pose proof Hx as (Hn & Ht & Hi).
  rewrite !has_char_app, (IH Ho), (track_line_no_cr x Hx), orb_false_r.
  rewrite (file_line_no_cr _ (clean_track_filename base _ count Hb Hn)).
  cbn [orb]. rewrite split_indexes_indexes_text.
  apply indexes_text_no_cr. apply Forall_forall. intros i Hin. split.
  - exact (proj1 (Forall_forall _ _) Hi i Hin).
  - pose proof (proj1 (Forall_forall _ _) Hxo i Hin) as H. cbv beta in H. lia.
Qed.
End SplitText.

(** X21. The cuesheet that [gen_split_cuesheet] writes is read back by
    [read_cue_file].  For a clean base name and tracks with non-negative
    numbers and ids, type tags without blanks, and indexes at or after their
    track's first index (less than 100 minutes after it): the cuesheet is
    returned, and when it is stored, as it is or with [\r\n] line ends, in
    the directory where the track files [track_filename] names are,
    [read_cue_file] finds one file per track, in track order, each with the
    size of its track file and holding the one track, under its number and
    type tag, the indexes under their ids and counted from the track's first
    index.  With two tracks or more these files are returned as they are
    (no sector counts); with one track the sector count is filled in. *)
Theorem split_cuesheet_reread (basename : string) (merged_file : File.t) :
  let count := Z.of_nat (length (File.tracks merged_file)) in
  clean_name basename = true ->
  Forall printable_track (File.tracks merged_file) ->
  Forall (fun x => Forall (fun i => 0 <= Index.file_offset i - first_offset x
                                    < 450000) (Track.indexes x))
    (File.tracks merged_file) ->
  exists text,
    gen_split_cuesheet basename merged_file = Ok text
    /\ forall (fs : filesystem) (cue_path : string) (data : list byte)
              (gb : option Z),
         Os.open_rb fs cue_path = Ok data ->
         data = list_byte_of_string text
         \/ data = list_byte_of_string (crlf text) ->
         Forall (fun x => exists r d,
                   fs !! Os.join (Os.dirname cue_path)
                           (track_filename basename (Track.num x) count)
                   = Some (RegularFile r d)) (File.tracks merged_file) ->
         can_lock gb (File.tracks merged_file) ->
         let fls := map (reread_split fs (Os.dirname cue_path) basename count)
                      (File.tracks merged_file) in
         let gb' := locked gb (File.tracks merged_file) in
         read_cue_file fs cue_path gb = (calc_sectors fls gb', gb')
         /\ (length (File.tracks merged_file) <> 1%nat ->
             read_cue_file fs cue_path gb = (Ok fls, gb')).
Proof.
  intros count Hb Hp Ho.
  exists (split_text basename count (File.tracks merged_file)). split.
  { unfold gen_split_cuesheet. fold count.
    rewrite (split_tracks_cue_spec _ _ _ _ Ho). reflexivity. }
  assert (Forall (fun x => Forall (fun i => 0 <= Index.file_offset i
                                            - first_offset x)
                             (Track.indexes x)) (File.tracks merged_file))
    as Ho'.
  { eapply Forall_impl; [exact Ho|]. intros x Hx.
    eapply Forall_impl; [exact Hx|]. intros i Hi. cbv beta in Hi. lia. }
  intros fs cue_path data gb Hopen Hdata Hf Hgb fls gb'.
  assert (read_cue_file fs cue_path gb = (calc_sectors fls gb', gb')) as Hread.
  { unfold read_cue_file. rewrite Hopen.
    rewrite (read_text _ data
               (split_text_no_cr basename count _ Hb Hp Ho') Hdata).
    rewrite <- (string_app_nil_r (split_text _ _ _)).
    destruct (parse_split fs cue_path basename count EmptyString
                (File.tracks merged_file) [] None None gb Hb Hp Ho' Hf Hgb)
      as (tt' & tf' & Hparse).
    rewrite Hparse. reflexivity. }
  split; [exact Hread|]. intros Hlen. rewrite Hread. f_equal.
  subst fls. destruct (File.tracks merged_file) as [|x [|y l]];
    [reflexivity|contradiction Hlen; reflexivity|reflexivity].
Qed.

Lemma split_cuesheet_reread_witness :
  let mf :=
    File.mk "/d/game.bin"
      [Track.mk 1 [Index.mk 1 "00:00:00" 0] "MODE1/2352" (Some 12000);
       Track.mk 2 [Index.mk 0 "02:40:00" 12000; Index.mk 1 "02:42:00" 12150]
         "AUDIO" (Some 3000)] 35280000 in
  exists text,
    gen_split_cuesheet "Game" mf = Ok text
    /\ forall (d1 d2 : list byte),
         let fs : filesystem :=
           <["/s/Game.cue" := RegularFile true (list_byte_of_string text)]>
             (<["/s/Game (Track 1).bin" := RegularFile true d1]>
                (<["/s/Game (Track 2).bin" := RegularFile true d2]> ∅)) in
         read_cue_file fs "/s/Game.cue" None
         = (Ok [File.mk "/s/Game (Track 1).bin"
                  [Track.mk 1 [Index.mk 1 "00:00:00" 0] "MODE1/2352" None]
                  (Z.of_nat (length d1));
                File.mk "/s/Game (Track 2).bin"
                  [Track.mk 2 [Index.mk 0 "00:00:00" 0;
                               Index.mk 1 "00:02:00" 150] "AUDIO" None]
                  (Z.of_nat (length d2))],
            Some 2352).
Proof.
  intros mf.
  destruct (split_cuesheet_reread "Game" mf) as (text & Hgen & Hread).
  - vm_compute. reflexivity.
  - unfold printable_track, printable_index.
    repeat first [apply Forall_nil_2 | apply Forall_cons; split | split];
      try reflexivity; cbn; lia.
  - repeat first [apply Forall_nil_2 | apply Forall_cons; split | split];
      cbn; lia.
  - exists text. split; [exact Hgen|]. intros d1 d2 fs.
    destruct (Hread fs "/s/Game.cue" (list_byte_of_string text) None)
      as [_ H].
    + reflexivity.
    + left. reflexivity.
    + repeat first [apply Forall_nil_2 | apply Forall_cons; split];
        eexists; eexists; reflexivity.
    + right. split; [reflexivity|].
      repeat first [apply Forall_nil_2 | apply Forall_cons; split];
        reflexivity.
    + exact (H ltac:(discriminate)).
Defined.
